(** * ews-proxy: the SOAP <-> JSON translation engine

    A shallow embedding of [soap2json.go], [json2soap.go] and the type
    metamodel of [ews_types.go], and the properties of the translators
    that the specification states.

    Conventions of the embedding.
    - Go's [interface{}] is the inductive [value]; every dynamic type the
      translators store in an interface has a constructor.
    - A [*EwsType] is a handle into the registry [ewsTypes] (the table the
      generated [ews_data.go] fills); a handle without an entry is the nil
      pointer.  The registry, the operation catalog and the two fixed header
      descriptions are the variables of the sections below.
    - A Go function returning [(x, err)] returns an [outcome]: [Ok x],
      [Err e], or [Panic] where Go would stop with a run-time panic (nil
      dereference, index out of range).  [OutOfFuel] only exists because the
      recursive translators are defined by recursion on a fuel; the
      adequacy lemmas show it never shows up with the fuel the entry points
      supply.
    - The [xml.Decoder] is the list of tokens it still has to deliver, the
      [xml.Encoder] is its stack of open tags together with the tokens
      written so far. *)

From Stdlib Require Import ZArith Lia Ascii String List Bool.
From stdpp Require Import gmap strings list fin_maps.

Set Warnings "-register-all".
Open Scope Z_scope.

(* ------------------------------------------------------------------ *)
(** ** encoding/xml: names, attributes and tokens *)
(* ------------------------------------------------------------------ *)

Record XmlName := mkName { Space : string; Local : string }.

Record Attr := mkAttr { AttrName : XmlName; AttrValue : string }.

Record StartElement := mkStart { SName : XmlName; SAttr : list Attr }.

Inductive Token :=
| TStartElement (el : StartElement)
| TEndElement (n : XmlName)
| TCharData (s : string)
| TComment (s : string)
| TProcInst (target inst : string)
| TDirective (s : string).

#[global] Instance XmlName_eq_dec : EqDecision XmlName.
Proof. solve_decision. Defined.

(* ------------------------------------------------------------------ *)
(** ** Values held in an [interface{}] *)
(* ------------------------------------------------------------------ *)

Inductive value :=
| VNil                                   (* nil *)
| VBool (b : bool)                       (* bool *)
| VNumber (lit : string)                 (* json.Number: the literal itself *)
| VInt (n : Z)                           (* int *)
| VString (s : string)                   (* string *)
| VList (l : list value)                 (* []interface{} *)
| VJsonList (l : list value)             (* JsonList *)
| VObject (ms : list (string * value))   (* json.OrderedObject *)
| VMap (m : gmap string value).          (* map[string]interface{} *)

(** [json.Member{Key, Value}] *)
Abbreviation Member := (string * value)%type (only parsing).
Abbreviation Key := fst (only parsing).
Abbreviation Value := snd (only parsing).

(** Nesting depth of the decoded JSON containers of a value. *)
Fixpoint depth (v : value) : nat :=
  match v with
  | VList l => S (foldr (fun x acc => Nat.max (depth x) acc) 0%nat l)
  | VMap m => S (map_fold (fun _ x acc => Nat.max (depth x) acc) 0%nat m)
  | _ => 0%nat
  end.

(* ------------------------------------------------------------------ *)
(** ** ews_types.go: the type metamodel *)
(* ------------------------------------------------------------------ *)

Definition T_BOOL : Z := 0.
Definition T_NUM : Z := 1.
Definition T_STR : Z := 2.
Definition T_ENUM : Z := 3.
Definition T_LIST : Z := 4.

(** A [*EwsType]: the name under which the registry holds the type. *)
Abbreviation tyref := string (only parsing).

(** The two hook tables of [ews_types.go] hold one function each; a hook
    is named by the entry it comes from. *)
Inductive JsonHookFunc := ResolveNamesTypeHook.
Inductive XmlChoiceFunc := SyncFolderHierarchyChangesTypeHook.

Record element := mkElement {
  XN : string;
  JN : string;
  T : string;
  JT : string;
  List_ : bool;
  JsonDefault : value
}.

Record EwsXmlElement := mkXmlElement {
  xeJsonName : string;
  xeType : tyref;
  xeIsList : bool
}.

Record EwsXmlJsonDefault := mkJsonDefault {
  jdJsonName : string;
  jdJsonDefault : value
}.

Record EwsJsonType := mkJsonType {
  jtType : tyref;
  jtXmlTag : XmlName;
  jtJsonType : string
}.

(** [Types] is a map that may be nil, and [IsCharData] tells the two
    apart; [SingleType] is a pointer that may be nil. *)
Record EwsJsonElement := mkJsonElement {
  jeJsonName : string;
  jeTypes : option (gmap string EwsJsonType);
  jeElements : gmap string EwsJsonType;
  jeSingleType : option EwsJsonType;
  jeIsList : bool;
  jeXmlChoiceHook : option XmlChoiceFunc
}.

Record EwsType := mkEwsType {
  Name : string;
  Attributes : list element;
  TypeByElementName : gmap string EwsXmlElement;
  JsonDefaults : list EwsXmlJsonDefault;
  JsonElementList : list EwsJsonElement;
  JsonExtra : list string;
  Attrs : gmap string tyref;
  AttrsNames : gmap string string;
  AnyAttr : bool;
  IsSimple : bool;
  SimpleType : Z;
  TextAttr : string;
  JsonType : string;
  IsList : bool;
  JsonListName : string;
  JsonListElement : option EwsJsonElement;
  JsonHook : option JsonHookFunc;
  EnumValues : list string;
  ListItemTypeStr : string;
  ListItemType : tyref
}.

Record OpDescriptor := mkOp {
  Action : string;
  Request : tyref;
  Response : EwsJsonElement;
  BodyType : string;
  RequestType : string
}.

(* ------------------------------------------------------------------ *)
(** ** Errors and outcomes *)
(* ------------------------------------------------------------------ *)

(** An argument of [errors.Errorf]. *)
Inductive fmtArg :=
| AStr (s : string)
| AVal (v : value)
| AStart (el : StartElement)
| ATok (t : Token)
| AElem (e : EwsJsonElement).

Inductive error :=
| EOF                                          (* io.EOF, from the decoder *)
| ENew (msg : string)                          (* errors.New(msg) *)
| Errorf (format : string) (args : list fmtArg)  (* errors.Errorf(format, args...) *)
| Wrap (e : error) (msg : string)              (* errors.Wrap(e, msg) *)
| NumError (s : string)                        (* strconv.Atoi(s) failed *)
| XmlError (msg : string).                     (* returned by the xml.Encoder *)

Inductive outcome (A : Type) :=
| Ok (a : A)
| Err (e : error)
| Panic
| OutOfFuel.
Arguments Ok {A} a.
Arguments Err {A} e.
Arguments Panic {A}.
Arguments OutOfFuel {A}.

#[global] Instance outcome_ret : MRet outcome := fun A a => Ok a.
#[global] Instance outcome_bind : MBind outcome := fun A B f m =>
  match m with
  | Ok a => f a
  | Err e => Err e
  | Panic => Panic
  | OutOfFuel => OutOfFuel
  end.

(** [if err != nil { return errors.Wrap(err, msg) }] *)
Definition wrapErr {A} (m : outcome A) (msg : string) : outcome A :=
  match m with
  | Err e => Err (Wrap e msg)
  | o => o
  end.

(** The run returned an error value (it neither produced a result nor
    stopped with a panic). *)
Definition returnsError {A} (m : outcome A) : Prop := exists e, m = Err e.

(* ------------------------------------------------------------------ *)
(** ** soap2json.go: OrderedObject *)
(* ------------------------------------------------------------------ *)

Record OrderedObject := mkObj {
  Object : list Member;
  keys : gmap string nat
}.

Definition NewOrderedObject : OrderedObject :=
  {| Object := []; keys := ∅ |}.

(** [obj.Get(key)]; indexing [obj.Object] out of range would panic. *)
Definition Get (obj : OrderedObject) (key : string) : outcome (value * bool) :=
  match keys obj !! key with
  | Some idx =>
      match Object obj !! idx with
      | Some m => Ok (Value m, true)
      | None => Panic
      end
  | None => Ok (VNil, false)
  end.

(** [obj.Set(key, value)]: the object after the call and the flag it
    returns (true when the member was added). *)
Definition Set_ (obj : OrderedObject) (key : string) (v : value)
  : outcome (OrderedObject * bool) :=
  match keys obj !! key with
  | Some idx =>
      match Object obj !! idx with
      | Some m =>
          Ok ({| Object := <[idx := (Key m, v)]> (Object obj); keys := keys obj |}, false)
      | None => Panic
      end
  | None =>
      Ok ({| Object := Object obj ++ [(key, v)];
             keys := <[key := length (Object obj)]> (keys obj) |}, true)
  end.

(** A method call on a [*OrderedObject] that may be nil. *)
Definition withObj {A} (obj : option OrderedObject) (k : OrderedObject -> outcome A)
  : outcome A :=
  match obj with
  | Some o => k o
  | None => Panic
  end.

(* ------------------------------------------------------------------ *)
(** ** strings and strconv *)
(* ------------------------------------------------------------------ *)

Definition inCutset (cutset : string) (c : ascii) : bool :=
  existsb (Ascii.eqb c) (list_ascii_of_string cutset).

Fixpoint dropCut (cutset : string) (l : list ascii) : list ascii :=
  match l with
  | c :: l' => if inCutset cutset c then dropCut cutset l' else l
  | [] => []
  end.

(** [strings.Trim(s, cutset)] *)
Definition Trim (s cutset : string) : string :=
  string_of_list_ascii
    (rev (dropCut cutset (rev (dropCut cutset (list_ascii_of_string s))))).

(** The cutset of [processElement]: tab, carriage return, backspace, line
    feed and space. *)
Definition trimCutset : string :=
  String "009" (String "013" (String "008" (String "010" (String " " "")))).

(** [strings.HasPrefix] *)
Definition HasPrefix (s p : string) : bool := String.prefix p s.

(** [strings.Join] *)
Fixpoint Join (l : list string) (sep : string) : string :=
  match l with
  | [] => ""
  | [x] => x
  | x :: l' => x +:+ sep +:+ Join l' sep
  end.

Definition digitVal (c : ascii) : option Z :=
  let n := Z.of_nat (nat_of_ascii c) in
  if (48 <=? n) && (n <=? 57) then Some (n - 48) else None.

Fixpoint parseDigits (l : list ascii) (acc : Z) : option Z :=
  match l with
  | [] => Some acc
  | c :: l' =>
      match digitVal c with
      | Some dgt => parseDigits l' (acc * 10 + dgt)
      | None => None
      end
  end.

(** [strconv.Atoi] on a 64-bit platform: an optional sign, at least one
    decimal digit, nothing else, and a value that fits an [int]. *)
Definition Atoi (s : string) : outcome Z :=
  let l := list_ascii_of_string s in
  let '(neg, digits) :=
    match l with
    | c :: l' =>
        if Ascii.eqb c "-" then (true, l')
        else if Ascii.eqb c "+" then (false, l')
        else (false, l)
    | [] => (false, [])
    end in
  match digits with
  | [] => Err (NumError s)
  | _ =>
      match parseDigits digits 0 with
      | Some n =>
          let v := if neg : bool then - n else n in
          if (- 2 ^ 63 <=? v) && (v <=? 2 ^ 63 - 1) then Ok v else Err (NumError s)
      | None => Err (NumError s)
      end
  end.

(** The conversion [uint32(num)] of an [int]. *)
Definition uint32 (n : Z) : Z := n mod 2 ^ 32.

(* ------------------------------------------------------------------ *)
(** ** The xml.Decoder *)
(* ------------------------------------------------------------------ *)

(** The tokens the decoder has not delivered yet. *)
Abbreviation Decoder := (list Token) (only parsing).

(** [d.Token()] *)
Definition nextToken (d : Decoder) : outcome (Token * Decoder) :=
  match d with
  | [] => Err EOF
  | tok :: d' => Ok (tok, d')
  end.

(** The namespaces of [json2soap.go]. *)
Definition NSSOAP : string := "http://schemas.xmlsoap.org/soap/envelope/".
Definition NSMSG : string := "http://schemas.microsoft.com/exchange/services/2006/messages".
Definition NSTYPE : string := "http://schemas.microsoft.com/exchange/services/2006/types".

(* ------------------------------------------------------------------ *)
(** ** A small registry *)
(* ------------------------------------------------------------------ *)

Module Sample.

Definition simpleType (name : string) (kind : Z) (labels : list string) (item : string)
  : EwsType :=
  mkEwsType name [] ∅ [] [] [] ∅ ∅ false true kind "" "" false "" None None labels item item.

Definition complexType (name jsonType : string) (attrs : list element)
    (children : gmap string EwsXmlElement) (jlist : list EwsJsonElement)
    (attrTypes : gmap string tyref) (attrNames : gmap string string) : EwsType :=
  mkEwsType name attrs children [] jlist [] attrTypes attrNames false false 0 "" jsonType
    false "" None None [] "" "".

Definition single (jsonName : string) (tag : string) (t : tyref) : EwsJsonElement :=
  mkJsonElement jsonName None ∅ (Some (mkJsonType t (mkName "" tag) "")) false None.

Definition labels : list string := ["None"; "A"; "B"; "C"].

Definition stringType : EwsType := simpleType "String" T_STR [] "".
Definition numberType : EwsType := simpleType "Number" T_NUM [] "".
Definition enumType : EwsType := simpleType "Enum" T_ENUM labels "".
Definition enumListType : EwsType := simpleType "EnumList" T_LIST [] "Enum".

Definition versionType : EwsType :=
  complexType "RequestServerVersion" ""
    [mkElement "Version" "Version" "String" "" false VNil]
    ∅ [] {[ "Version" := "String" ]} {[ "Version" := "Version" ]}.

Definition headerType : EwsType :=
  complexType "JsonRequestHeaders" "JsonRequestHeaders:#Exchange" []
    {[ "RequestServerVersion" := mkXmlElement "RequestServerVersion" "RequestServerVersion" false ]}
    [single "RequestServerVersion" "t:RequestServerVersion" "RequestServerVersion"] ∅ ∅.

Definition getFolderType : EwsType :=
  complexType "GetFolderType" "GetFolderRequest:#Exchange" []
    {[ "Count" := mkXmlElement "Count" "Number" false;
       "Flags" := mkXmlElement "Flags" "Enum" false ]}
    [single "Count" "t:Count" "Number"; single "Flags" "t:Flags" "Enum"] ∅ ∅.

Definition itemType : EwsType :=
  complexType "ItemType" "Item:#Exchange" []
    {[ "Subject" := mkXmlElement "Subject" "String" false ]}
    [single "Subject" "t:Subject" "String"] ∅ ∅.

Definition countElement : EwsJsonElement := single "Count" "t:Count" "Number".
Definition kindElement : EwsJsonElement := single "Kind" "t:Kind" "Enum".
Definition flagsElement : EwsJsonElement := single "Flags" "t:Flags" "EnumList".
Definition extraElement : EwsJsonElement := single "Extra" "t:Extra" "ItemType".

Definition responseType : EwsType :=
  complexType "GetFolderResponseType" "GetFolderResponse:#Exchange" []
    {[ "Count" := mkXmlElement "Count" "Number" false;
       "Kind" := mkXmlElement "Kind" "Enum" false;
       "Flags" := mkXmlElement "Flags" "EnumList" false;
       "Extra" := mkXmlElement "Extra" "ItemType" false ]}
    [countElement; kindElement; flagsElement; extraElement] ∅ ∅.

Definition ewsTypes : gmap string EwsType :=
  {[ "String" := stringType;
     "Number" := numberType;
     "Enum" := enumType;
     "EnumList" := enumListType;
     "RequestServerVersion" := versionType;
     "JsonRequestHeaders" := headerType;
     "GetFolderType" := getFolderType;
     "ItemType" := itemType;
     "GetFolderResponseType" := responseType ]}.

Definition getFolderResponse : EwsJsonElement :=
  mkJsonElement "GetFolderResponse" None ∅
    (Some (mkJsonType "GetFolderResponseType" (mkName "" "m:GetFolderResponse") "")) false None.

Definition getFolder : OpDescriptor :=
  mkOp "GetFolder" "GetFolderType" getFolderResponse
    "GetFolderRequest:#Exchange" "GetFolderJsonRequest:#Exchange".

Definition EwsOperations : gmap string OpDescriptor := {[ "GetFolder" := getFolder ]}.

Definition requestHeader : tyref := "JsonRequestHeaders".

Definition responseHeader : EwsJsonElement :=
  single "Header" "soap:Header" "JsonRequestHeaders".

Definition start (space local : string) (attrs : list Attr) : Token :=
  TStartElement (mkStart (mkName space local) attrs).
Definition stop (space local : string) : Token := TEndElement (mkName space local).

Definition envelope : StartElement := mkStart (mkName NSSOAP "Envelope") [].
Definition getFolderStart : StartElement := mkStart (mkName NSMSG "GetFolder") [].

(** The content of [<GetFolder><Count> 12.50 </Count></GetFolder>]. *)
Definition countContent : list Token :=
  [start NSTYPE "Count" []; TCharData " 12.50 "; stop NSTYPE "Count"].

(** [<Envelope><Body><GetFolder/></Body></Envelope>] *)
Definition noHeaderRequest : Decoder :=
  [TStartElement envelope; start NSSOAP "Body" []; TStartElement getFolderStart;
   stop NSMSG "GetFolder"; stop NSSOAP "Body"; stop NSSOAP "Envelope"].

(** [<Envelope><Header/><Body><GetFolder><Count> 12.50 </Count></GetFolder></Body></Envelope>] *)
Definition emptyHeaderRest : Decoder :=
  [start NSSOAP "Body" []; TStartElement getFolderStart]
  ++ countContent
  ++ [stop NSMSG "GetFolder"; stop NSSOAP "Body"; stop NSSOAP "Envelope"].

Definition headerStart : StartElement := mkStart (mkName NSSOAP "Header") [].

Definition emptyHeaderRequest : Decoder :=
  TStartElement envelope :: TStartElement headerStart :: stop NSSOAP "Header"
  :: emptyHeaderRest.

(** A header that asks for [Exchange2010_SP2]. *)
Definition versionedRequest : Decoder :=
  [TStartElement envelope; TStartElement headerStart;
   start NSTYPE "RequestServerVersion" [mkAttr (mkName "" "Version") "Exchange2010_SP2"];
   stop NSTYPE "RequestServerVersion"; stop NSSOAP "Header";
   start NSSOAP "Body" []; TStartElement getFolderStart;
   start NSTYPE "Flags" []; TCharData "B"; stop NSTYPE "Flags";
   stop NSMSG "GetFolder"; stop NSSOAP "Body"; stop NSSOAP "Envelope"].

(** The children of [<Envelope><Header/><Header/><Body>...</Body></Envelope>]. *)
Definition twoHeadersChildren : list Token :=
  [TStartElement headerStart; stop NSSOAP "Header";
   TStartElement headerStart; stop NSSOAP "Header";
   start NSSOAP "Body" []; TStartElement getFolderStart; stop NSMSG "GetFolder";
   stop NSSOAP "Body"].

(** The children of
    [<Envelope><Header/><Wrapper><Body><GetFolder><Count> 12.50 </Count></GetFolder></Body>
    </Wrapper><Header/></Envelope>]: two [Header] elements directly under
    [Envelope]. *)
Definition wrappedBody : list Token :=
  [start NSSOAP "Body" []; TStartElement getFolderStart]
  ++ countContent ++ [stop NSMSG "GetFolder"; stop NSSOAP "Body"].

Definition wrappedBodyChildren : list Token :=
  [TStartElement headerStart; stop NSSOAP "Header"; start "" "Wrapper" []]
  ++ wrappedBody
  ++ [stop "" "Wrapper"; TStartElement headerStart; stop NSSOAP "Header"].

Definition wrappedBodyRequest : Decoder :=
  TStartElement envelope :: wrappedBodyChildren ++ [stop NSSOAP "Envelope"].

(** An XML declaration and white space, as they stand ahead of the root
    element. *)
Definition prolog : list Token := [TProcInst "xml" "version='1.0'"; TCharData " "].

(** The document with the children [cs] under [Envelope]. *)
Definition document (cs : list Token) : Decoder :=
  prolog ++ TStartElement envelope :: cs ++ [stop NSSOAP "Envelope"].

Definition emptyHeader : list Token := [TStartElement headerStart; stop NSSOAP "Header"].

Definition bodyStart : StartElement := mkStart (mkName NSSOAP "Body") [].

(** [<Body><GetFolder/></Body>] *)
Definition plainBody : list Token :=
  [TStartElement bodyStart; TStartElement getFolderStart; stop NSMSG "GetFolder";
   stop NSSOAP "Body"].

(** The children of [<Envelope><Header/><Body><GetFolder/></Body><Header/></Envelope>]. *)
Definition headerBodyHeaderChildren : list Token := emptyHeader ++ plainBody ++ emptyHeader.

(** The children of
    [<Envelope><Header/><Body><GetFolder/></Body><Body><GetFolder/></Body></Envelope>]. *)
Definition headerBodyBodyChildren : list Token := emptyHeader ++ plainBody ++ plainBody.

(** A response body whose child [Extra] is an object without [Items];
    the type of [Extra] declares no such key. *)
Definition extraBody : gmap string value :=
  {[ "Extra" := VMap {[ "Subject" := VString "s" ]} ]}.

(** A response body with a child that carries [Items]. *)
Definition itemsBody : gmap string value :=
  {[ "Extra" := VMap {[ "Items" := VList [VMap {[ "Subject" := VString "s" ]}; VMap ∅] ]};
     "Count" := VNumber "3" ]}.

End Sample.


Section Translators.

(** The tables of the generated [ews_data.go]. *)
Variable ewsTypes : gmap string EwsType.
Variable EwsOperations : gmap string OpDescriptor.
Variable EwsSoapRequestHeader : tyref.
Variable EwsSoapResponseHeader : EwsJsonElement.

Definition deref (r : tyref) : option EwsType := ewsTypes !! r.

(* ------------------------------------------------------------------ *)
(** ** soap2json.go: XML -> JSON *)
(* ------------------------------------------------------------------ *)

(** [for idx, value := range vals { if value == chardata { ... idx } }] *)
Fixpoint enumIndex (vals : list string) (chardata : string) (idx : Z) : option Z :=
  match vals with
  | [] => None
  | v :: vals' =>
      if String.eqb v chardata then Some idx else enumIndex vals' chardata (idx + 1)
  end.

Definition convertSimpleToJson (typ : EwsType) (chardata : string) : value :=
  if SimpleType typ =? T_BOOL then
    VBool (String.eqb chardata "true" || String.eqb chardata "1")
  else if SimpleType typ =? T_NUM then
    VNumber chardata
  else if SimpleType typ =? T_ENUM then
    match enumIndex (EnumValues typ) chardata 0 with
    | Some idx => VInt idx
    | None => VString chardata
    end
  else VString chardata.

(** What [ret] holds: nothing, the pointer [obj], or any other value. *)
Inductive retval :=
| RNil
| RObj
| RVal (v : value).

(** The locals [obj], [listObj] and [ret] of [processElement]. *)
Record frame := mkFrame {
  f_obj : option OrderedObject;
  f_listObj : list value;
  f_ret : retval
}.

Definition emptyFrame : frame := mkFrame None [] RNil.

(** [attr.Name.Space != "xmlns" && attr.Name.Local != "xmlns"] *)
Definition notXmlns (attr : Attr) : bool :=
  negb (String.eqb (Space (AttrName attr)) "xmlns")
  && negb (String.eqb (Local (AttrName attr)) "xmlns").

(** The attribute loop of [initRetObject]. *)
Fixpoint setAttrs (typ : EwsType) (attrs : list Attr) (obj : OrderedObject)
  : outcome OrderedObject :=
  match attrs with
  | [] => Ok obj
  | attr :: rest =>
      if notXmlns attr then
        match Attrs typ !! Local (AttrName attr) with
        | Some atype =>
            match deref atype with
            | Some aty =>
                '(obj', _) ← Set_ obj (default "" (AttrsNames typ !! Local (AttrName attr)))
                                  (convertSimpleToJson aty (AttrValue attr));
                setAttrs typ rest obj'
            | None => Panic
            end
        | None =>
            Err (Errorf "Unknown attribute %s for type %s?"
                   [AStr (Local (AttrName attr)); AStr (Name typ)])
        end
      else setAttrs typ rest obj
  end.

(** [if typ.JsonType != "" { obj.Set("__type", typ.JsonType) }] on a new
    object. *)
Definition newTypedObject (typ : EwsType) : outcome OrderedObject :=
  if negb (String.eqb (JsonType typ) "") then
    '(o, _) ← Set_ NewOrderedObject "__type" (VString (JsonType typ)); Ok o
  else Ok NewOrderedObject.

Definition initRetObject (el : StartElement) (typ : EwsType) (simple : bool)
  : outcome frame :=
  if negb (IsSimple typ) || negb (String.eqb (TextAttr typ) "") then
    if negb (String.eqb (JsonListName typ) "") || IsList typ then
      if existsb notXmlns (SAttr el) then
        Err (Errorf "Type %s is list but has attributes!?" [AStr (Name typ)])
      else if negb (String.eqb (JsonListName typ) "") then
        o ← newTypedObject typ;
        '(o', _) ← Set_ o (JsonListName typ) (VJsonList []);
        Ok (mkFrame (Some o') [] RObj)
      else Ok (mkFrame None [] (RVal (VJsonList [])))
    else
      o ← newTypedObject typ;
      o' ← setAttrs typ (SAttr el) o;
      Ok (mkFrame (Some o') [] RObj)
  else Ok emptyFrame.

(** [if ret == nil { obj, listObj, ret, err = initRetObject(...) }] *)
Definition initIfNil (el : StartElement) (typ : EwsType) (simple : bool) (fr : frame)
  : outcome frame :=
  match f_ret fr with
  | RNil => initRetObject el typ simple
  | _ => Ok fr
  end.

(** The start-element case of [processElement], after the child has been
    translated to [newItem]. *)
Definition installChild (typ : EwsType) (nextElem : EwsXmlElement) (newItem : value)
    (fr : frame) : outcome frame :=
  let jsonName := xeJsonName nextElem in
  if negb (String.eqb (JsonListName typ) "") then
    let listObj := f_listObj fr ++ [newItem] in
    withObj (f_obj fr) (fun o =>
      '(o', _) ← Set_ o (JsonListName typ) (VList listObj);
      Ok (mkFrame (Some o') listObj (f_ret fr)))
  else if IsList typ then
    let listObj := f_listObj fr ++ [newItem] in
    Ok (mkFrame (f_obj fr) listObj (RVal (VList listObj)))
  else if xeIsList nextElem then
    withObj (f_obj fr) (fun o =>
      '(elistIf, ok) ← Get o jsonName;
      if ok : bool then
        match elistIf with
        | VList elist =>
            '(o', _) ← Set_ o jsonName (VList (elist ++ [newItem]));
            Ok (mkFrame (Some o') (f_listObj fr) (f_ret fr))
        | _ => Err (Errorf "Internal error: inconsistent list type" [])
        end
      else
        '(o', _) ← Set_ o jsonName (VList [newItem]);
        Ok (mkFrame (Some o') (f_listObj fr) (f_ret fr)))
  else
    item ← match newItem with
           | VNil =>
               match deref (xeType nextElem) with
               | Some ctyp =>
                   Ok (if IsSimple ctyp && (SimpleType ctyp =? T_STR)
                       then VString "" else VNil)
               | None => Panic
               end
           | _ => Ok newItem
           end;
    withObj (f_obj fr) (fun o =>
      '(o', added) ← Set_ o jsonName item;
      if added : bool then Ok (mkFrame (Some o') (f_listObj fr) (f_ret fr))
      else Err (Errorf "Internal error: collision on key %s for type %s"
                  [AStr jsonName; AStr (Name typ)])).

(** [for _, e := range typ.JsonDefaults { ... }] *)
Fixpoint insertDefaults (defaults : list EwsXmlJsonDefault) (obj : OrderedObject)
  : outcome OrderedObject :=
  match defaults with
  | [] => Ok obj
  | e :: rest =>
      '(_, ok) ← Get obj (jdJsonName e);
      if ok : bool then insertDefaults rest obj
      else '(obj', _) ← Set_ obj (jdJsonName e) (jdJsonDefault e); insertDefaults rest obj'
  end.

(** The entries of [jsonHooks]. *)
Definition applyJsonHook (h : JsonHookFunc) (t : EwsType) (obj : OrderedObject)
  : outcome OrderedObject :=
  match h with
  | ResolveNamesTypeHook =>
      '(_, exists_) ← Get obj "ContactDataShape";
      if exists_ : bool then Ok obj
      else '(obj', _) ← Set_ obj "ContactDataShape" (VString "Default"); Ok obj'
  end.

(** The end-element case of [processElement]. *)
Definition finishElement (typ : EwsType) (fr : frame) : outcome value :=
  match f_ret fr with
  | RObj =>
      withObj (f_obj fr) (fun o =>
        o1 ← insertDefaults (JsonDefaults typ) o;
        o2 ← match JsonHook typ with
             | Some h => applyJsonHook h typ o1
             | None => Ok o1
             end;
        Ok (VObject (Object o2)))
  | RNil => Ok VNil
  | RVal v => Ok v
  end.

(** The character-data case of [processElement]. *)
Definition charData (el : StartElement) (typ : EwsType) (s : string) (fr : frame)
  : outcome frame :=
  let chardata := Trim s trimCutset in
  if (String.length chardata =? 0)%nat then Ok fr
  else
    fr' ← initIfNil el typ true fr;
    let converted := convertSimpleToJson typ chardata in
    if negb (String.eqb (TextAttr typ) "") then
      withObj (f_obj fr') (fun o =>
        '(o', _) ← Set_ o (TextAttr typ) converted;
        Ok (mkFrame (Some o') (f_listObj fr') RObj))
    else Ok (mkFrame (f_obj fr') (f_listObj fr') (RVal converted)).

(** [processElement] and its token loop.  Each call and each turn of the
    loop takes one unit of fuel. *)
Fixpoint processElement (fuel : nat) (d : Decoder) (el : StartElement)
    (typ : option EwsType) {struct fuel} : outcome (value * Decoder) :=
  match fuel with
  | O => OutOfFuel
  | S fuel' =>
      match typ with
      | None => Err (Errorf "No type in specification for %#v" [AStart el])
      | Some typ =>
          fr ← (if (length (SAttr el) =? 0)%nat then Ok emptyFrame
                else initRetObject el typ false);
          elementLoop fuel' d el typ fr
      end
  end
with elementLoop (fuel : nat) (d : Decoder) (el : StartElement) (typ : EwsType)
    (fr : frame) {struct fuel} : outcome (value * Decoder) :=
  match fuel with
  | O => OutOfFuel
  | S fuel' =>
      '(tok, d1) ← nextToken d;
      match tok with
      | TStartElement tokel =>
          fr1 ← initIfNil el typ false fr;
          match TypeByElementName typ !! Local (SName tokel) with
          | None => Err (Errorf "unknown type %s" [AStr (Local (SName tokel))])
          | Some nextElem =>
              '(newItem, d2) ← processElement fuel' d1 tokel (deref (xeType nextElem));
              fr2 ← installChild typ nextElem newItem fr1;
              elementLoop fuel' d2 el typ fr2
          end
      | TEndElement _ =>
          v ← finishElement typ fr; Ok (v, d1)
      | TCharData s =>
          fr1 ← charData el typ s fr;
          elementLoop fuel' d1 el typ fr1
      | _ => elementLoop fuel' d1 el typ fr
      end
  end.

Fixpoint getNextElement (x : Decoder) (wantStart : bool) : outcome (Token * Decoder) :=
  match x with
  | [] => Err EOF
  | tok :: x' =>
      match tok with
      | TStartElement _ =>
          if wantStart then Ok (tok, x')
          else Err (Errorf "unexpected element (wanted end), got %#v" [ATok tok])
      | TEndElement _ =>
          if wantStart
          then Err (Errorf "unexpected element (wanted start), got %#v" [ATok tok])
          else Ok (tok, x')
      | _ => getNextElement x' wantStart
      end
  end.

Definition getNextStartElement (x : Decoder) : outcome (StartElement * Decoder) :=
  '(el, x') ← getNextElement x true;
  match el with
  | TStartElement e => Ok (e, x')
  | _ => Panic
  end.

(** The type-hint step of [processSoapElement]: prepend [__type], or
    replace the value of a first member that already has that key. *)
Definition setTypeHint (obj : list Member) (jsonType : string) : list Member :=
  match obj with
  | [] => [("__type", VString jsonType)]
  | m :: rest =>
      if String.eqb (Key m) "__type" then (Key m, VString jsonType) :: rest
      else ("__type", VString jsonType) :: obj
  end.

(** [processSoapElement]; [None] is the nil [json.OrderedObject]. *)
Definition processSoapElement (fuel : nat) (d : Decoder) (el : StartElement)
    (typ : option EwsType) (jsonType : string)
  : outcome (option (list Member) * Decoder) :=
  '(anyElem, d') ← processElement fuel d el typ;
  match anyElem with
  | VNil => Ok (None, d')
  | VObject obj =>
      Ok (Some (if negb (String.eqb jsonType "") then setTypeHint obj jsonType else obj), d')
  | _ => Err (Errorf "invalid return value %#v in %s" [AVal anyElem; AStr (Local (SName el))])
  end.

(** The header fix-up of [SOAP2JSON]: the loop over the members [v] of the
    [RequestServerVersion] object; [cur] is [header[i].Value]. *)
Fixpoint fixupVersion (v : list Member) (cur : value) : value :=
  match v with
  | [] => cur
  | kv2 :: rest =>
      if String.eqb (Key kv2) "Version" then
        match Value kv2 with
        | VString ver =>
            fixupVersion rest
              (VString (if HasPrefix ver "Exchange2007" || HasPrefix ver "Exchange2010"
                        then "Exchange2013" else ver))
        | _ => fixupVersion rest cur
        end
      else fixupVersion rest cur
  end.

(** [for i, kv := range header { switch kv.Key { case "RequestServerVersion": ... } }] *)
Definition fixupMember (kv : Member) : Member :=
  if String.eqb (Key kv) "RequestServerVersion" then
    match Value kv with
    | VObject v => (Key kv, fixupVersion v (Value kv))
    | _ => kv
    end
  else kv.

Definition fixupHeader (header : list Member) : list Member :=
  fixupMember <$> header.

(** The header [SOAP2JSON] makes up when the translated header is nil. *)
Definition customHeader : outcome (list Member) :=
  '(o1, _) ← Set_ NewOrderedObject "__type" (VString "JsonRequestHeaders:#Exchange");
  '(o2, _) ← Set_ o1 "RequestServerVersion" (VString "Exchange2013");
  Ok (Object o2).

(** [case "Header":] of the loop of [SOAP2JSON], after the duplicate test. *)
Definition soapHeader (fuel : nat) (d : Decoder) (el : StartElement)
  : outcome (list Member * Decoder) :=
  match deref EwsSoapRequestHeader with
  | None => Panic
  | Some ht =>
      '(header, d') ← processSoapElement fuel d el (Some ht) (JsonType ht);
      match header with
      | Some h => Ok (fixupHeader h, d')
      | None => h ← customHeader; Ok (h, d')
      end
  end.

(** [case "Body":] of the loop of [SOAP2JSON], after the duplicate test. *)
Definition soapBody (fuel : nat) (d : Decoder)
  : outcome (OpDescriptor * option (list Member) * Decoder) :=
  '(el, d1) ← getNextStartElement d;
  match EwsOperations !! Local (SName el) with
  | None => Err (Errorf "Unknown EWS operation %s" [AStr (Local (SName el))])
  | Some op =>
      '(body, d2) ← processSoapElement fuel d1 el (deref (Request op)) (BodyType op);
      '(_, d3) ← getNextElement d2 false;
      Ok (op, body, d3)
  end.

(** The locals of [SOAP2JSON]. *)
Record soapState := mkSoapState {
  st_header : option (list Member);
  st_body : option (list Member);
  st_msgType : string;
  st_op : option OpDescriptor;
  gotHeader : bool;
  gotBody : bool
}.

Definition soapState0 : soapState := mkSoapState None None "" None false false.

(** [for !gotHeader || !gotBody { ... }]; [n] bounds the number of turns,
    [fuel] is handed to [processElement]. *)
Fixpoint soapLoop (n fuel : nat) (d : Decoder) (st : soapState)
  : outcome (soapState * Decoder) :=
  if negb (gotHeader st) || negb (gotBody st) then
    match n with
    | O => OutOfFuel
    | S n' =>
        '(el, d1) ← getNextStartElement d;
        if String.eqb (Local (SName el)) "Header" then
          if gotHeader st then Err (ENew "multiple SOAP headers found")
          else
            '(h, d2) ← soapHeader fuel d1 el;
            soapLoop n' fuel d2
              (mkSoapState (Some h) (st_body st) (st_msgType st) (st_op st) true (gotBody st))
        else if String.eqb (Local (SName el)) "Body" then
          if gotBody st then Err (ENew "multiple SOAP bodies found")
          else
            '(op, body, d2) ← soapBody fuel d1;
            soapLoop n' fuel d2
              (mkSoapState (st_header st) body (RequestType op) (Some op) (gotHeader st) true)
        else soapLoop n' fuel d1 st
    end
  else Ok (st, d).

(** A [json.OrderedObject] stored as a member value; the nil object is
    written [null]. *)
Definition objectValue (o : option (list Member)) : value :=
  match o with
  | Some ms => VObject ms
  | None => VNil
  end.

(** [SOAP2JSON]: the message handed to [json.Marshal], and the operation. *)
Definition SOAP2JSON (r : Decoder) : outcome (list Member * option OpDescriptor) :=
  let fuel := (2 * length r + 2)%nat in
  '(el, d) ← getNextStartElement r;
  if negb (String.eqb (Local (SName el)) "Envelope") then Err (ENew "not a SOAP document")
  else
    '(st, d1) ← soapLoop (S (length d)) fuel d soapState0;
    '(_, d2) ← getNextElement d1 false;
    Ok ([("__type", VString (st_msgType st));
         ("Header", objectValue (st_header st));
         ("Body", objectValue (st_body st))], st_op st).

(* ------------------------------------------------------------------ *)
(** ** The xml.Encoder *)
(* ------------------------------------------------------------------ *)

(** The open tags (innermost first) and the tokens written so far. *)
Record Encoder := mkEnc {
  tags : list XmlName;
  out : list Token
}.

(** [enc.EncodeToken(t)] for the three kinds of token the translator
    writes; the writer underneath does not fail. *)
Definition EncodeToken (enc : Encoder) (t : Token) : outcome Encoder :=
  match t with
  | TStartElement start =>
      if String.eqb (Local (SName start)) "" then Err (XmlError "xml: start tag with no name")
      else Ok (mkEnc (SName start :: tags enc) (out enc ++ [t]))
  | TEndElement name =>
      if String.eqb (Local name) "" then Err (XmlError "xml: end tag with no name")
      else
        match tags enc with
        | [] => Err (XmlError ("xml: end tag </" +:+ Local name +:+ "> without start tag"))
        | top :: rest =>
            if decide (top = name) then Ok (mkEnc rest (out enc ++ [t]))
            else Err (XmlError ("xml: end tag </" +:+ Local name +:+ "> does not match start tag <"
                                +:+ Local top +:+ ">"))
        end
  | _ => Ok (mkEnc (tags enc) (out enc ++ [t]))
  end.

(** [this.EmitStart(enc, attrs)] on a receiver that may be nil. *)
Definition EmitStart (this : option EwsJsonType) (enc : Encoder) (attrs : list Attr)
  : outcome Encoder :=
  match this with
  | Some jt => EncodeToken enc (TStartElement (mkStart (jtXmlTag jt) attrs))
  | None => Panic
  end.

Definition EmitEnd (this : option EwsJsonType) (enc : Encoder) : outcome Encoder :=
  match this with
  | Some jt => EncodeToken enc (TEndElement (jtXmlTag jt))
  | None => Panic
  end.

(* ------------------------------------------------------------------ *)
(** ** github.com/emef/bitfield *)
(* ------------------------------------------------------------------ *)

(** A [BitField] is a slice of bytes. *)
Abbreviation BitField := (list Z) (only parsing).

(** [NewFromUint32(n)]: four bytes, least significant first. *)
Definition NewFromUint32 (n : Z) : BitField :=
  [n mod 256; Z.shiftr n 8 mod 256; Z.shiftr n 16 mod 256; Z.shiftr n 24 mod 256].

(** [b.Test(i)]: [(b[i/8] & (1 << (i%8))) != 0]; the index expression
    panics outside the slice. *)
Definition Test (b : BitField) (i : Z) : outcome bool :=
  match b !! Z.to_nat (i / 8) with
  | Some byte => Ok (negb (Z.land byte (Z.shiftl 1 (i mod 8)) =? 0))
  | None => Panic
  end.

(* ------------------------------------------------------------------ *)
(** ** json2soap.go: JSON -> XML *)
(* ------------------------------------------------------------------ *)

(** A loop over a slice that threads a state and stops at the first
    error. *)
Fixpoint forM {A S : Type} (l : list A) (s : S) (f : A -> S -> outcome S) : outcome S :=
  match l with
  | [] => Ok s
  | x :: l' => s' ← f x s; forM l' s' f
  end.

Definition toString (o : value) : outcome string :=
  match o with
  | VBool oo => Ok (if oo then "true" else "false")
  | VNumber oo => Ok oo
  | VString oo => Ok oo
  | VNil => Ok ""
  | _ => Err (Errorf "expected simple type, got `%#v`" [AVal o])
  end.

Definition processJsonChardata (enc : Encoder) (el : value) : outcome Encoder :=
  text ← toString el;
  EncodeToken enc (TCharData text).

(** [e.IsCharData()]; the type behind [SingleType] is dereferenced. *)
Definition IsCharData (e : EwsJsonElement) : outcome bool :=
  match jeTypes e with
  | Some _ => Ok false
  | None =>
      match jeSingleType e with
      | None => Ok true
      | Some st =>
          match deref (jtType st) with
          | Some t => Ok (IsSimple t && String.eqb (TextAttr t) "")
          | None => Panic
          end
      end
  end.

(** The entries of [xmlChoiceHooks]. *)
Definition applyXmlChoiceHook (h : XmlChoiceFunc) (edesc : EwsJsonElement)
    (element : gmap string value) : outcome EwsJsonType :=
  match h with
  | SyncFolderHierarchyChangesTypeHook =>
      let invalid :=
        Err (Errorf "Invalid ChangeType %#v %#v"
               [AVal (default VNil (element !! "ChangeType")); AElem edesc]) in
      match element !! "ChangeType" with
      | Some (VString changeType) =>
          match jeElements edesc !! ("t:" +:+ changeType) with
          | Some typ => Ok typ
          | None => invalid
          end
      | _ => invalid
      end
  end.

(** The choice of the type at the head of [processJsonObject]. *)
Definition resolveChoice (element : gmap string value) (edesc : EwsJsonElement)
  : outcome EwsJsonType :=
  match jeSingleType edesc with
  | Some jtyp => Ok jtyp
  | None =>
      match jeXmlChoiceHook edesc with
      | Some hook => applyXmlChoiceHook hook edesc element
      | None =>
          match element !! "__type" with
          | Some (VString hint) =>
              match jeTypes edesc ≫= (fun types => types !! hint) with
              | Some jtyp => Ok jtyp
              | None =>
                  Err (Errorf "hint %s was not found in element %s"
                         [AStr hint; AStr (jeJsonName edesc)])
              end
          | _ => Err (Errorf "no hint, cannot determine type for %+v" [AVal (VMap element)])
          end
      end
  end.

(** [for _, attr := range typ.Attributes { ... }] *)
Fixpoint collectAttrs (decl : list element) (element : gmap string value)
    (attrs : list Attr) : outcome (list Attr * gmap string value) :=
  match decl with
  | [] => Ok (attrs, element)
  | attr :: rest =>
      let aname := JN attr in
      match element !! aname with
      | Some o =>
          attrStr ← wrapErr (toString o) ("invalid attribute " +:+ aname);
          collectAttrs rest (delete aname element)
            (attrs ++ [mkAttr (mkName "" (XN attr)) attrStr])
      | None => collectAttrs rest element attrs
      end
  end.

(** The test that sends a child of [processJsonObject] to the bit-field
    branch; it yields the child's type and the enum the list ranges over. *)
Definition enumListChild (je : EwsJsonElement) : outcome (option (EwsJsonType * EwsType)) :=
  match jeSingleType je with
  | None => Ok None
  | Some jt =>
      match deref (jtType jt) with
      | None => Panic
      | Some jeTyp =>
          if IsSimple jeTyp && (SimpleType jeTyp =? T_LIST) then
            match deref (ListItemType jeTyp) with
            | None => Ok None
            | Some item =>
                if IsSimple item && (SimpleType item =? T_ENUM)
                then Ok (Some (jt, item)) else Ok None
            end
          else Ok None
      end
  end.

(** [for index, value := range EnumValues { if bits.Test(uint32(index)) { ... } }] *)
Fixpoint selectNames (bits : BitField) (vals : list string) (index : Z)
    (names : list string) : outcome (list string) :=
  match vals with
  | [] => Ok names
  | v :: vals' =>
      t ← Test bits (uint32 index);
      selectNames bits vals' (index + 1) (if t : bool then names ++ [v] else names)
  end.

(** The bit-field branch: one element whose character data lists the
    selected labels. *)
Definition emitEnumList (enc : Encoder) (obj : value) (je : EwsJsonElement)
    (jt : EwsJsonType) (item : EwsType) : outcome Encoder :=
  numStr ← wrapErr (toString obj) "Unable to convert list value to string";
  num ← wrapErr (Atoi numStr) ("Unable to convert " +:+ numStr +:+ " to integer");
  let bits := NewFromUint32 (uint32 num) in
  names ← selectNames bits (EnumValues item) 0 [];
  let text := Join names " " in
  enc1 ← wrapErr (EmitStart (Some jt) enc []) (jeJsonName je);
  let enc2 := match EncodeToken enc1 (TCharData text) with
              | Ok e => e
              | _ => enc1
              end in
  wrapErr (EmitEnd (Some jt) enc2) (jeJsonName je).

Section ObjectAndList.

(** [processJson] one level down. *)
Variable processJson' : Encoder -> value -> option EwsJsonElement -> outcome Encoder.

(** One turn of the loop over [typ.JsonElementList]. *)
Definition processChild (je : EwsJsonElement) (st : Encoder * gmap string value)
  : outcome (Encoder * gmap string value) :=
  let '(enc, element) := st in
  match element !! jeJsonName je with
  | Some obj =>
      sel ← enumListChild je;
      enc' ← match sel with
             | Some (jt, item) => emitEnumList enc obj je jt item
             | None => processJson' enc obj (Some je)
             end;
      Ok (enc', delete (jeJsonName je) element)
  | None => Ok st
  end.

(** What [processJsonObject] does between the start and the end tag,
    before the extras are dropped. *)
Definition processBody (enc : Encoder) (element : gmap string value) (typ : EwsType)
  : outcome (Encoder * gmap string value) :=
  if IsSimple typ && negb (String.eqb (TextAttr typ) "") then
    match element !! TextAttr typ with
    | Some o =>
        enc' ← wrapErr (processJsonChardata enc o) (TextAttr typ);
        Ok (enc', delete (TextAttr typ) element)
    | None => Ok (enc, element)
    end
  else if negb (String.eqb (JsonListName typ) "") then
    match element !! JsonListName typ with
    | None | Some VNil =>
        Err (Errorf "No %s element found for element with items?" [AStr (JsonListName typ)])
    | Some v =>
        enc' ← processJson' enc v (JsonListElement typ);
        Ok (enc', delete (JsonListName typ) element)
    end
  else forM (JsonElementList typ) (enc, element) processChild.

(** [for _, extra := range typ.JsonExtra { delete(element, extra) }] *)
Definition dropExtras (extras : list string) (element : gmap string value)
  : gmap string value :=
  foldl (fun m extra => delete extra m) element extras.

(** [processJsonObject] up to the strictness test: the chosen type, the
    encoder, and the keys of [element] that are left.  The deletions act
    on the caller's map too, but no caller reads a value again once it has
    been translated. *)
Definition consumeObject (enc : Encoder) (element : gmap string value)
    (edesc : EwsJsonElement)
  : outcome (EwsJsonType * EwsType * Encoder * gmap string value) :=
  jtyp ← resolveChoice element edesc;
  let element1 := delete "__type" element in
  match deref (jtType jtyp) with
  | None => Panic
  | Some typ =>
      if IsSimple typ && String.eqb (TextAttr typ) "" then
        Err (Errorf "%s is a simple type" [AStr (Name typ)])
      else
        '(attrs, element2) ← collectAttrs (Attributes typ) element1 [];
        enc1 ← EmitStart (Some jtyp) enc attrs;
        '(enc2, element3) ← processBody enc1 element2 typ;
        Ok (jtyp, typ, enc2, dropExtras (JsonExtra typ) element3)
  end.

Definition processJsonObject (enc : Encoder) (element : gmap string value)
    (edesc : EwsJsonElement) : outcome Encoder :=
  '(jtyp, typ, enc', rest) ← consumeObject enc element edesc;
  if negb (size rest =? 0)%nat then
    Err (Errorf "extra elements in %s: %#v" [AStr (Name typ); AVal (VMap rest)])
  else EmitEnd (Some jtyp) enc'.

(** The description of the items of a list, and the tag around them. *)
Definition listChildDesc (edesc : EwsJsonElement)
  : outcome (EwsJsonElement * option EwsJsonType) :=
  let viaIsList :=
    if jeIsList edesc then Ok (edesc, None)
    else Err (ENew "Could not determine list type") in
  match jeSingleType edesc with
  | Some st =>
      match deref (jtType st) with
      | None => Panic
      | Some t =>
          if negb (String.eqb (JsonListName t) "") || IsList t then
            match JsonListElement t with
            | None => Panic
            | Some jl =>
                Ok (mkJsonElement (jeJsonName edesc) (jeTypes jl) ∅ (jeSingleType jl)
                      false None, Some st)
            end
          else viaIsList
      end
  | None => viaIsList
  end.

(** One turn of the loop of [processJsonList]. *)
Definition processListItem (childDesc : EwsJsonElement) (e : value) (enc : Encoder)
  : outcome Encoder :=
  match e with
  | VNil => Ok enc
  | _ =>
      cd ← IsCharData childDesc;
      if cd : bool then
        enc1 ← EmitStart (jeSingleType childDesc) enc [];
        enc2 ← wrapErr (processJsonChardata enc1 e) "processing list";
        EmitEnd (jeSingleType childDesc) enc2
      else
        match e with
        | VMap obj => processJsonObject enc obj childDesc
        | _ => Err (Errorf "while processing list, expected object, got %#v" [AVal e])
        end
  end.

Definition processJsonList (enc : Encoder) (elements : list value)
    (edesc : EwsJsonElement) : outcome Encoder :=
  '(childDesc, jtyp) ← listChildDesc edesc;
  enc1 ← match jtyp with
         | Some _ => EmitStart jtyp enc []
         | None => Ok enc
         end;
  enc2 ← forM elements enc1 (processListItem childDesc);
  match jtyp with
  | Some _ => EmitEnd jtyp enc2
  | None => Ok enc2
  end.

(** The scalar case of [processJson]. *)
Definition processJsonScalar (enc : Encoder) (el : value) (edesc : EwsJsonElement)
  : outcome Encoder :=
  cd ← IsCharData edesc;
  if negb cd then
    Err (Errorf "%s: unexpected simple content `%#v`" [AStr (jeJsonName edesc); AVal el])
  else
    enc1 ← wrapErr (EmitStart (jeSingleType edesc) enc []) (jeJsonName edesc);
    text ← wrapErr (toString el) (jeJsonName edesc);
    match jeSingleType edesc ≫= (fun st => deref (jtType st)) with
    | None => Panic
    | Some ewsType =>
        text' ← (if IsSimple ewsType && (SimpleType ewsType =? T_ENUM) then
                   num ← wrapErr (Atoi text) ("Unable to convert " +:+ text +:+ " to an integer");
                   if num <? 0 then Panic
                   else match EnumValues ewsType !! Z.to_nat num with
                        | Some label => Ok label
                        | None => Panic
                        end
                 else Ok text);
        enc2 ← wrapErr (processJsonChardata enc1 (VString text')) (jeJsonName edesc);
        wrapErr (EmitEnd (jeSingleType edesc) enc2) (jeJsonName edesc)
    end.

End ObjectAndList.

(** [processJson]; a nil [edesc] is dereferenced in every case but the
    nil one.  The fuel bounds the nesting of the value. *)
Fixpoint processJson (fuel : nat) (enc : Encoder) (element : value)
    (edesc : option EwsJsonElement) {struct fuel} : outcome Encoder :=
  match fuel with
  | O => OutOfFuel
  | S fuel' =>
      match element with
      | VNil => Ok enc
      | VMap el =>
          match edesc with
          | Some ed => wrapErr (processJsonObject (processJson fuel') enc el ed) (jeJsonName ed)
          | None => Panic
          end
      | VList el =>
          match edesc with
          | Some ed => wrapErr (processJsonList (processJson fuel') enc el ed) (jeJsonName ed)
          | None => Panic
          end
      | _ =>
          match edesc with
          | Some ed => processJsonScalar enc element ed
          | None => Panic
          end
      end
  end.

(** The message [JSON2SOAP] decodes (with [UseNumber]); a nil map is
    [None]. *)
Record JsonSoapMessage := mkMsg {
  msg_Type : string;
  msg_Header : option (gmap string value);
  msg_Body : option (gmap string value)
}.

Definition soapEnvelopeTag : XmlName := mkName "" "soap:Envelope".
Definition soapBodyTag : XmlName := mkName "" "soap:Body".
Definition soapXmlns : list Attr :=
  [mkAttr (mkName "" "xmlns:soap") NSSOAP;
   mkAttr (mkName "" "xmlns:m") NSMSG;
   mkAttr (mkName "" "xmlns:t") NSTYPE].

(** [for _, gItem := range items { ... item["__type"] = hint ... }] *)
Fixpoint stampItems (hint : string) (items : list value) : outcome (list value) :=
  match items with
  | [] => Ok []
  | gItem :: rest =>
      match gItem with
      | VMap item =>
          rest' ← stampItems hint rest;
          Ok (VMap (<["__type" := VString hint]> item) :: rest')
      | _ => Err (Errorf "Internal error: item is not a JSON object: %#v" [AVal gItem])
      end
  end.

(** One turn of the type-hint loop of [JSON2SOAP].  The items are maps
    that [msg.Body] reaches, so stamping them changes the body in place. *)
Definition stampChild (op : OpDescriptor) (childName : string)
    (body : gmap string value) : outcome (gmap string value) :=
  match body !! childName with
  | None | Some VNil => Ok body
  | Some (VMap childMessage) =>
      match childMessage !! "Items" with
      | None =>
          Err (ENew ("Internal error: Cannot find 'Items' element in '" +:+ childName +:+ "'"))
      | Some (VList items) =>
          items' ← stampItems (jeJsonName (Response op) +:+ "Message") items;
          Ok (<[childName := VMap (<["Items" := VList items']> childMessage)]> body)
      | Some _ =>
          Err (ENew ("Internal error: Cannot convert items to array. Inside element: '"
                     +:+ childName +:+ "'"))
      end
  | Some _ => Ok body
  end.

(** The type-hint loop, over the child names in the order [names]. *)
Definition stampBody (op : OpDescriptor) (names : list string)
    (body : gmap string value) : outcome (gmap string value) :=
  forM names body (stampChild op).

(** [ewsResponseType.SingleType.Type.TypeByElementName] *)
Definition responseChildren (op : OpDescriptor) : outcome (gmap string EwsXmlElement) :=
  match jeSingleType (Response op) ≫= (fun st => deref (jtType st)) with
  | Some t => Ok (TypeByElementName t)
  | None => Panic
  end.

(** The XML declaration [JSON2SOAP] writes ahead of the encoder. *)
Definition xmlHeader : Token :=
  let q := String "034" "" in
  TProcInst "xml" ("version=" +:+ q +:+ "1.0" +:+ q +:+ " encoding=" +:+ q +:+ "UTF-8" +:+ q).

(** The type-hint loop of [JSON2SOAP]; [range] is the order in which Go
    ranges over the child names. *)
Definition stampResponse (range : gmap string EwsXmlElement -> list string)
    (op : OpDescriptor) (body : gmap string value) : outcome (gmap string value) :=
  children ← responseChildren op;
  stampBody op (range children) body.

(** [JSON2SOAP] on the decoded message: the tokens written. *)
Definition JSON2SOAP_in (range : gmap string EwsXmlElement -> list string)
    (msg : JsonSoapMessage) (op : OpDescriptor) : outcome (list Token) :=
  enc ← EncodeToken (mkEnc [] [xmlHeader]) (TStartElement (mkStart soapEnvelopeTag soapXmlns));
  enc1 ← match msg_Header msg with
         | Some h =>
             wrapErr (processJson (S (depth (VMap h))) enc (VMap h) (Some EwsSoapResponseHeader))
               "soap:Header"
         | None => Ok enc
         end;
  enc2 ← match msg_Body msg with
         | Some b =>
             e1 ← EncodeToken enc1 (TStartElement (mkStart soapBodyTag []));
             b' ← stampResponse range op b;
             e2 ← wrapErr (processJson (S (depth (VMap b'))) e1 (VMap b') (Some (Response op)))
                    "soap:Body";
             EncodeToken e2 (TEndElement soapBodyTag)
         | None => Ok enc1
         end;
  enc3 ← EncodeToken enc2 (TEndElement soapEnvelopeTag);
  Ok (out enc3).

(** [JSON2SOAP], ranging over the child names in the order of
    [map_to_list]. *)
Definition JSON2SOAP (msg : JsonSoapMessage) (op : OpDescriptor) : outcome (list Token) :=
  JSON2SOAP_in (fun children => map fst (map_to_list children)) msg op.


(* ------------------------------------------------------------------ *)
(** ** ews_types.go: building the lookup tables of a type *)
(* ------------------------------------------------------------------ *)

(** [strings.Split(s, sep)] for a separator of one character; [cur] holds
    the characters of the piece being read, last first. *)
Fixpoint splitOn (sep : ascii) (cur : list ascii) (l : list ascii) : list string :=
  match l with
  | [] => [string_of_list_ascii (rev cur)]
  | c :: l' =>
      if Ascii.eqb c sep then string_of_list_ascii (rev cur) :: splitOn sep [] l'
      else splitOn sep (c :: cur) l'
  end.

Definition Split (s : string) (sep : ascii) : list string :=
  splitOn sep [] (list_ascii_of_string s).

(** The tables [jsonHooks] and [xmlChoiceHooks]. *)
Definition jsonHooks (name : string) : option JsonHookFunc :=
  if String.eqb name "ResolveNamesType" then Some ResolveNamesTypeHook else None.

Definition xmlChoiceHooks (name : string) : option XmlChoiceFunc :=
  if String.eqb name "SyncFolderHierarchyChangesType"
  then Some SyncFolderHierarchyChangesTypeHook else None.

Definition NewEwsJsonType (xmlLocal : string) (typ : tyref) : EwsJsonType :=
  mkJsonType typ (mkName "" xmlLocal) "".

(** [Elements] is made here and nowhere else, so it is never a nil map
    where [add] writes to it. *)
Definition NewEwsJsonElement (xmlName jsonName : string) (isList : bool) : EwsJsonElement :=
  mkJsonElement jsonName None ∅ None isList (xmlChoiceHooks xmlName).

(** Assignments to one field of an [EwsJsonElement]. *)
Definition withTypes (e : EwsJsonElement) (types : option (gmap string EwsJsonType))
  : EwsJsonElement :=
  mkJsonElement (jeJsonName e) types (jeElements e) (jeSingleType e) (jeIsList e)
    (jeXmlChoiceHook e).

Definition withSingleType (e : EwsJsonElement) (st : option EwsJsonType) : EwsJsonElement :=
  mkJsonElement (jeJsonName e) (jeTypes e) (jeElements e) st (jeIsList e)
    (jeXmlChoiceHook e).

Definition withElements (e : EwsJsonElement) (els : gmap string EwsJsonType)
  : EwsJsonElement :=
  mkJsonElement (jeJsonName e) (jeTypes e) els (jeSingleType e) (jeIsList e)
    (jeXmlChoiceHook e).

(** The type hints under which [addInternal] files a description: the
    hint given with the element, or else the JSON type of its type and the
    same with [Type] put after the part before the first colon. *)
Definition hintsOf (jt : EwsJsonType) : outcome (list string) :=
  if String.eqb (jtJsonType jt) "" then
    match deref (jtType jt) with
    | Some t =>
        match Split (JsonType t) ":" with
        | s0 :: _ => Ok [JsonType t; s0 +:+ "Type" +:+ ":#Exchange"]
        | [] => Panic
        end
    | None => Panic
    end
  else Ok [jtJsonType jt].

(** [e.addInternal(jt)]; writing to [e.Types] while it is nil panics. *)
Definition addInternal (e : EwsJsonElement) (jt : EwsJsonType) : outcome EwsJsonElement :=
  types ← hintsOf jt;
  match jeTypes e with
  | Some m => Ok (withTypes e (Some (foldl (fun m t => <[t := jt]> m) m types)))
  | None => Panic
  end.

(** [e.add(jt)] *)
Definition add (e : EwsJsonElement) (jt : EwsJsonType) : outcome EwsJsonElement :=
  e1 ← match jeSingleType e with
       | Some st =>
           e' ← addInternal (withTypes e (Some ∅)) st;
           Ok (withSingleType e' None)
       | None => Ok e
       end;
  e2 ← match jeTypes e1 with
       | Some _ => addInternal e1 jt
       | None => Ok (withSingleType e1 (Some jt))
       end;
  Ok (withElements e2 (<[Local (jtXmlTag jt) := jt]> (jeElements e2))).

(** One turn of the loop over [v.Attributes]: the attributes seen so far
    with their JSON names filled in, [Attrs] and [AttrsNames]. *)
Definition initAttribute
    (st : list element * gmap string tyref * gmap string string) (a : element)
  : list element * gmap string tyref * gmap string string :=
  let '(seen, attrs, names) := st in
  let jn := if String.eqb (JN a) "" then XN a else JN a in
  (seen ++ [mkElement (XN a) jn (T a) (JT a) (List_ a) (JsonDefault a)],
   <[XN a := T a]> attrs, <[XN a := jn]> names).

(** What the loop over [v.elements] builds: [TypeByElementName],
    [JsonDefaults], [JsonElementList], and the local map [tmp], which
    holds for a JSON name the place of its description in the list (the
    list and the map hold the same pointer). *)
Record initState := mkInit {
  is_byName : gmap string EwsXmlElement;
  is_defaults : list EwsXmlJsonDefault;
  is_list : list EwsJsonElement;
  is_tmp : gmap string nat
}.

(** One turn of the loop over [v.elements]; the element name is what
    follows the first colon of [XN], and indexing the pieces panics when
    there is no colon. *)
Definition initElement (name : string) (e : element) (st : initState) : outcome initState :=
  match Split (XN e) ":" !! 1%nat with
  | None => Panic
  | Some ename =>
      let jname := if String.eqb (JN e) "" then ename else JN e in
      let byName := <[ename := mkXmlElement jname (T e) (List_ e)]> (is_byName st) in
      let defaults :=
        match JsonDefault e with
        | VNil => is_defaults st
        | d => is_defaults st ++ [mkJsonDefault jname d]
        end in
      let '(idx, jel, tmp) :=
        match is_tmp st !! jname with
        | Some i => (i, is_list st, is_tmp st)
        | None =>
            (length (is_list st),
             is_list st ++ [NewEwsJsonElement name jname (List_ e)],
             <[jname := length (is_list st)]> (is_tmp st))
        end in
      let jt := mkJsonType (T e) (mkName "" (XN e)) (JT e) in
      match jel !! idx with
      | None => Panic
      | Some je =>
          je' ← (if String.eqb name "ArrayOfResponseMessagesType" then
                   Ok (withTypes je (Some (<[ename := jt]> (default ∅ (jeTypes je)))))
                 else add je jt);
          Ok (mkInit byName defaults (<[idx := je']> jel) tmp)
      end
  end.

(** The description of the items of a list type; [range] is the order in
    which Go ranges over the hints of a choice. *)
Definition initListElement (range : gmap string EwsJsonType -> list EwsJsonType)
    (v : EwsType) (jel : list EwsJsonElement) : outcome (option EwsJsonElement) :=
  if negb (String.eqb (JsonListName v) "") || IsList v then
    let je := NewEwsJsonElement (Name v) (JsonListName v) true in
    je' ← (if String.eqb (Name v) "ArrayOfResponseMessagesType" then
             match jel !! 0%nat with
             | Some first => Ok (withTypes je (jeTypes first))
             | None => Panic
             end
           else
             forM jel je (fun jee je =>
               match jeSingleType jee with
               | Some st => add je st
               | None => forM (range (default ∅ (jeTypes jee))) je (fun t je => add je t)
               end));
    Ok (Some je')
  else Ok (JsonListElement v).

(** The last step of [Initialize]: an item type that is named must be in
    the registry. *)
Definition resolveListItemType (v : EwsType) : outcome tyref :=
  if negb (String.eqb (ListItemTypeStr v) "") then
    match ewsTypes !! ListItemTypeStr v with
    | Some _ => Ok (ListItemTypeStr v)
    | None => Panic
    end
  else Ok (ListItemType v).

(** [v.Initialize()].  The private field [v.elements], which nothing else
    reads, is the argument [elements].  Of the other types of the registry
    [Initialize] takes the pointer, and reads [JsonType] only, which no
    [Initialize] writes. *)
Definition Initialize (range : gmap string EwsJsonType -> list EwsJsonType)
    (elements : list element) (v : EwsType) : outcome EwsType :=
  let '(attributes, attrs, names) := foldl initAttribute ([], ∅, ∅) (Attributes v) in
  st ← forM elements (mkInit ∅ (JsonDefaults v) (JsonElementList v) ∅)
         (initElement (Name v));
  jle ← initListElement range v (is_list st);
  lit ← resolveListItemType v;
  Ok (mkEwsType (Name v) attributes (is_byName st) (is_defaults st) (is_list st)
        (JsonExtra v) attrs names (AnyAttr v) (IsSimple v) (SimpleType v) (TextAttr v)
        (JsonType v) (IsList v) (JsonListName v) jle (jsonHooks (Name v)) (EnumValues v)
        (ListItemTypeStr v) lit).


(* ================================================================== *)
(** * Properties *)
(* ================================================================== *)

(** Case analysis on the head of a chain of binds in a hypothesis. *)
Ltac bind_case H :=
  match type of H with
  | context [mbind _ ?m] =>
      let E := fresh "E" in
      destruct m as [? | ? | |] eqn:E; simpl in H; try discriminate H
  end.

(** The same, unfolding nothing but the bind. *)
Ltac bind_case' H :=
  match type of H with
  | context [mbind _ ?m] =>
      let E := fresh "E" in
      destruct m as [? | ? | |] eqn:E; cbn [mbind outcome_bind] in H; try discriminate H
  end.

Ltac destr_pairs :=
  repeat match goal with
         | p : (_ * _)%type |- _ => destruct p
         end.

(* ------------------------------------------------------------------ *)
(** ** OrderedObject *)
(* ------------------------------------------------------------------ *)

(** Every index recorded in [keys] points at a member with that key. *)
Definition keysSound (o : OrderedObject) : Prop :=
  forall k i, keys o !! k = Some i -> exists v, Object o !! i = Some (k, v).

(** The object starts with the type hint [D], and [keys] knows it. *)
Definition typeFirst (D : string) (o : OrderedObject) : Prop :=
  Object o !! 0%nat = Some ("__type", VString D)
  /\ keys o !! "__type" = Some 0%nat
  /\ keysSound o.

Lemma keysSound_new : keysSound NewOrderedObject.
Proof. intros k i H. cbn in H. rewrite lookup_empty in H. discriminate. Qed.

Lemma Set_keysSound o k v o' b :
  keysSound o -> Set_ o k v = Ok (o', b) -> keysSound o'.
Proof.
  intros Hs H. unfold Set_ in H.
  destruct (keys o !! k) as [idx|] eqn:Ek.
  - destruct (Object o !! idx) as [m|] eqn:Em; [|discriminate].
    injection H as <- <-. intros k' i Hk'. cbn in *.
    destruct (Hs _ _ Hk') as [v' Hv'].
    destruct (decide (i = idx)) as [->|Hne].
    + destruct (Hs _ _ Ek) as [w Hw]. exists v.
      rewrite list_lookup_insert_eq by (eapply lookup_lt_Some; eauto).
      rewrite Em in Hv'. injection Hv' as ->. reflexivity.
    + exists v'. rewrite list_lookup_insert_ne by congruence. exact Hv'.
  - injection H as <- <-. intros k' i Hk'. cbn in *.
    destruct (decide (k = k')) as [->|Hne].
    + rewrite lookup_insert_eq in Hk'. injection Hk' as <-.
      exists v. rewrite lookup_app_r by lia. now rewrite Nat.sub_diag.
    + rewrite lookup_insert_ne in Hk' by exact Hne.
      destruct (Hs _ _ Hk') as [v' Hv']. exists v'.
      rewrite lookup_app_l by (eapply lookup_lt_Some; eauto). exact Hv'.
Qed.

Lemma Set_no_panic o k v : keysSound o -> Set_ o k v <> Panic /\ Set_ o k v <> OutOfFuel.
Proof.
  intros Hs. unfold Set_.
  destruct (keys o !! k) as [idx|] eqn:Ek; [|split; discriminate].
  destruct (Hs _ _ Ek) as [w ->]. split; discriminate.
Qed.

Lemma Set_new k v :
  Set_ NewOrderedObject k v = Ok (mkObj [(k, v)] {[ k := 0%nat ]}, true).
Proof.
  unfold Set_, NewOrderedObject. cbn [keys Object]. now rewrite lookup_empty.
Qed.

Lemma Set_typeFirst D o k v o' b :
  typeFirst D o -> k <> "__type" -> Set_ o k v = Ok (o', b) -> typeFirst D o'.
Proof.
  intros (H0 & Hk & Hs) Hne H. split; [|split].
  - unfold Set_ in H. destruct (keys o !! k) as [idx|] eqn:Ek.
    + destruct (Object o !! idx) as [m|] eqn:Em; [|discriminate].
      injection H as <- <-. cbn.
      destruct (Hs _ _ Ek) as [w Hw].
      assert (idx <> 0%nat) by (intros ->; rewrite H0 in Hw; congruence).
      rewrite list_lookup_insert_ne by congruence. exact H0.
    + injection H as <- <-. cbn.
      rewrite lookup_app_l by (eapply lookup_lt_Some; eauto). exact H0.
  - unfold Set_ in H. destruct (keys o !! k) as [idx|] eqn:Ek.
    + destruct (Object o !! idx) as [m|] eqn:Em; [|discriminate].
      injection H as <- <-. exact Hk.
    + injection H as <- <-. cbn. rewrite lookup_insert_ne by exact Hne. exact Hk.
  - eapply Set_keysSound; eauto.
Qed.

Lemma Set_typeFirst_hint D o v :
  typeFirst D o ->
  Set_ o "__type" v = Ok (mkObj (<[0%nat := ("__type", v)]> (Object o)) (keys o), false).
Proof.
  intros (H0 & Hk & Hs). unfold Set_. rewrite Hk, H0. reflexivity.
Qed.

Lemma Get_typeFirst D o : typeFirst D o -> Get o "__type" = Ok (VString D, true).
Proof. intros (H0 & Hk & Hs). unfold Get. rewrite Hk, H0. reflexivity. Qed.

Lemma Get_no_panic o k : keysSound o -> Get o k <> Panic /\ Get o k <> OutOfFuel.
Proof.
  intros Hs. unfold Get.
  destruct (keys o !! k) as [idx|] eqn:Ek; [|split; discriminate].
  destruct (Hs _ _ Ek) as [w ->]. split; discriminate.
Qed.

(* ------------------------------------------------------------------ *)
(** ** Scalars: enums and numbers *)
(* ------------------------------------------------------------------ *)

Lemma enumIndex_first vals chardata k n :
  vals !! n = Some chardata ->
  (forall m, (m < n)%nat -> vals !! m <> Some chardata) ->
  enumIndex vals chardata k = Some (k + Z.of_nat n).
Proof.
  revert k n. induction vals as [|v vals IH]; intros k n Hn Hfirst.
  - destruct n; discriminate.
  - destruct n as [|n]; cbn in *.
    + injection Hn as ->. rewrite String.eqb_refl. f_equal. lia.
    + destruct (String.eqb v chardata) eqn:E.
      * apply String.eqb_eq in E. subst v.
        exfalso. apply (Hfirst 0%nat); [lia | reflexivity].
      * rewrite (IH (k + 1) n Hn).
        -- f_equal. lia.
        -- intros m Hm. apply (Hfirst (S m)). lia.
Qed.

Lemma enumIndex_absent vals chardata k :
  chardata ∉ vals -> enumIndex vals chardata k = None.
Proof.
  revert k. induction vals as [|v vals IH]; intros k Hnot; cbn; [reflexivity|].
  destruct (String.eqb v chardata) eqn:E.
  - apply String.eqb_eq in E. subst v. exfalso. apply Hnot. left.
  - apply IH. intros Hin. apply Hnot. now right.
Qed.

(** The position of the first occurrence of a member. *)
Lemma first_occurrence (vals : list string) chardata :
  chardata ∈ vals ->
  exists n, vals !! n = Some chardata
            /\ forall m, (m < n)%nat -> vals !! m <> Some chardata.
Proof.
  induction vals as [|v vals IH]; intros Hin.
  - inversion Hin.
  - destruct (decide (v = chardata)) as [->|Hne].
    + exists 0%nat. split; [reflexivity | intros m Hm; lia].
    + assert (Hin' : chardata ∈ vals).
      { apply elem_of_cons in Hin as [->|?]; [congruence | assumption]. }
      destruct (IH Hin') as (n & Hn & Hfirst).
      exists (S n). split; [exact Hn|].
      intros [|m] Hm; cbn; [congruence | apply Hfirst; lia].
Qed.

(** C9: character data of an enum-kind simple type converts to the index
    of the first label equal to it; character data that matches no label
    is passed through as the raw string, and the conversion has no error
    outcome at all. *)
Theorem enum_chardata_first_index_or_raw (typ : EwsType) (chardata : string) :
  SimpleType typ = T_ENUM ->
  (forall n,
      EnumValues typ !! n = Some chardata ->
      (forall m, (m < n)%nat -> EnumValues typ !! m <> Some chardata) ->
      convertSimpleToJson typ chardata = VInt (Z.of_nat n))
  /\ (chardata ∈ EnumValues typ ->
      exists n, EnumValues typ !! n = Some chardata
                /\ convertSimpleToJson typ chardata = VInt (Z.of_nat n))
  /\ (chardata ∉ EnumValues typ ->
      convertSimpleToJson typ chardata = VString chardata).
Proof.
  intros Hk.
  assert (Hindex : forall n,
             EnumValues typ !! n = Some chardata ->
             (forall m, (m < n)%nat -> EnumValues typ !! m <> Some chardata) ->
             convertSimpleToJson typ chardata = VInt (Z.of_nat n)).
  { intros n Hn Hfirst. unfold convertSimpleToJson. rewrite Hk. cbn.
    now rewrite (enumIndex_first _ _ 0 n Hn Hfirst). }
  split; [exact Hindex | split].
  - intros Hin. destruct (first_occurrence _ _ Hin) as (n & Hn & Hfirst).
    exists n. split; [exact Hn | now apply Hindex].
  - intros Hnot. unfold convertSimpleToJson. rewrite Hk. cbn.
    now rewrite enumIndex_absent.
Qed.

Lemma initRetObject_leaf el typ simple :
  IsSimple typ = true -> TextAttr typ = "" -> initRetObject el typ simple = Ok emptyFrame.
Proof. intros Hs Ht. unfold initRetObject. now rewrite Hs, Ht. Qed.

Lemma EncodeToken_start enc name attrs :
  Local name <> "" ->
  EncodeToken enc (TStartElement (mkStart name attrs))
  = Ok (mkEnc (name :: tags enc) (out enc ++ [TStartElement (mkStart name attrs)])).
Proof.
  intros Hn. cbn. apply String.eqb_neq in Hn. now rewrite Hn.
Qed.

Lemma EncodeToken_end ts o name :
  Local name <> "" ->
  EncodeToken (mkEnc (name :: ts) o) (TEndElement name)
  = Ok (mkEnc ts (o ++ [TEndElement name])).
Proof.
  intros Hn. cbn. apply String.eqb_neq in Hn. rewrite Hn.
  destruct (decide (name = name)); [reflexivity | congruence].
Qed.

Lemma EncodeToken_chardata enc text :
  EncodeToken enc (TCharData text) = Ok (mkEnc (tags enc) (out enc ++ [TCharData text])).
Proof. reflexivity. Qed.

(** A scalar written as one element: start tag, character data, end tag. *)
Definition wrote (enc : Encoder) (tag : XmlName) (text : string) : Encoder :=
  mkEnc (tags enc)
    (out enc ++ [TStartElement (mkStart tag []); TCharData text; TEndElement tag]).

(** C8: a number keeps its lexical form in both directions.  XML -> JSON
    stores the character data of a number-kind simple type as the
    [json.Number] with exactly that text (an element's character data after
    the trim of [processElement], an attribute's value as it is);
    JSON -> XML turns a [json.Number] back into the same text and writes it
    as the character data of the element.  No step goes through a
    numeric type. *)
Theorem number_lexical_form_preserved (typ : EwsType) (lit : string) :
  SimpleType typ = T_NUM ->
  convertSimpleToJson typ lit = VNumber lit
  /\ toString (VNumber lit) = Ok lit
  /\ toString (convertSimpleToJson typ lit) = Ok lit
  /\ (forall enc,
        processJsonChardata enc (VNumber lit)
        = Ok (mkEnc (tags enc) (out enc ++ [TCharData lit])))
  /\ (forall fuel enc edesc st,
        jeTypes edesc = None -> jeSingleType edesc = Some st ->
        deref (jtType st) = Some typ ->
        IsSimple typ = true -> TextAttr typ = "" -> Local (jtXmlTag st) <> "" ->
        processJson (S fuel) enc (VNumber lit) (Some edesc)
        = Ok (wrote enc (jtXmlTag st) lit))
  /\ (forall fuel el n d,
        IsSimple typ = true -> TextAttr typ = "" ->
        String.length (Trim lit trimCutset) <> 0%nat ->
        processElement (S (S (S fuel))) (TCharData lit :: TEndElement n :: d) el (Some typ)
        = Ok (VNumber (Trim lit trimCutset), d)).
Proof.
  intros Hk.
  assert (Hconv : forall s, convertSimpleToJson typ s = VNumber s).
  { intros s. unfold convertSimpleToJson. now rewrite Hk. }
  refine (conj _ (conj _ (conj _ (conj _ (conj _ _))))).
  - apply Hconv.
  - reflexivity.
  - now rewrite Hconv.
  - reflexivity.
  - intros fuel enc edesc st HT HS Hd Hsimple Htext Htag.
    cbn. unfold processJsonScalar, IsCharData.
    rewrite HT, HS, Hd, Hsimple, Htext. cbn.
    rewrite (proj2 (String.eqb_neq _ _) Htag). cbn.
    rewrite Hd. cbn. rewrite Hsimple, Hk. cbn.
    destruct (decide (jtXmlTag st = jtXmlTag st)); [|congruence].
    cbn. unfold wrote. now rewrite <- !app_assoc.
  - intros fuel el n d Hsimple Htext Hlen.
    cbn -[Trim trimCutset].
    assert (Hfr : (if (length (SAttr el) =? 0)%nat then Ok emptyFrame
                   else initRetObject el typ false) = Ok emptyFrame).
    { destruct (length (SAttr el) =? 0)%nat; [reflexivity|].
      now apply initRetObject_leaf. }
    rewrite Hfr. cbn -[Trim trimCutset].
    unfold charData. apply Nat.eqb_neq in Hlen. rewrite Hlen.
    unfold initIfNil. cbn -[Trim trimCutset].
    rewrite initRetObject_leaf by assumption. cbn -[Trim trimCutset].
    rewrite Htext. cbn -[Trim trimCutset]. now rewrite Hconv.
Qed.

(* ------------------------------------------------------------------ *)
(** ** The type hint comes first *)
(* ------------------------------------------------------------------ *)

(** No key that [processElement] sets on the object of [typ] without
    looking (the text key, the list key, the JSON names of the
    attributes) is the key of the type hint. *)
Definition noHintClash (typ : EwsType) : Prop :=
  TextAttr typ <> "__type"
  /\ JsonListName typ <> "__type"
  /\ forall x j, AttrsNames typ !! x = Some j -> j <> "__type".

(** The object of a frame starts with the hint [D], and [ret] holds no
    object of its own. *)
Definition frameInv (D : string) (fr : frame) : Prop :=
  (forall o, f_obj fr = Some o -> typeFirst D o)
  /\ (forall ms, f_ret fr <> RVal (VObject ms)).

Lemma convertSimpleToJson_scalar typ chardata ms :
  convertSimpleToJson typ chardata <> VObject ms.
Proof.
  unfold convertSimpleToJson.
  repeat match goal with
         | |- context [if ?c then _ else _] => destruct c
         | |- context [match ?c with _ => _ end] => destruct c
         end; discriminate.
Qed.

Lemma frameInv_empty D : frameInv D emptyFrame.
Proof. split; [intros o H; discriminate | intros ms; discriminate]. Qed.

Lemma newTypedObject_typeFirst typ o :
  JsonType typ <> "" -> newTypedObject typ = Ok o -> typeFirst (JsonType typ) o.
Proof.
  intros Hne H. unfold newTypedObject in H.
  apply String.eqb_neq in Hne. rewrite Hne in H. cbn [negb] in H.
  rewrite Set_new in H. cbn [mbind outcome_bind] in H.
  injection H as <-. split; [reflexivity | split; [apply lookup_singleton_eq|]].
  intros k i Hk. cbn [keys Object] in *.
  apply lookup_singleton_Some in Hk as [<- <-]. now eexists.
Qed.

Lemma setAttrs_typeFirst D typ attrs o o' :
  noHintClash typ -> typeFirst D o -> setAttrs typ attrs o = Ok o' -> typeFirst D o'.
Proof.
  intros (_ & _ & Hattr). revert o.
  induction attrs as [|attr attrs IH]; intros o Ho H; cbn in H.
  - now injection H as <-.
  - destruct (notXmlns attr); [|now apply (IH o)].
    destruct (Attrs typ !! Local (AttrName attr)) as [atype|]; [|discriminate].
    destruct (deref atype) as [aty|]; [|discriminate].
    bind_case H. destr_pairs. apply (IH o0); [|exact H].
    eapply Set_typeFirst; [exact Ho | | exact E].
    destruct (AttrsNames typ !! Local (AttrName attr)) as [j|] eqn:Ej; cbn.
    + eapply Hattr; eauto.
    + discriminate.
Qed.

Lemma initRetObject_inv el typ simple fr :
  noHintClash typ -> JsonType typ <> "" ->
  initRetObject el typ simple = Ok fr -> frameInv (JsonType typ) fr.
Proof.
  intros Hc Hne H. unfold initRetObject in H.
  destruct (negb (IsSimple typ) || negb (String.eqb (TextAttr typ) ""));
    [|injection H as <-; apply frameInv_empty].
  destruct (negb (String.eqb (JsonListName typ) "") || IsList typ).
  - destruct (existsb notXmlns (SAttr el)); [discriminate|].
    destruct (negb (String.eqb (JsonListName typ) "")).
    + bind_case H. bind_case H. destr_pairs. injection H as <-.
      split; [|intros ms; discriminate].
      intros o' Ho'. injection Ho' as <-.
      eapply Set_typeFirst; [| |exact E0].
      * now apply newTypedObject_typeFirst.
      * apply (proj1 (proj2 Hc)).
    + injection H as <-. split; [intros o Ho; discriminate | intros ms; discriminate].
  - bind_case H. bind_case H. injection H as <-.
    split; [|intros ms; discriminate].
    intros o' Ho'. injection Ho' as <-.
    eapply setAttrs_typeFirst; [exact Hc | | exact E0].
    now apply newTypedObject_typeFirst.
Qed.

Lemma initIfNil_inv el typ simple fr fr' :
  noHintClash typ -> JsonType typ <> "" ->
  frameInv (JsonType typ) fr ->
  initIfNil el typ simple fr = Ok fr' -> frameInv (JsonType typ) fr'.
Proof.
  intros Hc Hne Hfr H. unfold initIfNil in H.
  destruct (f_ret fr); try (now injection H as <-).
  eapply initRetObject_inv; eauto.
Qed.

Lemma Get_absent o k v : Get o k = Ok (v, false) -> keys o !! k = None.
Proof.
  unfold Get. destruct (keys o !! k) as [idx|]; [|reflexivity].
  destruct (Object o !! idx); discriminate.
Qed.

Lemma Set_added o k v o' : Set_ o k v = Ok (o', true) -> keys o !! k = None.
Proof.
  unfold Set_. destruct (keys o !! k) as [idx|]; [|reflexivity].
  destruct (Object o !! idx); discriminate.
Qed.

Lemma installChild_inv typ nextElem newItem fr fr' :
  noHintClash typ -> JsonType typ <> "" ->
  frameInv (JsonType typ) fr ->
  installChild typ nextElem newItem fr = Ok fr' -> frameInv (JsonType typ) fr'.
Proof.
  intros Hc Hne [Hobj Hret] H. unfold installChild in H.
  destruct (negb (String.eqb (JsonListName typ) "")).
  { destruct (f_obj fr) as [o|] eqn:Eo; [|discriminate]. cbn in H.
    bind_case H. destr_pairs. injection H as <-.
    split; [|exact Hret].
    intros o' Ho'. injection Ho' as <-.
    eapply Set_typeFirst; [apply Hobj; reflexivity | apply (proj1 (proj2 Hc)) | exact E]. }
  destruct (IsList typ).
  { injection H as <-. split; [exact Hobj | intros ms; discriminate]. }
  destruct (xeIsList nextElem).
  { destruct (f_obj fr) as [o|] eqn:Eo; [|discriminate]. cbn in H.
    specialize (Hobj o eq_refl).
    destruct (decide (xeJsonName nextElem = "__type")) as [Ek|Ek].
    - rewrite Ek, (Get_typeFirst _ _ Hobj) in H. discriminate.
    - bind_case H. destr_pairs. destruct b.
      + destruct v; try discriminate. bind_case H. destr_pairs. injection H as <-.
        split; [|exact Hret]. intros o' Ho'. injection Ho' as <-.
        eapply Set_typeFirst; eauto.
      + bind_case H. destr_pairs. injection H as <-.
        split; [|exact Hret]. intros o' Ho'. injection Ho' as <-.
        eapply Set_typeFirst; eauto. }
  bind_case H.
  destruct (f_obj fr) as [o|] eqn:Eo; [|discriminate]. cbn in H.
  specialize (Hobj o eq_refl).
  bind_case H. destr_pairs. destruct b; [|discriminate]. injection H as <-.
  split; [|exact Hret]. intros o' Ho'. injection Ho' as <-.
  eapply Set_typeFirst; [exact Hobj | | exact E0].
  intros Ek. apply Set_added in E0. rewrite Ek in E0.
  destruct Hobj as (_ & Hk & _). congruence.
Qed.

Lemma charData_inv el typ s fr fr' :
  noHintClash typ -> JsonType typ <> "" ->
  frameInv (JsonType typ) fr ->
  charData el typ s fr = Ok fr' -> frameInv (JsonType typ) fr'.
Proof.
  intros Hc Hne Hfr H. unfold charData in H.
  destruct (String.length (Trim s trimCutset) =? 0)%nat; [now injection H as <-|].
  bind_case H.
  pose proof (initIfNil_inv _ _ _ _ _ Hc Hne Hfr E) as [Hobj Hret].
  destruct (negb (String.eqb (TextAttr typ) "")).
  - destruct (f_obj a) as [o|] eqn:Eo; [|discriminate]. cbn in H.
    bind_case H. destr_pairs. injection H as <-.
    split; [|intros ms; discriminate].
    intros o' Ho'. injection Ho' as <-.
    eapply Set_typeFirst; [apply Hobj; reflexivity | apply (proj1 Hc) | exact E0].
  - injection H as <-. split; [exact Hobj|].
    intros ms Hms. cbn in Hms. injection Hms as Hms.
    now apply convertSimpleToJson_scalar in Hms.
Qed.

Lemma insertDefaults_typeFirst D defaults o o' :
  typeFirst D o -> insertDefaults defaults o = Ok o' -> typeFirst D o'.
Proof.
  revert o. induction defaults as [|e rest IH]; intros o Ho H; cbn in H.
  - now injection H as <-.
  - bind_case H. destr_pairs. destruct b; [now apply (IH o)|].
    bind_case H. destr_pairs. apply (IH o0); [|exact H].
    eapply Set_typeFirst; [exact Ho | | exact E0].
    intros Ek. apply Get_absent in E. rewrite Ek in E.
    destruct Ho as (_ & Hk & _). congruence.
Qed.

Lemma applyJsonHook_typeFirst D h t o o' :
  typeFirst D o -> applyJsonHook h t o = Ok o' -> typeFirst D o'.
Proof.
  intros Ho H. destruct h. cbn in H.
  bind_case H. destr_pairs. destruct b; [now injection H as <-|].
  bind_case H. destr_pairs. injection H as <-.
  refine (Set_typeFirst _ _ _ _ _ _ Ho _ E0). discriminate.
Qed.

Lemma finishElement_inv typ fr ms :
  frameInv (JsonType typ) fr ->
  finishElement typ fr = Ok (VObject ms) ->
  ms !! 0%nat = Some ("__type", VString (JsonType typ)).
Proof.
  intros [Hobj Hret] H. unfold finishElement in H.
  destruct (f_ret fr) eqn:Er.
  - discriminate.
  - destruct (f_obj fr) as [o|] eqn:Eo; [|discriminate]. cbn in H.
    bind_case H. bind_case H. injection H as <-.
    assert (Ha : typeFirst (JsonType typ) a).
    { eapply insertDefaults_typeFirst; [apply Hobj; reflexivity | exact E]. }
    assert (Ha0 : typeFirst (JsonType typ) a0).
    { destruct (JsonHook typ) as [h|].
      - eapply applyJsonHook_typeFirst; eauto.
      - now injection E0 as <-. }
    apply Ha0.
  - injection H as ->. exfalso. now apply (Hret ms).
Qed.

Lemma elementLoop_inv fuel : forall d el typ fr ms d',
  noHintClash typ -> JsonType typ <> "" ->
  frameInv (JsonType typ) fr ->
  elementLoop fuel d el typ fr = Ok (VObject ms, d') ->
  ms !! 0%nat = Some ("__type", VString (JsonType typ)).
Proof.
  induction fuel as [|fuel IH]; intros d el typ fr ms d' Hc Hne Hfr H; [discriminate|].
  cbn in H. destruct d as [|tok d1]; [discriminate|]. cbn in H.
  destruct tok.
  - bind_case H.
    destruct (TypeByElementName typ !! Local (SName el0)) as [nextElem|]; [|discriminate].
    bind_case H. destr_pairs. bind_case H.
    eapply IH; [exact Hc | exact Hne | | exact H].
    eapply installChild_inv; [exact Hc | exact Hne | | exact E1].
    eapply initIfNil_inv; eauto.
  - bind_case H. injection H as -> <-.
    eapply finishElement_inv; eauto.
  - bind_case H. eapply IH; [exact Hc | exact Hne | | exact H].
    eapply charData_inv; eauto.
  - eapply IH; eauto.
  - eapply IH; eauto.
  - eapply IH; eauto.
Qed.

Lemma processElement_hint_first fuel d el typ ms d' :
  noHintClash typ -> JsonType typ <> "" ->
  processElement fuel d el (Some typ) = Ok (VObject ms, d') ->
  ms !! 0%nat = Some ("__type", VString (JsonType typ)).
Proof.
  intros Hc Hne H. destruct fuel as [|fuel]; [discriminate|]. cbn in H.
  bind_case H. eapply elementLoop_inv; [exact Hc | exact Hne | | exact H].
  destruct (length (SAttr el) =? 0)%nat.
  - injection E as <-. apply frameInv_empty.
  - eapply initRetObject_inv; eauto.
Qed.

Lemma processElement_leaf fuel : forall d el leaf v d',
  IsSimple leaf = true -> TextAttr leaf = "" ->
  processElement fuel d el (Some leaf) = Ok (v, d') ->
  forall ms, v <> VObject ms.
Proof.
  set (leafInv := fun fr : frame =>
         f_obj fr = None /\ f_ret fr <> RObj /\ forall ms, f_ret fr <> RVal (VObject ms)).
  assert (Hempty : leafInv emptyFrame).
  { split; [reflexivity | split; [discriminate | intros ms; discriminate]]. }
  assert (Hloop : forall fuel d el leaf fr v d',
             IsSimple leaf = true -> TextAttr leaf = "" -> leafInv fr ->
             elementLoop fuel d el leaf fr = Ok (v, d') -> forall ms, v <> VObject ms).
  { clear fuel. induction fuel as [|fuel IH]; intros d el leaf fr v d' Hs Ht Hfr H;
      [discriminate|].
    assert (Hinit : forall simple fr1, initIfNil el leaf simple fr = Ok fr1 -> leafInv fr1).
    { intros simple fr1 H1. unfold initIfNil in H1.
      rewrite initRetObject_leaf in H1 by assumption.
      destruct (f_ret fr); injection H1 as <-; assumption. }
    cbn in H. destruct d as [|tok d1]; [discriminate|]. cbn in H.
    destruct tok; try (eapply IH; eauto; fail).
    - bind_case H.
      destruct (TypeByElementName leaf !! Local (SName el0)) as [nextElem|]; [|discriminate].
      bind_case H. destr_pairs. bind_case H.
      eapply IH; [exact Hs | exact Ht | | exact H].
      destruct (Hinit _ _ E) as (Ho & Hr1 & Hr2).
      unfold installChild in E1. rewrite Ho in E1. cbn in E1.
      destruct (negb (String.eqb (JsonListName leaf) "")); [discriminate|].
      destruct (IsList leaf).
      + injection E1 as <-.
        split; [reflexivity | split; [discriminate | intros ms; discriminate]].
      + destruct (xeIsList nextElem); [discriminate|].
        bind_case E1.
    - bind_case H. injection H as -> <-. destruct Hfr as (Ho & Hr1 & Hr2).
      unfold finishElement in E. destruct (f_ret fr) eqn:Er.
      + injection E as <-. intros ms; discriminate.
      + congruence.
      + injection E as <-. intros ms ->. now apply (Hr2 ms).
    - bind_case H. eapply IH; [exact Hs | exact Ht | | exact H].
      unfold charData in E.
      destruct (String.length (Trim s trimCutset) =? 0)%nat; [now injection E as <-|].
      bind_case E. destruct (Hinit _ _ E0) as (Ho & Hr1 & Hr2).
      rewrite Ht in E. cbn in E. injection E as <-.
      split; [exact Ho | split; [discriminate|]].
      intros ms Hms. injection Hms as Hms. now apply convertSimpleToJson_scalar in Hms. }
  intros d el leaf v d' Hs Ht H. destruct fuel as [|fuel]; [discriminate|]. cbn in H.
  bind_case H. eapply Hloop; [exact Hs | exact Ht | | exact H].
  destruct (length (SAttr el) =? 0)%nat.
  - now injection E as <-.
  - rewrite initRetObject_leaf in E by assumption. now injection E as <-.
Qed.

Lemma setTypeHint_first obj jsonType :
  setTypeHint obj jsonType !! 0%nat = Some ("__type", VString jsonType).
Proof.
  unfold setTypeHint. destruct obj as [|[k v] rest]; [reflexivity|]. cbn.
  destruct (String.eqb k "__type") eqn:E; [|reflexivity].
  apply String.eqb_eq in E. now subst k.
Qed.

Lemma processSoapElement_hint fuel d el typ jsonType ms d' :
  jsonType <> "" ->
  processSoapElement fuel d el typ jsonType = Ok (Some ms, d') ->
  exists obj,
    processElement fuel d el typ = Ok (VObject obj, d')
    /\ ms = setTypeHint obj jsonType
    /\ ms !! 0%nat = Some ("__type", VString jsonType).
Proof.
  intros Hne H. unfold processSoapElement in H.
  bind_case H. destr_pairs. destruct v; try discriminate.
  apply String.eqb_neq in Hne. rewrite Hne in H. cbn in H.
  injection H as <- <-. exists ms0. split; [reflexivity | split; [reflexivity|]].
  apply setTypeHint_first.
Qed.


(* ------------------------------------------------------------------ *)
(** ** The decoder only moves forward *)
(* ------------------------------------------------------------------ *)

(** [d'] is what is left of [d] after at least one token was read. *)
Definition consumed (d d' : list Token) : Prop :=
  d' `suffix_of` d /\ (length d' < length d)%nat.

Lemma consumed_cons tok (d : list Token) : consumed (tok :: d) d.
Proof. split; [apply suffix_cons_r; reflexivity | cbn; lia]. Qed.

Lemma consumed_trans (d1 d2 d3 : list Token) :
  consumed d1 d2 -> consumed d2 d3 -> consumed d1 d3.
Proof. intros [S1 L1] [S2 L2]. split; [etrans; eauto | lia]. Qed.

Lemma consumed_elem (d d' : list Token) tok : consumed d d' -> tok ∈ d' -> tok ∈ d.
Proof. intros [[k ->] _] Hin. apply elem_of_app. now right. Qed.

Lemma getNextElement_consumed x wantStart tok x' :
  getNextElement x wantStart = Ok (tok, x') ->
  consumed x x'
  /\ tok ∈ x
  /\ (if wantStart then exists el, tok = TStartElement el
      else exists n, tok = TEndElement n).
Proof.
  induction x as [|t x IH]; intros H; cbn in H; [discriminate|].
  assert (Hskip : getNextElement x wantStart = Ok (tok, x') ->
                  consumed (t :: x) x' /\ tok ∈ t :: x
                  /\ (if wantStart then exists el, tok = TStartElement el
                      else exists n, tok = TEndElement n)).
  { intros H'. destruct (IH H') as (Hc & Hin & Hk).
    split; [eapply consumed_trans; [apply consumed_cons | exact Hc]|].
    split; [now right | exact Hk]. }
  destruct t; try (now apply Hskip).
  - destruct wantStart; [|discriminate]. injection H as <- <-.
    split; [apply consumed_cons | split; [left | now eexists]].
  - destruct wantStart; [discriminate|]. injection H as <- <-.
    split; [apply consumed_cons | split; [left | now eexists]].
Qed.

Lemma getNextStartElement_consumed x el x' :
  getNextStartElement x = Ok (el, x') -> consumed x x' /\ TStartElement el ∈ x.
Proof.
  intros H. unfold getNextStartElement in H. bind_case H. destr_pairs.
  destruct (getNextElement_consumed _ _ _ _ E) as (Hc & Hin & _).
  destruct t; try discriminate. injection H as <- <-. now split.
Qed.

Lemma translate_consumed fuel :
  (forall d el typ v d',
      processElement fuel d el typ = Ok (v, d') -> consumed d d')
  /\ (forall d el typ fr v d',
        elementLoop fuel d el typ fr = Ok (v, d') -> consumed d d').
Proof.
  induction fuel as [|fuel [IHp IHl]]; [split; intros; discriminate|].
  split.
  - intros d el typ v d' H. cbn in H. destruct typ as [typ|]; [|discriminate].
    bind_case H. eapply IHl; eauto.
  - intros d el typ fr v d' H. cbn in H.
    destruct d as [|tok d1]; [discriminate|]. cbn in H.
    assert (Hskip : forall fr1, elementLoop fuel d1 el typ fr1 = Ok (v, d') ->
                                consumed (tok :: d1) d').
    { intros fr1 H1. eapply consumed_trans; [apply consumed_cons | eapply IHl; eauto]. }
    destruct tok; try (eapply Hskip; exact H).
    + bind_case H.
      destruct (TypeByElementName typ !! Local (SName el0)) as [nextElem|]; [|discriminate].
      bind_case H. destr_pairs. bind_case H.
      eapply consumed_trans; [apply consumed_cons|].
      eapply consumed_trans; [eapply IHp; eauto | eapply IHl; eauto].
    + bind_case H. injection H as _ <-. apply consumed_cons.
    + bind_case H. eapply Hskip; exact H.
Qed.

Lemma processElement_consumed fuel d el typ v d' :
  processElement fuel d el typ = Ok (v, d') -> consumed d d'.
Proof. apply translate_consumed. Qed.

Lemma processSoapElement_consumed fuel d el typ jsonType o d' :
  processSoapElement fuel d el typ jsonType = Ok (o, d') -> consumed d d'.
Proof.
  intros H. unfold processSoapElement in H. bind_case H. destr_pairs.
  apply processElement_consumed in E.
  destruct v; try discriminate; injection H as _ <-; exact E.
Qed.

Lemma customHeader_eq :
  customHeader = Ok [("__type", VString "JsonRequestHeaders:#Exchange");
                     ("RequestServerVersion", VString "Exchange2013")].
Proof.
  unfold customHeader. rewrite Set_new. cbn [mbind outcome_bind].
  unfold Set_. cbn [keys Object].
  rewrite lookup_singleton_ne by discriminate. reflexivity.
Qed.

Lemma soapHeader_consumed fuel d el h d' :
  soapHeader fuel d el = Ok (h, d') -> consumed d d'.
Proof.
  intros H. unfold soapHeader in H.
  destruct (deref EwsSoapRequestHeader) as [ht|]; [|discriminate].
  bind_case H. destr_pairs. apply processSoapElement_consumed in E.
  destruct o.
  - now injection H as _ <-.
  - rewrite customHeader_eq in H. cbn in H. now injection H as _ <-.
Qed.

Lemma soapBody_consumed fuel d op b d' :
  soapBody fuel d = Ok (op, b, d') -> consumed d d'.
Proof.
  intros H. unfold soapBody in H. bind_case H. destr_pairs.
  apply getNextStartElement_consumed in E as [E _].
  destruct (EwsOperations !! Local (SName s)) as [op'|]; [|discriminate].
  bind_case H. destr_pairs. apply processSoapElement_consumed in E0.
  bind_case H. destr_pairs. apply getNextElement_consumed in E1 as [E1 _].
  injection H as _ _ <-.
  eapply consumed_trans; [exact E|]. eapply consumed_trans; eauto.
Qed.

(* ------------------------------------------------------------------ *)
(** ** The fuel of the entry points is enough *)
(* ------------------------------------------------------------------ *)

Lemma bind_noFuel {A B} (m : outcome A) (k : A -> outcome B) :
  m <> OutOfFuel -> (forall a, m = Ok a -> k a <> OutOfFuel) -> (m ≫= k) <> OutOfFuel.
Proof. destruct m; cbn; intros H1 H2; auto; discriminate. Qed.

Create HintDb nofuel.

Ltac no_fuel :=
  repeat first
    [ progress intros
    | discriminate
    | solve [auto with nofuel]
    | apply bind_noFuel
    | match goal with
      | |- (let '(_, _) := ?p in _) <> _ => destruct p
      | |- withObj ?o _ <> _ => destruct o; cbn [withObj]
      | |- (match ?x with _ => _ end) <> _ => destruct x eqn:?
      | |- (if ?x then _ else _) <> _ => destruct x eqn:?
      end ].

Lemma Set_noFuel o k v : Set_ o k v <> OutOfFuel.
Proof. unfold Set_. no_fuel. Qed.

Lemma Get_noFuel o k : Get o k <> OutOfFuel.
Proof. unfold Get. no_fuel. Qed.

#[local] Hint Resolve Set_noFuel Get_noFuel : nofuel.

Lemma setAttrs_noFuel typ attrs : forall o, setAttrs typ attrs o <> OutOfFuel.
Proof. induction attrs as [|attr attrs IH]; intros o; cbn; no_fuel. Qed.

#[local] Hint Resolve setAttrs_noFuel : nofuel.

Lemma initRetObject_noFuel el typ simple : initRetObject el typ simple <> OutOfFuel.
Proof. unfold initRetObject, newTypedObject. no_fuel. Qed.

#[local] Hint Resolve initRetObject_noFuel : nofuel.

Lemma initIfNil_noFuel el typ simple fr : initIfNil el typ simple fr <> OutOfFuel.
Proof. unfold initIfNil. no_fuel. Qed.

Lemma installChild_noFuel typ nextElem newItem fr :
  installChild typ nextElem newItem fr <> OutOfFuel.
Proof. unfold installChild. no_fuel. Qed.

Lemma insertDefaults_noFuel defaults : forall o, insertDefaults defaults o <> OutOfFuel.
Proof. induction defaults as [|e rest IH]; intros o; cbn; no_fuel. Qed.

Lemma applyJsonHook_noFuel h t o : applyJsonHook h t o <> OutOfFuel.
Proof. unfold applyJsonHook. no_fuel. Qed.

#[local] Hint Resolve initIfNil_noFuel installChild_noFuel insertDefaults_noFuel
  applyJsonHook_noFuel : nofuel.

Lemma finishElement_noFuel typ fr : finishElement typ fr <> OutOfFuel.
Proof. unfold finishElement. no_fuel. Qed.

Lemma charData_noFuel el typ s fr : charData el typ s fr <> OutOfFuel.
Proof. unfold charData. no_fuel. Qed.

#[local] Hint Resolve finishElement_noFuel charData_noFuel : nofuel.

Lemma getNextElement_noFuel x wantStart : getNextElement x wantStart <> OutOfFuel.
Proof. induction x as [|t x IH]; cbn; no_fuel. Qed.

#[local] Hint Resolve getNextElement_noFuel : nofuel.

Lemma getNextStartElement_noFuel x : getNextStartElement x <> OutOfFuel.
Proof. unfold getNextStartElement. no_fuel. Qed.

#[local] Hint Resolve getNextStartElement_noFuel : nofuel.

Lemma translate_noFuel fuel :
  (forall d el typ,
      (2 * length d + 2 <= fuel)%nat -> processElement fuel d el typ <> OutOfFuel)
  /\ (forall d el typ fr,
        (2 * length d + 1 <= fuel)%nat -> elementLoop fuel d el typ fr <> OutOfFuel).
Proof.
  induction fuel as [|fuel [IHp IHl]]; [split; intros; lia|].
  split.
  - intros d el typ Hf. cbn. destruct typ as [typ|]; [|discriminate].
    apply bind_noFuel; [no_fuel|]. intros fr _. apply IHl. lia.
  - intros d el typ fr Hf. cbn. destruct d as [|tok d1]; [discriminate|].
    cbn in Hf. cbn [nextToken mbind outcome_bind].
    destruct tok; try (apply IHl; lia).
    + apply bind_noFuel; [no_fuel|]. intros fr1 _.
      destruct (TypeByElementName typ !! Local (SName el0)) as [nextElem|]; [|discriminate].
      apply bind_noFuel; [apply IHp; lia|]. intros [newItem d2] Hchild.
      apply processElement_consumed in Hchild as [_ Hlen].
      apply bind_noFuel; [no_fuel|]. intros fr2 _. apply IHl. lia.
    + no_fuel.
    + apply bind_noFuel; [no_fuel|]. intros fr1 _. apply IHl. lia.
Qed.

Lemma processSoapElement_noFuel fuel d el typ jsonType :
  (2 * length d + 2 <= fuel)%nat ->
  processSoapElement fuel d el typ jsonType <> OutOfFuel.
Proof.
  intros Hf. unfold processSoapElement.
  apply bind_noFuel; [now apply translate_noFuel|]. no_fuel.
Qed.

Lemma soapHeader_noFuel fuel d el :
  (2 * length d + 2 <= fuel)%nat -> soapHeader fuel d el <> OutOfFuel.
Proof.
  intros Hf. unfold soapHeader.
  destruct (deref EwsSoapRequestHeader) as [ht|]; [|discriminate].
  apply bind_noFuel; [now apply processSoapElement_noFuel|].
  intros [[h|] d'] _; [discriminate|]. rewrite customHeader_eq. discriminate.
Qed.

Lemma soapBody_noFuel fuel d :
  (2 * length d + 2 <= fuel)%nat -> soapBody fuel d <> OutOfFuel.
Proof.
  intros Hf. unfold soapBody.
  apply bind_noFuel; [no_fuel|]. intros [el d1] H1.
  apply getNextStartElement_consumed in H1 as [[_ Hlen] _].
  destruct (EwsOperations !! Local (SName el)) as [op|]; [|discriminate].
  apply bind_noFuel; [apply processSoapElement_noFuel; lia|]. no_fuel.
Qed.

Lemma soapLoop_noFuel n fuel : forall d st,
  (length d < n)%nat -> (2 * length d + 2 <= fuel)%nat ->
  soapLoop n fuel d st <> OutOfFuel.
Proof.
  induction n as [|n IH]; intros d st Hn Hf; [lia|]. cbn.
  destruct (negb (gotHeader st) || negb (gotBody st)); [|discriminate].
  apply bind_noFuel; [no_fuel|]. intros [el d1] H1.
  apply getNextStartElement_consumed in H1 as [[_ Hlen] _].
  destruct (String.eqb (Local (SName el)) "Header").
  { destruct (gotHeader st); [discriminate|].
    apply bind_noFuel; [apply soapHeader_noFuel; lia|]. intros [h d2] H2.
    apply soapHeader_consumed in H2 as [_ Hlen2]. apply IH; lia. }
  destruct (String.eqb (Local (SName el)) "Body").
  { destruct (gotBody st); [discriminate|].
    apply bind_noFuel; [apply soapBody_noFuel; lia|]. intros [[op b] d2] H2.
    apply soapBody_consumed in H2 as [_ Hlen2]. apply IH; lia. }
  apply IH; lia.
Qed.

(** [SOAP2JSON] always comes to an end: a message, an error or a panic. *)
Lemma SOAP2JSON_noFuel r : SOAP2JSON r <> OutOfFuel.
Proof.
  unfold SOAP2JSON.
  apply bind_noFuel; [no_fuel|]. intros [el d] H1.
  apply getNextStartElement_consumed in H1 as [[_ Hlen] _].
  destruct (negb (String.eqb (Local (SName el)) "Envelope")); [discriminate|].
  apply bind_noFuel; [apply soapLoop_noFuel; lia|]. intros [st d1] _.
  no_fuel.
Qed.

(* ------------------------------------------------------------------ *)
(** ** The shape of the message [SOAP2JSON] returns *)
(* ------------------------------------------------------------------ *)

(** [h] is what [case "Header":] made of a [Header] element of [r]. *)
Definition headerFrom (r : list Token) (h : list Member) : Prop :=
  exists fuel d el d',
    TStartElement el ∈ r /\ Local (SName el) = "Header"
    /\ soapHeader fuel d el = Ok (h, d').

(** [op] and [b] are what [case "Body":] made of a [Body] element. *)
Definition bodyFrom (op : OpDescriptor) (b : option (list Member)) : Prop :=
  exists fuel d d', soapBody fuel d = Ok (op, b, d').

Definition soapInv (r : list Token) (st : soapState) : Prop :=
  (gotHeader st = true -> exists h, st_header st = Some h /\ headerFrom r h)
  /\ (gotBody st = true ->
      exists op, st_op st = Some op /\ st_msgType st = RequestType op
                 /\ bodyFrom op (st_body st)).

Lemma soapLoop_inv r n fuel : forall d st st' d',
  (forall t, t ∈ d -> t ∈ r) -> soapInv r st ->
  soapLoop n fuel d st = Ok (st', d') ->
  soapInv r st' /\ gotHeader st' = true /\ gotBody st' = true.
Proof.
  induction n as [|n IH]; intros d st st' d' Hsub Hinv H; cbn in H.
  - destruct (negb (gotHeader st) || negb (gotBody st)) eqn:Eg; [discriminate|].
    injection H as <- <-. apply orb_false_elim in Eg as [E1 E2].
    apply negb_false_iff in E1, E2. now split.
  - destruct (negb (gotHeader st) || negb (gotBody st)) eqn:Eg.
    2:{ injection H as <- <-. apply orb_false_elim in Eg as [E1 E2].
        apply negb_false_iff in E1, E2. now split. }
    bind_case H. destr_pairs.
    apply getNextStartElement_consumed in E as [Hc Hin].
    assert (Hsub1 : forall t, t ∈ l -> t ∈ r).
    { intros t Ht. apply Hsub. eapply consumed_elem; eauto. }
    destruct (String.eqb (Local (SName s)) "Header") eqn:EH.
    { destruct (gotHeader st) eqn:Egh; [discriminate|].
      bind_case H. destr_pairs.
      eapply IH; [| |exact H].
      - intros t Ht. apply Hsub1. eapply consumed_elem; [|exact Ht].
        eapply soapHeader_consumed; eauto.
      - split; cbn.
        + intros _. eexists. split; [reflexivity|].
          apply String.eqb_eq in EH. do 4 eexists.
          split; [apply Hsub; exact Hin | split; [exact EH | eassumption]].
        + apply Hinv. }
    destruct (String.eqb (Local (SName s)) "Body") eqn:EB.
    { destruct (gotBody st) eqn:Egb; [discriminate|].
      bind_case H. destr_pairs.
      eapply IH; [| |exact H].
      - intros t Ht. apply Hsub1. eapply consumed_elem; [|exact Ht].
        eapply soapBody_consumed; eauto.
      - split; cbn.
        + apply Hinv.
        + intros _. eexists. split; [reflexivity | split; [reflexivity|]].
          do 3 eexists. eassumption. }
    eapply IH; eauto.
Qed.

Lemma SOAP2JSON_shape r msg op :
  SOAP2JSON r = Ok (msg, op) ->
  exists o h b,
    op = Some o
    /\ msg = [("__type", VString (RequestType o)); ("Header", VObject h);
              ("Body", objectValue b)]
    /\ headerFrom r h /\ bodyFrom o b.
Proof.
  intros H. unfold SOAP2JSON in H. bind_case' H. destr_pairs.
  apply getNextStartElement_consumed in E as [Hc _].
  destruct (negb (String.eqb (Local (SName s)) "Envelope")); [discriminate|].
  bind_case' H. destr_pairs. bind_case' H. destr_pairs. injection H as <- <-.
  eapply (soapLoop_inv r) in E as ((Hh & Hb) & Egh & Egb).
  - destruct (Hh Egh) as (h & Eh & Hfrom).
    destruct (Hb Egb) as (o & Eo & Em & Hbody).
    exists o, h, (st_body s0). rewrite Eh, Eo, Em. auto.
  - intros tok Htok. eapply consumed_elem; eauto.
  - split; intros; discriminate.
Qed.

(** The header of the message is the made-up one, or the fix-up of the
    object the [Header] element was translated to. *)
Lemma headerFrom_cases r h :
  headerFrom r h ->
  exists ht,
    deref EwsSoapRequestHeader = Some ht
    /\ (h = [("__type", VString "JsonRequestHeaders:#Exchange");
             ("RequestServerVersion", VString "Exchange2013")]
        \/ exists fuel d el d' built,
            processSoapElement fuel d el (Some ht) (JsonType ht) = Ok (Some built, d')
            /\ h = fixupHeader built).
Proof.
  intros (fuel & d & el & d' & _ & _ & H). unfold soapHeader in H.
  destruct (deref EwsSoapRequestHeader) as [ht|]; [|discriminate].
  exists ht. split; [reflexivity|].
  bind_case H. destr_pairs. destruct o as [built|].
  - injection H as <- <-. right. do 5 eexists. split; [eassumption | reflexivity].
  - rewrite customHeader_eq in H. cbn in H. injection H as <- <-. now left.
Qed.

(* ------------------------------------------------------------------ *)
(** ** The request header *)
(* ------------------------------------------------------------------ *)

(** The header [SOAP2JSON] makes up. *)
Definition synthesizedHeader : list Member :=
  [("__type", VString "JsonRequestHeaders:#Exchange");
   ("RequestServerVersion", VString "Exchange2013")].

Lemma fixupVersion_no_version v cur :
  (forall j w, v !! j <> Some ("Version", w)) -> fixupVersion v cur = cur.
Proof.
  induction v as [|[k w] rest IH]; intros Hno; cbn; [reflexivity|].
  destruct (String.eqb k "Version") eqn:E.
  - apply String.eqb_eq in E. subst k. exfalso. now apply (Hno 0%nat w).
  - apply IH. intros j w'. apply (Hno (S j) w').
Qed.

Lemma fixupVersion_unique v : forall j ver cur,
  v !! j = Some ("Version", VString ver) ->
  (forall j' w, v !! j' = Some ("Version", w) -> j' = j) ->
  fixupVersion v cur
  = VString (if HasPrefix ver "Exchange2007" || HasPrefix ver "Exchange2010"
             then "Exchange2013" else ver).
Proof.
  induction v as [|[k w] rest IH]; intros j ver cur Hj Huniq; [discriminate|].
  destruct j as [|j]; cbn in Hj.
  - injection Hj as -> ->. cbn.
    apply fixupVersion_no_version. intros j' w' Hj'.
    specialize (Huniq (S j') w' Hj'). discriminate.
  - cbn. destruct (String.eqb k "Version") eqn:E.
    + apply String.eqb_eq in E. subst k.
      specialize (Huniq 0%nat w eq_refl). discriminate.
    + eapply IH; [exact Hj|]. intros j' w' Hj'.
      specialize (Huniq (S j') w' Hj'). congruence.
Qed.

(** C7: in the header object built from the request, the member
    [RequestServerVersion] whose object holds the string [Version] is
    replaced by that string, rewritten to [Exchange2013] when it starts
    with [Exchange2007] or [Exchange2010] and left as it is otherwise; and
    the [Header] of the message [SOAP2JSON] returns is this fixed-up
    object (or the made-up header when the element translated to nil). *)
Theorem request_server_version_upgraded :
  (forall header i v j ver,
      header !! i = Some ("RequestServerVersion", VObject v) ->
      v !! j = Some ("Version", VString ver) ->
      (forall j' w, v !! j' = Some ("Version", w) -> j' = j) ->
      length (fixupHeader header) = length header
      /\ (HasPrefix ver "Exchange2007" = true \/ HasPrefix ver "Exchange2010" = true ->
          fixupHeader header !! i = Some ("RequestServerVersion", VString "Exchange2013"))
      /\ (HasPrefix ver "Exchange2007" = false -> HasPrefix ver "Exchange2010" = false ->
          fixupHeader header !! i = Some ("RequestServerVersion", VString ver)))
  /\ (forall r msg op,
        SOAP2JSON r = Ok (msg, op) ->
        exists h ht,
          msg !! 1%nat = Some ("Header", VObject h)
          /\ deref EwsSoapRequestHeader = Some ht
          /\ (h = synthesizedHeader
              \/ exists fuel d el d' built,
                  processSoapElement fuel d el (Some ht) (JsonType ht) = Ok (Some built, d')
                  /\ h = fixupHeader built)).
Proof.
  split.
  - intros header i v j ver Hi Hj Huniq.
    assert (Hfix : fixupHeader header !! i
                   = Some ("RequestServerVersion",
                           VString (if HasPrefix ver "Exchange2007"
                                       || HasPrefix ver "Exchange2010"
                                    then "Exchange2013" else ver))).
    { unfold fixupHeader. rewrite list_lookup_fmap, Hi. cbn.
      now rewrite (fixupVersion_unique v j ver). }
    split; [apply length_fmap | split].
    + intros Hp. rewrite Hfix.
      destruct Hp as [-> | ->]; [reflexivity | now rewrite orb_true_r].
    + intros H7 H10. now rewrite Hfix, H7, H10.
  - intros r msg op H.
    destruct (SOAP2JSON_shape _ _ _ H) as (o & h & b & -> & -> & Hh & _).
    destruct (headerFrom_cases _ _ Hh) as (ht & Hd & Hcases).
    exists h, ht. split; [reflexivity | split; [exact Hd | exact Hcases]].
Qed.

Lemma soapLoop_keeps_header n fuel : forall d st st' d',
  gotHeader st = true ->
  soapLoop n fuel d st = Ok (st', d') -> st_header st' = st_header st.
Proof.
  induction n as [|n IH]; intros d st st' d' Hg H; cbn in H.
  - destruct (negb (gotHeader st) || negb (gotBody st)); [discriminate|].
    now injection H as <- _.
  - destruct (negb (gotHeader st) || negb (gotBody st)); [|now injection H as <- _].
    bind_case H. destr_pairs.
    destruct (String.eqb (Local (SName s)) "Header"); [rewrite Hg in H; discriminate|].
    destruct (String.eqb (Local (SName s)) "Body").
    + destruct (gotBody st); [discriminate|]. bind_case H. destr_pairs.
      now apply IH in H.
    + now apply IH in H.
Qed.

Lemma soapLoop_header_step n fuel el d st :
  gotHeader st = false -> Local (SName el) = "Header" ->
  soapLoop (S n) fuel (TStartElement el :: d) st
  = '(h, d2) ← soapHeader fuel d el;
    soapLoop n fuel d2
      (mkSoapState (Some h) (st_body st) (st_msgType st) (st_op st) true (gotBody st)).
Proof.
  intros Hg Hl. cbn. now rewrite Hg, Hl.
Qed.

Lemma processSoapElement_empty fuel el n d typ jsonType :
  SAttr el = [] ->
  processSoapElement (S (S fuel)) (TEndElement n :: d) el (Some typ) jsonType = Ok (None, d).
Proof. intros Ha. unfold processSoapElement. cbn. now rewrite Ha. Qed.


(* ------------------------------------------------------------------ *)
(** ** The type hint in the message *)
(* ------------------------------------------------------------------ *)

Lemma fixupHeader_first built v :
  built !! 0%nat = Some ("__type", v) -> fixupHeader built !! 0%nat = Some ("__type", v).
Proof.
  intros H. unfold fixupHeader. now rewrite list_lookup_fmap, H.
Qed.

Lemma bodyFrom_hint op ms :
  bodyFrom op (Some ms) -> BodyType op <> "" ->
  ms !! 0%nat = Some ("__type", VString (BodyType op)).
Proof.
  intros (fuel & d & d' & H) Hbt. unfold soapBody in H.
  bind_case' H. destr_pairs.
  destruct (EwsOperations !! Local (SName s)) as [op'|]; [|discriminate].
  bind_case' H. destr_pairs. bind_case' H. destr_pairs. injection H as -> -> _.
  now destruct (processSoapElement_hint _ _ _ _ _ _ _ Hbt E0) as (_ & _ & _ & H0).
Qed.

(** C1: on a type with a nonempty JSON discriminator whose registry
    entry does not itself use the key [__type], every object that
    [processElement] returns starts with the member [__type] holding the
    discriminator; an element of a simple type without a text attribute
    never comes back as an object; and the object [processSoapElement]
    returns for a nonempty hint is the translated object with the hint
    prepended, or with the value of a first [__type] member replaced; so the
    [Body] object of the message [SOAP2JSON] returns starts with the body
    type of the operation, and its [Header] with a type hint as well. *)
Theorem type_hint_is_first_key (typ : EwsType) :
  JsonType typ <> "" -> noHintClash typ ->
  (forall fuel d el ms d',
      processElement fuel d el (Some typ) = Ok (VObject ms, d') ->
      ms !! 0%nat = Some ("__type", VString (JsonType typ)))
  /\ (forall leaf fuel d el v d',
        IsSimple leaf = true -> TextAttr leaf = "" ->
        processElement fuel d el (Some leaf) = Ok (v, d') ->
        forall ms, v <> VObject ms)
  /\ (forall fuel d el t jsonType ms d',
        jsonType <> "" ->
        processSoapElement fuel d el t jsonType = Ok (Some ms, d') ->
        ms !! 0%nat = Some ("__type", VString jsonType)
        /\ exists obj,
            processElement fuel d el t = Ok (VObject obj, d')
            /\ match obj with
               | [] => ms = [("__type", VString jsonType)]
               | (k, v) :: rest =>
                   (k = "__type" -> ms = ("__type", VString jsonType) :: rest)
                   /\ (k <> "__type" -> ms = ("__type", VString jsonType) :: obj)
               end)
  /\ (forall r msg op,
        SOAP2JSON r = Ok (msg, op) ->
        exists o ht h b,
          op = Some o /\ deref EwsSoapRequestHeader = Some ht
          /\ msg = [("__type", VString (RequestType o)); ("Header", VObject h);
                    ("Body", objectValue b)]
          /\ (JsonType ht <> "" ->
              h = synthesizedHeader
              \/ h !! 0%nat = Some ("__type", VString (JsonType ht)))
          /\ (forall ms,
                b = Some ms -> BodyType o <> "" ->
                ms !! 0%nat = Some ("__type", VString (BodyType o)))).
Proof.
  intros Hne Hc. refine (conj _ (conj _ (conj _ _))).
  - intros fuel d el ms d' H. eapply processElement_hint_first; eauto.
  - intros leaf fuel d el v d' Hs Ht H. eapply processElement_leaf; eauto.
  - intros fuel d el t jsonType ms d' Hj H.
    destruct (processSoapElement_hint _ _ _ _ _ _ _ Hj H) as (obj & Hobj & Hms & H0).
    split; [exact H0|]. exists obj. split; [exact Hobj|].
    subst ms. unfold setTypeHint. destruct obj as [|[k v] rest]; [reflexivity|]. cbn.
    destruct (String.eqb k "__type") eqn:E.
    + apply String.eqb_eq in E. subst k. split; [reflexivity | congruence].
    + apply String.eqb_neq in E. split; [congruence | reflexivity].
  - intros r msg op H.
    destruct (SOAP2JSON_shape _ _ _ H) as (o & h & b & -> & -> & Hh & Hb).
    destruct (headerFrom_cases _ _ Hh) as (ht & Hd & Hcases).
    exists o, ht, h, b. repeat (split; [reflexivity || assumption|]). split.
    + intros Hjt. destruct Hcases as [-> | (fuel & d & el & d' & built & Hbuilt & ->)].
      * now left.
      * right. apply fixupHeader_first.
        now destruct (processSoapElement_hint _ _ _ _ _ _ _ Hjt Hbuilt) as (_ & _ & _ & H0).
    + intros ms -> Hbt. now apply (bodyFrom_hint o ms).
Qed.

(* ------------------------------------------------------------------ *)
(** ** Envelopes with a section twice *)
(* ------------------------------------------------------------------ *)

Definition isMisc (tok : Token) : Prop :=
  match tok with
  | TStartElement _ | TEndElement _ => False
  | _ => True
  end.

(** [children ns cs]: the tokens [cs] are the content of an element whose
    child elements have, in this order, the local names [ns]; between the
    elements there may be character data, comments and the like. *)
Inductive children : list string -> list Token -> Prop :=
| children_nil : children [] []
| children_misc tok ns cs :
    isMisc tok -> children ns cs -> children ns (tok :: cs)
| children_elem el n inner c ns cs :
    children inner c -> children ns cs ->
    children (Local (SName el) :: ns) (TStartElement el :: c ++ TEndElement n :: cs).

Fixpoint countName (x : string) (l : list string) : nat :=
  match l with
  | [] => 0%nat
  | y :: l' => ((if String.eqb y x then 1 else 0) + countName x l')%nat
  end.

Lemma elementLoop_exact inner c :
  children inner c ->
  forall fuel el typ fr n rest v d',
    elementLoop fuel (c ++ TEndElement n :: rest) el typ fr = Ok (v, d') -> d' = rest.
Proof.
  induction 1 as [|tok ns cs Hm _ IH|el0 n0 inner c ns cs _ IHc _ IHcs];
    intros fuel el typ fr n rest v d' H;
    (destruct fuel as [|fuel]; [discriminate|]); cbn in H.
  - bind_case H. now injection H as _ <-.
  - destruct tok; try contradiction.
    + bind_case H. eapply IH; eauto.
    + eapply IH; eauto.
    + eapply IH; eauto.
    + eapply IH; eauto.
  - bind_case H.
    destruct (TypeByElementName typ !! Local (SName el0)) as [nextElem|]; [|discriminate].
    bind_case H. destr_pairs. bind_case H.
    rewrite <- app_assoc in E0. cbn in E0.
    destruct fuel as [|fuel]; [discriminate|]. cbn in E0.
    destruct (deref (xeType nextElem)) as [ctyp|]; [|discriminate].
    bind_case E0. apply IHc in E0. subst.
    eapply IHcs; eauto.
Qed.

Lemma processSoapElement_exact inner c fuel el typ jsonType n rest o d' :
  children inner c ->
  processSoapElement fuel (c ++ TEndElement n :: rest) el typ jsonType = Ok (o, d') ->
  d' = rest.
Proof.
  intros Hc H. unfold processSoapElement in H. bind_case' H. destr_pairs.
  destruct fuel as [|fuel]; [discriminate|]. cbn in E.
  destruct typ as [typ|]; [|discriminate]. bind_case E.
  eapply elementLoop_exact in E; [|exact Hc]. subst.
  destruct v; try discriminate; now injection H as _ <-.
Qed.

Lemma getNextElement_child ns cs e rest tok d :
  children ns cs ->
  getNextElement (cs ++ TEndElement e :: rest) true = Ok (tok, d) ->
  exists el n inner c ns' cs',
    ns = Local (SName el) :: ns' /\ tok = TStartElement el
    /\ children inner c /\ children ns' cs'
    /\ d = c ++ TEndElement n :: cs' ++ TEndElement e :: rest.
Proof.
  induction 1 as [|t ns cs Hm _ IH|el0 n0 inner c ns cs Hc _ Hcs _]; intros H; cbn in H.
  - discriminate.
  - destruct t; try contradiction; now apply IH.
  - injection H as <- <-. exists el0, n0, inner, c, ns, cs.
    repeat split; try assumption. now rewrite <- app_assoc.
Qed.

Lemma getNextElement_end ns cs e rest tok d :
  children ns cs ->
  getNextElement (cs ++ TEndElement e :: rest) false = Ok (tok, d) ->
  ns = [] /\ d = rest.
Proof.
  induction 1 as [|t ns cs Hm _ IH|el0 n0 inner c ns cs Hc _ Hcs _]; intros H; cbn in H.
  - now injection H as _ <-.
  - destruct t; try contradiction; now apply IH.
  - discriminate.
Qed.

Lemma soapHeader_exact inner c fuel el n rest h d' :
  children inner c ->
  soapHeader fuel (c ++ TEndElement n :: rest) el = Ok (h, d') -> d' = rest.
Proof.
  intros Hc H. unfold soapHeader in H.
  destruct (deref EwsSoapRequestHeader) as [ht|]; [|discriminate].
  bind_case' H. destr_pairs.
  eapply processSoapElement_exact in E; [|exact Hc]. subst.
  destruct o.
  - now injection H as _ <-.
  - rewrite customHeader_eq in H. cbn in H. now injection H as _ <-.
Qed.

Lemma soapBody_exact inner c fuel n rest op b d' :
  children inner c ->
  soapBody fuel (c ++ TEndElement n :: rest) = Ok (op, b, d') -> d' = rest.
Proof.
  intros Hc H. unfold soapBody, getNextStartElement in H.
  bind_case' H. destr_pairs. bind_case' E. destr_pairs.
  destruct (getNextElement_child _ _ _ _ _ _ Hc E0)
    as (el & n1 & inner1 & c1 & ns' & cs' & _ & -> & Hc1 & Hcs' & ->).
  injection E as <- <-.
  destruct (EwsOperations !! Local (SName el)) as [op'|]; [|discriminate].
  bind_case' H. destr_pairs.
  eapply processSoapElement_exact in E; [|exact Hc1]. subst.
  bind_case' H. destr_pairs.
  apply (getNextElement_end _ _ _ _ _ _ Hcs') in E as [_ ->].
  now injection H as _ _ <-.
Qed.

Definition flag (b : bool) : nat := if b then 1%nat else 0%nat.

Lemma soapLoop_children n fuel : forall ns cs e rest st st' d',
  children ns cs ->
  Forall (fun x => x = "Header" \/ x = "Body") ns ->
  soapLoop n fuel (cs ++ TEndElement e :: rest) st = Ok (st', d') ->
  exists ns1 ns2 cs2,
    ns = ns1 ++ ns2 /\ children ns2 cs2 /\ d' = cs2 ++ TEndElement e :: rest
    /\ (countName "Header" ns1 + flag (gotHeader st) <= 1)%nat
    /\ (countName "Body" ns1 + flag (gotBody st) <= 1)%nat.
Proof.
  assert (Hdone : forall ns cs e rest st,
             children ns cs -> negb (gotHeader st) || negb (gotBody st) = false ->
             exists ns1 ns2 cs2,
               ns = ns1 ++ ns2 /\ children ns2 cs2
               /\ cs ++ TEndElement e :: rest = cs2 ++ TEndElement e :: rest
               /\ (countName "Header" ns1 + flag (gotHeader st) <= 1)%nat
               /\ (countName "Body" ns1 + flag (gotBody st) <= 1)%nat).
  { intros ns cs e rest st Hc Eg. apply orb_false_elim in Eg as [E1 E2].
    apply negb_false_iff in E1, E2.
    exists [], ns, cs.
    split; [reflexivity | split; [exact Hc | split; [reflexivity|]]].
    destruct (gotHeader st), (gotBody st); try discriminate. cbn. lia. }
  induction n as [|n IH]; intros ns cs e rest st st' d' Hc Hall H; cbn in H.
  - destruct (negb (gotHeader st) || negb (gotBody st)) eqn:Eg; [discriminate|].
    injection H as <- <-. now apply Hdone.
  - destruct (negb (gotHeader st) || negb (gotBody st)) eqn:Eg;
      [|injection H as <- <-; now apply Hdone].
    unfold getNextStartElement in H. bind_case' H. destr_pairs. bind_case' E. destr_pairs.
    destruct (getNextElement_child _ _ _ _ _ _ Hc E0)
      as (el & n1 & inner & c & ns' & cs' & -> & -> & Hc1 & Hcs' & ->).
    injection E as <- <-.
    apply Forall_cons in Hall as [Hname Hall].
    destruct Hname as [Hname | Hname].
    + rewrite Hname in H. cbn [String.eqb Ascii.eqb Bool.eqb] in H.
      destruct (gotHeader st) eqn:Egh; [discriminate|].
      bind_case' H. destr_pairs.
      eapply soapHeader_exact in E; [|exact Hc1]. subst.
      destruct (IH _ _ _ _ _ _ _ Hcs' Hall H) as (ns1 & ns2 & cs2 & -> & Hc2 & -> & Hh & Hb).
      exists (Local (SName el) :: ns1), ns2, cs2. cbn in *. rewrite Hname. cbn.
      repeat split; try assumption; lia.
    + rewrite Hname in H. cbn [String.eqb Ascii.eqb Bool.eqb] in H.
      destruct (gotBody st) eqn:Egb; [discriminate|].
      bind_case' H. destr_pairs.
      eapply soapBody_exact in E; [|exact Hc1]. subst.
      destruct (IH _ _ _ _ _ _ _ Hcs' Hall H) as (ns1 & ns2 & cs2 & -> & Hc2 & -> & Hh & Hb).
      exists (Local (SName el) :: ns1), ns2, cs2. cbn in *. rewrite Hname. cbn.
      repeat split; try assumption; lia.
Qed.

Lemma countName_app x l1 l2 :
  countName x (l1 ++ l2) = (countName x l1 + countName x l2)%nat.
Proof. induction l1 as [|y l1 IH]; cbn; [reflexivity | rewrite IH; lia]. Qed.


(* ------------------------------------------------------------------ *)
(** ** Bit-field lists of an enum *)
(* ------------------------------------------------------------------ *)

Lemma land_bit_test (b k : Z) :
  0 <= k -> negb (Z.land b (Z.shiftl 1 k) =? 0) = Z.testbit b k.
Proof.
  intros Hk. rewrite Z.shiftl_1_l.
  destruct (Z.testbit b k) eqn:Eb.
  - apply negb_true_iff, Z.eqb_neq. intros H0.
    assert (Hbit : Z.testbit (Z.land b (2 ^ k)) k = true).
    { rewrite Z.land_spec, Eb, Z.pow2_bits_true by lia. reflexivity. }
    rewrite H0, Z.bits_0 in Hbit. discriminate.
  - apply negb_false_iff, Z.eqb_eq. apply Z.bits_inj'. intros j Hj.
    rewrite Z.land_spec, Z.bits_0, Z.pow2_bits_eqb by lia.
    destruct (Z.eqb_spec k j) as [->|_]; [now rewrite Eb | apply andb_false_r].
Qed.

(** The bit-field of [uint32(num)] answers [Test] with the bits of [num]
    for the 32 indices it has. *)
Lemma Test_NewFromUint32 (num i : Z) :
  0 <= i < 32 -> Test (NewFromUint32 (uint32 num)) (uint32 i) = Ok (Z.testbit num i).
Proof.
  intros Hi. unfold uint32 at 2. rewrite (Z.mod_small i) by lia.
  unfold Test, NewFromUint32.
  assert (Hq : 0 <= i / 8 < 4) by (split; [apply Z.div_pos; lia | apply Z.div_lt_upper_bound; lia]).
  assert (Hr : 0 <= i mod 8 < 8) by (apply Z.mod_pos_bound; lia).
  assert (Hbyte : forall s, s = 8 * (i / 8) ->
            negb (Z.land (Z.shiftr (uint32 num) s mod 256) (Z.shiftl 1 (i mod 8)) =? 0)
            = Z.testbit num i).
  { intros s ->. rewrite land_bit_test by lia.
    change 256 with (2 ^ 8). rewrite Z.mod_pow2_bits_low by lia.
    rewrite Z.shiftr_spec by lia.
    replace (i mod 8 + 8 * (i / 8)) with i by (rewrite (Z.div_mod i 8) at 1; lia).
    unfold uint32. now rewrite Z.mod_pow2_bits_low by lia. }
  assert (Hcases : i / 8 = 0 \/ i / 8 = 1 \/ i / 8 = 2 \/ i / 8 = 3) by lia.
  destruct Hcases as [Hc | [Hc | [Hc | Hc]]]; rewrite Hc; cbn [Z.to_nat Pos.to_nat Pos.iter_op lookup list_lookup Nat.add];
    f_equal.
  - rewrite <- (Hbyte 0) by lia. now rewrite Z.shiftr_0_r.
  - apply Hbyte. lia.
  - apply Hbyte. lia.
  - apply Hbyte. lia.
Qed.

(** The labels whose index is a set bit of [num], by ascending index. *)
Definition selectedLabels (labels : list string) (num : Z) : list string :=
  omap (fun i => labels !! i)
    (filter (fun i => Z.testbit num (Z.of_nat i) = true) (seq 0 (length labels))).

Lemma selectNames_spec num vals : forall pre names,
  (length pre + length vals <= 32)%nat ->
  selectNames (NewFromUint32 (uint32 num)) vals (Z.of_nat (length pre)) names
  = Ok (names ++ omap (fun i => (pre ++ vals) !! i)
                   (filter (fun i => Z.testbit num (Z.of_nat i) = true)
                      (seq (length pre) (length vals)))).
Proof.
  induction vals as [|v vals IH]; intros pre names Hlen; cbn [selectNames].
  - cbn. now rewrite app_nil_r.
  - cbn [length] in Hlen. rewrite Test_NewFromUint32 by lia.
    cbn [mbind outcome_bind].
    replace (Z.of_nat (length pre) + 1) with (Z.of_nat (length (pre ++ [v])))
      by (rewrite length_app; cbn; lia).
    rewrite IH by (rewrite length_app; cbn; lia).
    f_equal. cbn [length seq]. rewrite filter_cons.
    replace (length (pre ++ [v])) with (S (length pre)) by (rewrite length_app; cbn; lia).
    rewrite <- (app_assoc pre [v] vals). cbn [app].
    destruct (Z.testbit num (Z.of_nat (length pre))) eqn:Eb.
    + rewrite decide_True by reflexivity. cbn [omap list_omap].
      rewrite list_lookup_middle by reflexivity. now rewrite <- app_assoc.
    + rewrite decide_False by discriminate. reflexivity.
Qed.

(** C3: a declared child whose single type is a simple list of an enum
    with at most 32 labels, given a JSON value that reads as an integer,
    is written as one element whose character data is the labels at the
    set bits of the integer, by ascending index, joined by single
    spaces; the key is then consumed.  With the labels [None A B C] the
    value 6 gives [A B]. *)
Theorem enum_list_bits_to_labels
    (recur : Encoder -> value -> option EwsJsonElement -> outcome Encoder)
    (enc : Encoder) (element : gmap string value) (je : EwsJsonElement)
    (jt : EwsJsonType) (listTyp item : EwsType) (obj : value) (numStr : string) (num : Z) :
  element !! jeJsonName je = Some obj ->
  jeSingleType je = Some jt ->
  deref (jtType jt) = Some listTyp ->
  IsSimple listTyp = true -> SimpleType listTyp = T_LIST ->
  deref (ListItemType listTyp) = Some item ->
  IsSimple item = true -> SimpleType item = T_ENUM ->
  toString obj = Ok numStr -> Atoi numStr = Ok num ->
  (length (EnumValues item) <= 32)%nat ->
  Local (jtXmlTag jt) <> "" ->
  processChild recur je (enc, element)
  = Ok (wrote enc (jtXmlTag jt) (Join (selectedLabels (EnumValues item) num) " "),
        delete (jeJsonName je) element)
  /\ Join (selectedLabels ["None"; "A"; "B"; "C"] 6) " " = "A B".
Proof.
  intros Hobj Hst Hlist Hls Hlk Hitem His Hik Hstr Hnum Hlen Htag.
  split; [|reflexivity].
  unfold processChild. rewrite Hobj.
  unfold enumListChild. rewrite Hst, Hlist, Hls, Hlk, Hitem, His, Hik.
  cbn [andb Z.eqb T_LIST T_ENUM Pos.eqb mbind outcome_bind].
  unfold emitEnumList. rewrite Hstr. cbn [wrapErr mbind outcome_bind].
  rewrite Hnum. cbn [wrapErr mbind outcome_bind].
  pose proof (selectNames_spec num (EnumValues item) [] [] Hlen) as Hsel.
  cbn [length app] in Hsel. change (Z.of_nat 0) with 0 in Hsel. rewrite Hsel.
  cbn [mbind outcome_bind]. fold (selectedLabels (EnumValues item) num).
  unfold EmitStart, EmitEnd. rewrite EncodeToken_start by exact Htag.
  cbn [wrapErr mbind outcome_bind]. rewrite EncodeToken_chardata. cbn [tags out].
  rewrite EncodeToken_end by exact Htag.
  cbn [wrapErr]. unfold wrote. now rewrite <- !app_assoc.
Qed.

(* ------------------------------------------------------------------ *)
(** ** Enum scalars on the way to XML *)
(* ------------------------------------------------------------------ *)

(** C4 (what the code does): for a JSON number at a character-data
    element of enum type, an index inside the label list is written as the
    label at that index, and text that is no integer is returned as an
    error; an integer outside the label list is looked up without a range
    test, so the translation panics after the start tag has been written,
    where the specification asks for an error. *)
Theorem enum_index_in_range_label_else_panic
    (fuel : nat) (enc : Encoder) (edesc : EwsJsonElement) (st : EwsJsonType)
    (typ : EwsType) (lit : string) :
  jeTypes edesc = None -> jeSingleType edesc = Some st ->
  deref (jtType st) = Some typ ->
  IsSimple typ = true -> TextAttr typ = "" -> SimpleType typ = T_ENUM ->
  Local (jtXmlTag st) <> "" ->
  (forall num label,
      Atoi lit = Ok num -> 0 <= num ->
      EnumValues typ !! Z.to_nat num = Some label ->
      processJson (S fuel) enc (VNumber lit) (Some edesc)
      = Ok (wrote enc (jtXmlTag st) label))
  /\ (forall num,
        Atoi lit = Ok num ->
        num < 0 \/ Z.of_nat (length (EnumValues typ)) <= num ->
        processJson (S fuel) enc (VNumber lit) (Some edesc) = Panic)
  /\ (forall e,
        Atoi lit = Err e ->
        processJson (S fuel) enc (VNumber lit) (Some edesc)
        = Err (Wrap e ("Unable to convert " +:+ lit +:+ " to an integer"))).
Proof.
  intros HT HS Hd Hsimple Htext Hk Htag.
  assert (Hhead : processJson (S fuel) enc (VNumber lit) (Some edesc)
                  = text' ← (num ← wrapErr (Atoi lit)
                                      ("Unable to convert " +:+ lit +:+ " to an integer");
                             if num <? 0 then Panic
                             else match EnumValues typ !! Z.to_nat num with
                                  | Some label => Ok label
                                  | None => Panic
                                  end);
                    Ok (wrote enc (jtXmlTag st) text')).
  { cbn [processJson]. unfold processJsonScalar, IsCharData.
    rewrite HT, HS, Hd, Hsimple, Htext.
    cbn [andb String.eqb mbind outcome_bind negb option_bind].
    unfold EmitStart, EmitEnd. rewrite EncodeToken_start by exact Htag.
    cbn [wrapErr mbind outcome_bind toString option_bind]. rewrite Hd, Hsimple, Hk.
    cbn [andb Z.eqb T_ENUM Pos.eqb].
    destruct (wrapErr (Atoi lit) _ ≫= _) as [label | | |]; cbn [mbind outcome_bind];
      try reflexivity.
    unfold processJsonChardata. cbn [toString mbind outcome_bind].
    rewrite EncodeToken_chardata. cbn [wrapErr mbind outcome_bind tags out].
    rewrite EncodeToken_end by exact Htag.
    cbn [wrapErr]. unfold wrote. now rewrite <- !app_assoc. }
  refine (conj _ (conj _ _)).
  - intros num label Hnum Hpos Hlabel. rewrite Hhead, Hnum.
    cbn [wrapErr mbind outcome_bind].
    destruct (Z.ltb_spec num 0); [lia|]. now rewrite Hlabel.
  - intros num Hnum Hout. rewrite Hhead, Hnum. cbn [wrapErr mbind outcome_bind].
    destruct (Z.ltb_spec num 0); [reflexivity|].
    rewrite lookup_ge_None_2 by lia. reflexivity.
  - intros e He. rewrite Hhead, He. reflexivity.
Qed.

(* ------------------------------------------------------------------ *)
(** ** Strictness: keys nobody consumed *)
(* ------------------------------------------------------------------ *)

(** The keys the body of [processJsonObject] looks for. *)
Definition bodyKeys (typ : EwsType) : list string :=
  if IsSimple typ && negb (String.eqb (TextAttr typ) "") then [TextAttr typ]
  else if negb (String.eqb (JsonListName typ) "") then [JsonListName typ]
  else jeJsonName <$> JsonElementList typ.

(** The keys [processJsonObject] may consume on an object of [typ]: the
    type hint, the declared attributes, the keys of the body, and the
    extras to drop. *)
Definition consumedKeys (typ : EwsType) : list string :=
  "__type" :: (JN <$> Attributes typ) ++ bodyKeys typ ++ JsonExtra typ.

(** [m'] is [m] without the keys [ks]. *)
Definition without (ks : list string) (m m' : gmap string value) : Prop :=
  forall k, m' !! k = if bool_decide (k ∈ ks) then None else m !! k.

Lemma without_nil m : without [] m m.
Proof. intros k. rewrite bool_decide_eq_false_2 by apply not_elem_of_nil. reflexivity. Qed.

Lemma without_delete_cons a ks (m m' : gmap string value) :
  without ks (delete a m) m' -> without (a :: ks) m m'.
Proof.
  intros H k. rewrite (H k). destruct (decide (k = a)) as [->|Hne].
  - rewrite lookup_delete_eq. rewrite (bool_decide_eq_true_2 (a ∈ a :: ks)) by left.
    now destruct (bool_decide (a ∈ ks)).
  - rewrite lookup_delete_ne by congruence.
    destruct (bool_decide (k ∈ ks)) eqn:E.
    + apply bool_decide_eq_true_1 in E.
      now rewrite bool_decide_eq_true_2 by (now right).
    + apply bool_decide_eq_false_1 in E.
      rewrite bool_decide_eq_false_2; [reflexivity|].
      intros Hin. apply elem_of_cons in Hin as [?|?]; congruence.
Qed.

Lemma without_absent_cons a ks (m m' : gmap string value) :
  m !! a = None -> without ks m m' -> without (a :: ks) m m'.
Proof.
  intros Ha H. apply without_delete_cons. now rewrite delete_id.
Qed.

Lemma without_app ks1 ks2 (m1 m2 m3 : gmap string value) :
  without ks1 m1 m2 -> without ks2 m2 m3 -> without (ks1 ++ ks2) m1 m3.
Proof.
  intros H1 H2 k. rewrite (H2 k), (H1 k).
  destruct (bool_decide (k ∈ ks1)) eqn:E1, (bool_decide (k ∈ ks2)) eqn:E2;
    try apply bool_decide_eq_true_1 in E1; try apply bool_decide_eq_true_1 in E2;
    try apply bool_decide_eq_false_1 in E1; try apply bool_decide_eq_false_1 in E2.
  - rewrite bool_decide_eq_true_2; [reflexivity | apply elem_of_app; auto].
  - rewrite bool_decide_eq_true_2; [reflexivity | apply elem_of_app; auto].
  - rewrite bool_decide_eq_true_2; [reflexivity | apply elem_of_app; auto].
  - rewrite bool_decide_eq_false_2; [reflexivity|].
    intros Hin. apply elem_of_app in Hin as [?|?]; contradiction.
Qed.

Lemma collectAttrs_without decl : forall element attrs attrs' element',
  collectAttrs decl element attrs = Ok (attrs', element') ->
  without (JN <$> decl) element element'.
Proof.
  induction decl as [|attr rest IH]; intros element attrs attrs' element' H; cbn in H.
  - injection H as _ <-. apply without_nil.
  - destruct (element !! JN attr) as [o|] eqn:Eo.
    + bind_case H. cbn. apply without_delete_cons. eapply IH; eauto.
    + cbn. apply without_absent_cons; [exact Eo|]. eapply IH; eauto.
Qed.

Lemma processChildren_without recur jes : forall enc element enc' element',
  forM jes (enc, element) (processChild recur) = Ok (enc', element') ->
  without (jeJsonName <$> jes) element element'.
Proof.
  induction jes as [|je rest IH]; intros enc element enc' element' H; cbn in H.
  - injection H as _ <-. apply without_nil.
  - bind_case H. destr_pairs. unfold processChild in E.
    destruct (element !! jeJsonName je) as [obj|] eqn:Eo.
    + bind_case E. bind_case E. injection E as <- <-.
      cbn. apply without_delete_cons. eapply IH; eauto.
    + injection E as <- <-. cbn. apply without_absent_cons; [exact Eo|]. eapply IH; eauto.
Qed.

Lemma processBody_without recur enc element typ enc' element' :
  processBody recur enc element typ = Ok (enc', element') ->
  without (bodyKeys typ) element element'.
Proof.
  intros H. unfold processBody in H. unfold bodyKeys.
  destruct (IsSimple typ && negb (String.eqb (TextAttr typ) "")).
  - destruct (element !! TextAttr typ) as [o|] eqn:Eo.
    + bind_case H. injection H as _ <-. apply without_delete_cons, without_nil.
    + injection H as _ <-. apply without_absent_cons; [exact Eo | apply without_nil].
  - destruct (negb (String.eqb (JsonListName typ) "")).
    + destruct (element !! JsonListName typ) as [v|] eqn:Ev; [|discriminate].
      destruct v; try discriminate;
        (bind_case H; injection H as _ <-; apply without_delete_cons, without_nil).
    + eapply processChildren_without; eauto.
Qed.

Lemma dropExtras_without extras : forall element,
  without extras element (dropExtras extras element).
Proof.
  induction extras as [|a rest IH]; intros element; cbn.
  - apply without_nil.
  - apply without_delete_cons. apply IH.
Qed.

Lemma consumeObject_without recur enc element edesc jtyp typ enc' rest :
  consumeObject recur enc element edesc = Ok (jtyp, typ, enc', rest) ->
  without (consumedKeys typ) element rest.
Proof.
  intros H. unfold consumeObject in H. bind_case H.
  destruct (deref (jtType a)) as [t|]; [|discriminate].
  destruct (IsSimple t && String.eqb (TextAttr t) ""); [discriminate|].
  bind_case H. destr_pairs. bind_case H. bind_case H. destr_pairs.
  injection H as <- <- <- <-.
  unfold consumedKeys. apply without_delete_cons.
  eapply without_app; [eapply collectAttrs_without; eauto|].
  eapply without_app; [eapply processBody_without; eauto|].
  apply dropExtras_without.
Qed.

(** The outcome is not the strictness error of [processJsonObject]. *)
Definition notExtra {A} (m : outcome A) : Prop :=
  forall args, m <> Err (Errorf "extra elements in %s: %#v" args).

Lemma notExtra_bind {A B} (m : outcome A) (k : A -> outcome B) :
  notExtra m -> (forall a, notExtra (k a)) -> notExtra (m ≫= k).
Proof.
  intros Hm Hk args. destruct m as [a| e | |]; cbn; try discriminate.
  - apply Hk.
  - intros H. injection H as ->. now apply (Hm args).
Qed.

Lemma notExtra_wrapErr {A} (m : outcome A) msg : notExtra (wrapErr m msg).
Proof. intros args. destruct m; discriminate. Qed.

Create HintDb notextra.

Ltac not_extra :=
  repeat first
    [ progress intros
    | apply notExtra_wrapErr
    | solve [auto with notextra]
    | solve [unfold notExtra; intros; discriminate]
    | apply notExtra_bind
    | match goal with
      | |- notExtra (let '(_, _) := ?p in _) => destruct p
      | |- notExtra (match ?x with _ => _ end) => destruct x eqn:?
      | |- notExtra (if ?x then _ else _) => destruct x eqn:?
      end ].

Lemma EncodeToken_notExtra enc t : notExtra (EncodeToken enc t).
Proof. unfold EncodeToken. not_extra. Qed.

#[local] Hint Resolve EncodeToken_notExtra : notextra.

Lemma EmitStart_notExtra this enc attrs : notExtra (EmitStart this enc attrs).
Proof. unfold EmitStart. not_extra. Qed.

Lemma EmitEnd_notExtra this enc : notExtra (EmitEnd this enc).
Proof. unfold EmitEnd. not_extra. Qed.

Lemma IsCharData_notExtra e : notExtra (IsCharData e).
Proof. unfold IsCharData. not_extra. Qed.

Lemma resolveChoice_notExtra element edesc : notExtra (resolveChoice element edesc).
Proof. unfold resolveChoice, applyXmlChoiceHook. not_extra. Qed.

Lemma collectAttrs_notExtra decl : forall element attrs,
  notExtra (collectAttrs decl element attrs).
Proof. induction decl as [|a rest IH]; intros element attrs; cbn; not_extra. Qed.

Lemma enumListChild_notExtra je : notExtra (enumListChild je).
Proof. unfold enumListChild. not_extra. Qed.

Lemma Test_notExtra b i : notExtra (Test b i).
Proof. unfold Test. not_extra. Qed.

#[local] Hint Resolve EmitStart_notExtra EmitEnd_notExtra IsCharData_notExtra
  resolveChoice_notExtra collectAttrs_notExtra enumListChild_notExtra Test_notExtra
  : notextra.

Lemma selectNames_notExtra bits vals : forall index names,
  notExtra (selectNames bits vals index names).
Proof. induction vals as [|v rest IH]; intros index names; cbn; not_extra. Qed.

#[local] Hint Resolve selectNames_notExtra : notextra.

Lemma emitEnumList_notExtra enc obj je jt item : notExtra (emitEnumList enc obj je jt item).
Proof. unfold emitEnumList. not_extra. Qed.

#[local] Hint Resolve emitEnumList_notExtra : notextra.

Lemma processJsonScalar_notExtra enc el edesc : notExtra (processJsonScalar enc el edesc).
Proof. unfold processJsonScalar. not_extra. Qed.

Lemma processJson_notExtra fuel enc element edesc :
  notExtra (processJson fuel enc element edesc).
Proof.
  destruct fuel as [|fuel]; cbn; [not_extra|].
  destruct element; destruct edesc;
    first [apply processJsonScalar_notExtra | not_extra].
Qed.

Lemma forM_notExtra {A S} (f : A -> S -> outcome S) l :
  (forall x s, notExtra (f x s)) -> forall s, notExtra (forM l s f).
Proof. intros Hf. induction l as [|x l IH]; intros s; cbn; not_extra. Qed.

Lemma consumeObject_notExtra fuel enc element edesc :
  notExtra (consumeObject (processJson fuel) enc element edesc).
Proof.
  pose proof (processJson_notExtra fuel) as Hrec.
  unfold consumeObject. not_extra.
  unfold processBody. not_extra.
  apply forM_notExtra. intros je [enc1 el1]. unfold processChild. not_extra.
Qed.

(** C5: once [processJsonObject] has consumed the type hint, the
    declared attributes, the keys of the body (text key, list key, or
    declared children) and the droppable extras, the keys that are left
    are exactly the keys of the object outside that list; if there is one,
    the outcome is the error that carries the type name and the leftover
    object, which [processJson] hands up wrapped in the JSON name; with
    none left the object is closed with its end tag, and the strictness
    error occurs in no other way. *)
Theorem leftover_keys_fail_the_translation
    (fuel : nat) (enc : Encoder) (element : gmap string value) (edesc : EwsJsonElement) :
  (forall jtyp typ enc' rest,
      consumeObject (processJson fuel) enc element edesc = Ok (jtyp, typ, enc', rest) ->
      without (consumedKeys typ) element rest
      /\ (forall k v, element !! k = Some v -> k ∉ consumedKeys typ -> rest <> ∅)
      /\ (rest <> ∅ ->
          processJsonObject (processJson fuel) enc element edesc
          = Err (Errorf "extra elements in %s: %#v" [AStr (Name typ); AVal (VMap rest)])
          /\ processJson (S fuel) enc (VMap element) (Some edesc)
             = Err (Wrap (Errorf "extra elements in %s: %#v"
                            [AStr (Name typ); AVal (VMap rest)]) (jeJsonName edesc)))
      /\ (rest = ∅ ->
          processJsonObject (processJson fuel) enc element edesc = EmitEnd (Some jtyp) enc'))
  /\ (forall args,
        processJsonObject (processJson fuel) enc element edesc
        = Err (Errorf "extra elements in %s: %#v" args) ->
        exists jtyp typ enc' rest k v,
          consumeObject (processJson fuel) enc element edesc = Ok (jtyp, typ, enc', rest)
          /\ args = [AStr (Name typ); AVal (VMap rest)]
          /\ element !! k = Some v /\ rest !! k = Some v /\ k ∉ consumedKeys typ).
Proof.
  split.
  - intros jtyp typ enc' rest Hc.
    split; [eapply consumeObject_without; eauto|].
    split.
    { intros k v Hk Hnot Hempty.
      pose proof (consumeObject_without _ _ _ _ _ _ _ _ Hc k) as Hw.
      rewrite bool_decide_eq_false_2, Hk, Hempty, lookup_empty in Hw by exact Hnot.
      discriminate. }
    assert (Hobj : processJsonObject (processJson fuel) enc element edesc
                   = if negb (size rest =? 0)%nat
                     then Err (Errorf "extra elements in %s: %#v"
                                 [AStr (Name typ); AVal (VMap rest)])
                     else EmitEnd (Some jtyp) enc').
    { unfold processJsonObject. now rewrite Hc. }
    split.
    + intros Hne.
      assert (Hsize : (size rest =? 0)%nat = false).
      { apply Nat.eqb_neq. intros H0. now apply map_size_empty_iff in H0. }
      rewrite Hsize in Hobj. cbn [negb] in Hobj.
      split; [exact Hobj|]. cbn [processJson]. now rewrite Hobj.
    + intros ->. rewrite Hobj. now rewrite map_size_empty.
  - intros args H. unfold processJsonObject in H.
    destruct (consumeObject (processJson fuel) enc element edesc)
      as [[[[jtyp typ] enc'] rest] | e | |] eqn:Hc; cbn [mbind outcome_bind] in H;
      try discriminate.
    + destruct (negb (size rest =? 0)%nat) eqn:Hsize.
      * injection H as <-.
        apply negb_true_iff, Nat.eqb_neq in Hsize.
        assert (Hne : rest <> ∅) by (intros ->; now rewrite map_size_empty in Hsize).
        apply map_choose in Hne as (k & v & Hk).
        pose proof (consumeObject_without _ _ _ _ _ _ _ _ Hc k) as Hw.
        rewrite Hk in Hw.
        destruct (bool_decide (k ∈ consumedKeys typ)) eqn:Ein; [discriminate|].
        apply bool_decide_eq_false_1 in Ein.
        exists jtyp, typ, enc', rest, k, v. auto.
      * exfalso. now apply (EmitEnd_notExtra (Some jtyp) enc' args).
    + exfalso. apply (consumeObject_notExtra fuel enc element edesc args).
      injection H as ->. exact Hc.
Qed.

(* ------------------------------------------------------------------ *)
(** ** Type hints on the items of a response *)
(* ------------------------------------------------------------------ *)

(** [items'] is [items] with the hint set on every item, all of which are
    objects. *)
Definition stampedItems (hint : string) (items items' : list value) : Prop :=
  length items' = length items
  /\ forall i v', items' !! i = Some v' ->
       exists item, items !! i = Some (VMap item)
                    /\ v' = VMap (<["__type" := VString hint]> item).

(** The type declares a JSON key [Items]: as its list key or as the JSON
    name of a child. *)
Definition declaresItems (t : EwsType) : Prop :=
  JsonListName t = "Items" \/ "Items" ∈ (jeJsonName <$> JsonElementList t).

Lemma stampItems_spec hint items : forall items',
  stampItems hint items = Ok items' -> stampedItems hint items items'.
Proof.
  induction items as [|g rest IH]; intros items' H; cbn in H.
  - injection H as <-. split; [reflexivity | intros i v' Hi; destruct i; discriminate].
  - destruct g; try discriminate. bind_case H. injection H as <-.
    destruct (IH _ eq_refl) as [Hlen Hitems]. split; [cbn; now rewrite Hlen|].
    intros [|i] v' Hi; cbn in Hi.
    + injection Hi as <-. now exists m.
    + now apply Hitems.
Qed.

Lemma stampItems_objects hint items :
  Forall (fun v => exists item, v = VMap item) items ->
  exists items', stampItems hint items = Ok items'.
Proof.
  induction 1 as [|g rest [item ->] _ [items' IH]]; cbn.
  - now eexists.
  - rewrite IH. cbn. now eexists.
Qed.

Lemma stampItems_outcome hint items :
  (exists items', stampItems hint items = Ok items') \/ returnsError (stampItems hint items).
Proof.
  induction items as [|g rest IH]; cbn; [left; now eexists|].
  destruct g; try (right; now eexists).
  destruct IH as [[items' ->] | [e ->]]; cbn; [left | right]; now eexists.
Qed.

Lemma stampChild_outcome op c body :
  (exists body', stampChild op c body = Ok body') \/ returnsError (stampChild op c body).
Proof.
  unfold stampChild.
  destruct (body !! c) as [v|]; [|left; now eexists].
  destruct v; try (left; now eexists).
  destruct (m !! "Items") as [v|]; [|right; now eexists].
  destruct v; try (right; now eexists).
  destruct (stampItems_outcome (jeJsonName (Response op) +:+ "Message") l)
    as [[items' ->] | [e ->]]; cbn; [left | right]; now eexists.
Qed.

Lemma stampChild_other op c body body' c' :
  stampChild op c body = Ok body' -> c' <> c -> body' !! c' = body !! c'.
Proof.
  intros H Hne. unfold stampChild in H.
  destruct (body !! c) as [v|]; [|now injection H as <-].
  destruct v; try (now injection H as <-).
  destruct (m !! "Items") as [v|]; [|discriminate].
  destruct v; try discriminate. bind_case H. injection H as <-.
  now rewrite lookup_insert_ne by congruence.
Qed.

Lemma stampChild_skips op c body :
  (forall m, body !! c <> Some (VMap m)) -> stampChild op c body = Ok body.
Proof.
  intros Hno. unfold stampChild.
  destruct (body !! c) as [v|]; [|reflexivity].
  destruct v; try reflexivity. now destruct (Hno m).
Qed.

Lemma stampChild_object op c body body' m :
  body !! c = Some (VMap m) -> stampChild op c body = Ok body' ->
  exists items items',
    m !! "Items" = Some (VList items)
    /\ body' = <[c := VMap (<["Items" := VList items']> m)]> body
    /\ stampedItems (jeJsonName (Response op) +:+ "Message") items items'.
Proof.
  intros Hc H. unfold stampChild in H. rewrite Hc in H.
  destruct (m !! "Items") as [v|]; [|discriminate].
  destruct v; try discriminate. bind_case H. injection H as <-.
  exists l, a. split; [reflexivity | split; [reflexivity|]].
  now apply stampItems_spec.
Qed.

Lemma stampChild_missing op c body m :
  body !! c = Some (VMap m) -> m !! "Items" = None ->
  stampChild op c body
  = Err (ENew ("Internal error: Cannot find 'Items' element in '" +:+ c +:+ "'")).
Proof. intros Hc Hm. unfold stampChild. now rewrite Hc, Hm. Qed.

Lemma stampBody_other op names : forall body body' c,
  stampBody op names body = Ok body' -> c ∉ names -> body' !! c = body !! c.
Proof.
  induction names as [|c0 rest IH]; intros body body' c H Hnot; cbn in H.
  - now injection H as <-.
  - bind_case H. rewrite (IH _ _ _ H) by (intros ?; apply Hnot; now right).
    eapply stampChild_other; [exact E|]. intros ->. apply Hnot. left.
Qed.

Lemma stampBody_outcome op names : forall body,
  (exists body', stampBody op names body = Ok body') \/ returnsError (stampBody op names body).
Proof.
  induction names as [|c rest IH]; intros body; cbn; [left; now eexists|].
  destruct (stampChild_outcome op c body) as [[body1 ->] | [e ->]]; cbn.
  - apply IH.
  - right. now eexists.
Qed.

(** C2 (as the code has it): the type-hint loop, run over the child
    names in any order without repeats.  When it succeeds, every named
    child that is an object had an [Items] array of objects and now has
    the hint [<response JSON name>Message] on each item, and nothing else
    in the body changed; a named child that is absent, null or not an
    object is passed over.  A named child object without [Items] makes the
    loop fail whatever the type declares, and so does an [Items] value
    that is no array of objects; short of that the loop succeeds. *)
Theorem response_items_stamped (op : OpDescriptor) (names : list string)
    (body : gmap string value) :
  NoDup names ->
  (forall body',
      stampBody op names body = Ok body' ->
      (forall c m,
          c ∈ names -> body !! c = Some (VMap m) ->
          exists items items',
            m !! "Items" = Some (VList items)
            /\ body' !! c = Some (VMap (<["Items" := VList items']> m))
            /\ stampedItems (jeJsonName (Response op) +:+ "Message") items items')
      /\ (forall c,
            c ∉ names \/ (forall m, body !! c <> Some (VMap m)) ->
            body' !! c = body !! c))
  /\ (forall c m,
        c ∈ names -> body !! c = Some (VMap m) -> m !! "Items" = None ->
        returnsError (stampBody op names body))
  /\ ((forall c m,
          c ∈ names -> body !! c = Some (VMap m) ->
          exists items,
            m !! "Items" = Some (VList items)
            /\ Forall (fun v => exists item, v = VMap item) items) ->
      exists body', stampBody op names body = Ok body')
  /\ ((exists body', stampBody op names body = Ok body')
      \/ returnsError (stampBody op names body)).
Proof.
  intros Hnd.
  cut ((forall body',
      stampBody op names body = Ok body' ->
      (forall c m,
          c ∈ names -> body !! c = Some (VMap m) ->
          exists items items',
            m !! "Items" = Some (VList items)
            /\ body' !! c = Some (VMap (<["Items" := VList items']> m))
            /\ stampedItems (jeJsonName (Response op) +:+ "Message") items items')
      /\ (forall c,
            c ∉ names \/ (forall m, body !! c <> Some (VMap m)) ->
            body' !! c = body !! c))
  /\ (forall c m,
        c ∈ names -> body !! c = Some (VMap m) -> m !! "Items" = None ->
        returnsError (stampBody op names body))
  /\ ((forall c m,
          c ∈ names -> body !! c = Some (VMap m) ->
          exists items,
            m !! "Items" = Some (VList items)
            /\ Forall (fun v => exists item, v = VMap item) items) ->
      exists body', stampBody op names body = Ok body')).
  { intros (H1 & H2 & H3). repeat (split; [assumption|]). apply stampBody_outcome. }
  revert body.
  induction Hnd as [|c0 rest Hnot Hnd IH]; intros body.
  { refine (conj _ (conj _ _)).
    - intros body' H. injection H as <-. split.
      + intros c m Hin. inversion Hin.
      + reflexivity.
    - intros c m Hin. inversion Hin.
    - intros _. now exists body. }
  destruct (IH body) as (_ & _ & _).
  refine (conj _ (conj _ _)).
  - intros body' H. cbn in H. bind_case H. rename a into body1.
    destruct (IH body1) as (Hok & _ & _). destruct (Hok _ H) as [Hobj Hsame].
    split.
    + intros c m Hin Hc. apply elem_of_cons in Hin as [-> | Hin].
      * destruct (stampChild_object _ _ _ _ _ Hc E) as (items & items' & Hi & -> & Hst).
        exists items, items'. split; [exact Hi | split; [|exact Hst]].
        rewrite Hsame by (now left). apply lookup_insert_eq.
      * assert (Hne : c <> c0) by (intros ->; contradiction).
        apply (Hobj c m Hin). rewrite (stampChild_other _ _ _ _ _ E Hne). exact Hc.
    + intros c Hc. destruct (decide (c = c0)) as [-> | Hne].
      * destruct Hc as [Hc | Hc]; [exfalso; apply Hc; left|].
        rewrite (stampChild_skips _ _ _ Hc) in E. injection E as <-.
        apply Hsame. now left.
      * rewrite <- (stampChild_other _ _ _ _ _ E Hne). apply Hsame.
        destruct Hc as [Hc | Hc].
        -- left. intros Hin. apply Hc. now right.
        -- right. intros m. rewrite (stampChild_other _ _ _ _ _ E Hne). apply Hc.
  - intros c m Hin Hc Hm. cbn.
    destruct (stampChild_outcome op c0 body) as [[body1 E] | [e E]]; rewrite E; cbn;
      [|now exists e].
    apply elem_of_cons in Hin as [-> | Hin].
    + rewrite (stampChild_missing _ _ _ _ Hc Hm) in E. discriminate.
    + assert (Hne : c <> c0) by (intros ->; contradiction).
      destruct (IH body1) as (_ & Hmiss & _). apply (Hmiss c m Hin); [|exact Hm].
      rewrite (stampChild_other _ _ _ _ _ E Hne). exact Hc.
  - intros Hall. cbn.
    assert (E : exists body1, stampChild op c0 body = Ok body1).
    { unfold stampChild. destruct (body !! c0) as [v|] eqn:Ev; [|now eexists].
      destruct v; try now eexists.
      destruct (Hall c0 m (list_elem_of_here _ _) Ev) as (items & -> & Hitems).
      destruct (stampItems_objects (jeJsonName (Response op) +:+ "Message") _ Hitems)
        as [items' ->].
      cbn. now eexists. }
    destruct E as [body1 E]. rewrite E. cbn.
    destruct (IH body1) as (_ & _ & Hsucc). apply Hsucc.
    intros c m Hin Hc.
    assert (Hne : c <> c0) by (intros ->; contradiction).
    apply (Hall c m); [now right|].
    rewrite <- (stampChild_other _ _ _ _ _ E Hne). exact Hc.
Qed.

(* ------------------------------------------------------------------ *)
(** ** The fuel of [JSON2SOAP] is enough *)
(* ------------------------------------------------------------------ *)

Lemma depth_lookup (m : gmap string value) k v :
  m !! k = Some v -> (depth v < depth (VMap m))%nat.
Proof.
  intros H. cbn [depth]. apply Nat.lt_succ_r. revert k v H.
  apply (map_fold_weak_ind
           (fun r (m : gmap string value) => forall k v, m !! k = Some v -> (depth v <= r)%nat)).
  - intros k v H. rewrite lookup_empty in H. discriminate.
  - intros i x m' r Hi IH k v H. destruct (decide (k = i)) as [->|Hne].
    + rewrite lookup_insert_eq in H. injection H as ->. lia.
    + rewrite lookup_insert_ne in H by congruence. specialize (IH k v H). lia.
Qed.

Lemma depth_item (l : list value) v : v ∈ l -> (depth v < depth (VList l))%nat.
Proof.
  intros H. cbn [depth]. apply Nat.lt_succ_r.
  induction H as [x l | x y l _ IH]; cbn; lia.
Qed.

Lemma wrapErr_noFuel {A} (m : outcome A) msg : m <> OutOfFuel -> wrapErr m msg <> OutOfFuel.
Proof. destruct m; intros H; first [discriminate | exact H]. Qed.

Lemma forM_noFuel {A S} (P : S -> Prop) (f : A -> S -> outcome S) l :
  (forall x s, P s -> f x s <> OutOfFuel) ->
  (forall x s s', P s -> f x s = Ok s' -> P s') ->
  forall s, P s -> forM l s f <> OutOfFuel.
Proof.
  intros Hf Hp. induction l as [|x l IH]; intros s Hs; cbn; [discriminate|].
  apply bind_noFuel; [now apply Hf|]. intros s' Hs'. apply IH. eapply Hp; eauto.
Qed.

Ltac no_fuel' :=
  repeat first
    [ progress intros
    | discriminate
    | solve [auto with nofuel]
    | apply wrapErr_noFuel
    | apply bind_noFuel
    | match goal with
      | |- (let '(_, _) := ?p in _) <> _ => destruct p
      | |- (match ?x with _ => _ end) <> _ => destruct x eqn:?
      | |- (if ?x then _ else _) <> _ => destruct x eqn:?
      end ].

Lemma toString_noFuel o : toString o <> OutOfFuel.
Proof. destruct o; discriminate. Qed.

Lemma Atoi_noFuel s : Atoi s <> OutOfFuel.
Proof. unfold Atoi. no_fuel'. Qed.

Lemma EncodeToken_noFuel enc t : EncodeToken enc t <> OutOfFuel.
Proof. unfold EncodeToken. no_fuel'. Qed.

#[local] Hint Resolve toString_noFuel Atoi_noFuel EncodeToken_noFuel : nofuel.

Lemma EmitStart_noFuel this enc attrs : EmitStart this enc attrs <> OutOfFuel.
Proof. unfold EmitStart. no_fuel'. Qed.

Lemma EmitEnd_noFuel this enc : EmitEnd this enc <> OutOfFuel.
Proof. unfold EmitEnd. no_fuel'. Qed.

Lemma processJsonChardata_noFuel enc el : processJsonChardata enc el <> OutOfFuel.
Proof. unfold processJsonChardata. no_fuel'. Qed.

Lemma IsCharData_noFuel e : IsCharData e <> OutOfFuel.
Proof. unfold IsCharData. no_fuel'. Qed.

Lemma resolveChoice_noFuel element edesc : resolveChoice element edesc <> OutOfFuel.
Proof. unfold resolveChoice, applyXmlChoiceHook. no_fuel'. Qed.

Lemma collectAttrs_noFuel decl : forall element attrs,
  collectAttrs decl element attrs <> OutOfFuel.
Proof. induction decl as [|a rest IH]; intros element attrs; cbn; no_fuel'. Qed.

Lemma enumListChild_noFuel je : enumListChild je <> OutOfFuel.
Proof. unfold enumListChild. no_fuel'. Qed.

Lemma Test_noFuel b i : Test b i <> OutOfFuel.
Proof. unfold Test. no_fuel'. Qed.

#[local] Hint Resolve EmitStart_noFuel EmitEnd_noFuel processJsonChardata_noFuel
  IsCharData_noFuel resolveChoice_noFuel collectAttrs_noFuel enumListChild_noFuel
  Test_noFuel : nofuel.

Lemma selectNames_noFuel bits vals : forall index names,
  selectNames bits vals index names <> OutOfFuel.
Proof. induction vals as [|v rest IH]; intros index names; cbn; no_fuel'. Qed.

#[local] Hint Resolve selectNames_noFuel : nofuel.

Lemma emitEnumList_noFuel enc obj je jt item : emitEnumList enc obj je jt item <> OutOfFuel.
Proof. unfold emitEnumList. no_fuel'. Qed.

Lemma processJsonScalar_noFuel enc el edesc : processJsonScalar enc el edesc <> OutOfFuel.
Proof. unfold processJsonScalar. no_fuel'. Qed.

Lemma listChildDesc_noFuel edesc : listChildDesc edesc <> OutOfFuel.
Proof. unfold listChildDesc. no_fuel'. Qed.

#[local] Hint Resolve emitEnumList_noFuel processJsonScalar_noFuel listChildDesc_noFuel
  : nofuel.

(** [recur] comes to an end on every value of the map. *)
Definition safeOn (recur : Encoder -> value -> option EwsJsonElement -> outcome Encoder)
    (element : gmap string value) : Prop :=
  forall k v, element !! k = Some v -> forall enc ed, recur enc v ed <> OutOfFuel.

Lemma safeOn_delete recur element k : safeOn recur element -> safeOn recur (delete k element).
Proof.
  intros H k' v Hv. apply (H k'). apply lookup_delete_Some in Hv. tauto.
Qed.

Lemma processJsonObject_noFuel recur enc element edesc :
  safeOn recur element -> processJsonObject recur enc element edesc <> OutOfFuel.
Proof.
  intros Hsafe. unfold processJsonObject.
  apply bind_noFuel; [|no_fuel'].
  unfold consumeObject. apply bind_noFuel; [no_fuel'|]. intros jtyp _.
  destruct (deref (jtType jtyp)) as [typ|]; [|discriminate].
  destruct (IsSimple typ && String.eqb (TextAttr typ) ""); [discriminate|].
  apply bind_noFuel; [no_fuel'|]. intros [attrs element2] Hattrs.
  assert (Hsafe2 : safeOn recur element2).
  { intros k v Hv. apply (Hsafe k).
    pose proof (collectAttrs_without _ _ _ _ _ Hattrs k) as Hw.
    apply safeOn_delete with (k := "__type") in Hsafe.
    rewrite Hv in Hw. destruct (bool_decide _); [discriminate|].
    symmetry in Hw. apply lookup_delete_Some in Hw. tauto. }
  apply bind_noFuel; [no_fuel'|]. intros enc1 _.
  apply bind_noFuel; [|no_fuel'].
  unfold processBody.
  destruct (IsSimple typ && negb (String.eqb (TextAttr typ) "")); [no_fuel'|].
  destruct (negb (String.eqb (JsonListName typ) "")).
  - destruct (element2 !! JsonListName typ) as [v|] eqn:Ev; [|discriminate].
    destruct v; try discriminate;
      (apply bind_noFuel; [eapply Hsafe2; exact Ev | no_fuel']).
  - apply (forM_noFuel (fun st : Encoder * gmap string value => safeOn recur (snd st)));
      [| |exact Hsafe2].
    + intros je [enc2 el2] Hs. cbn [snd] in Hs. unfold processChild.
      destruct (el2 !! jeJsonName je) as [obj|] eqn:Eo; [|discriminate].
      apply bind_noFuel; [no_fuel'|]. intros sel _.
      apply bind_noFuel; [|no_fuel'].
      destruct sel as [[jt item]|]; [no_fuel' | eapply Hs; exact Eo].
    + intros je [enc2 el2] [enc3 el3] Hs Hstep. cbn [snd] in *. unfold processChild in Hstep.
      destruct (el2 !! jeJsonName je) as [obj|].
      * bind_case Hstep. bind_case Hstep. injection Hstep as _ <-.
        now apply safeOn_delete.
      * now injection Hstep as _ <-.
Qed.

Lemma processJsonList_noFuel recur enc elements edesc :
  (forall obj, VMap obj ∈ elements -> safeOn recur obj) ->
  processJsonList recur enc elements edesc <> OutOfFuel.
Proof.
  intros Hsafe. unfold processJsonList.
  apply bind_noFuel; [no_fuel'|]. intros [childDesc jtyp] _.
  apply bind_noFuel; [no_fuel'|]. intros enc1 _.
  apply bind_noFuel; [|no_fuel'].
  clear enc. revert enc1.
  induction elements as [|e rest IH]; intros enc1; cbn; [discriminate|].
  apply bind_noFuel.
  - unfold processListItem. destruct e; try discriminate;
      (apply bind_noFuel; [no_fuel'|]; intros [|] _; [no_fuel'|]); try discriminate.
    apply processJsonObject_noFuel. apply Hsafe. left.
  - intros enc2 _. apply IH. intros obj Hin. apply Hsafe. now right.
Qed.

Lemma processJson_noFuel fuel : forall enc element edesc,
  (depth element < fuel)%nat -> processJson fuel enc element edesc <> OutOfFuel.
Proof.
  induction fuel as [|fuel IH]; intros enc element edesc Hd; [lia|].
  cbn [processJson].
  destruct element; destruct edesc as [ed|]; try discriminate;
    try apply processJsonScalar_noFuel.
  - apply wrapErr_noFuel, processJsonList_noFuel.
    intros obj Hin k v Hv enc' ed'. apply IH.
    apply depth_item in Hin. apply depth_lookup in Hv. lia.
  - apply wrapErr_noFuel, processJsonObject_noFuel.
    intros k v Hv enc' ed'. apply IH. apply depth_lookup in Hv. lia.
Qed.

Lemma stampResponse_noFuel range op body : stampResponse range op body <> OutOfFuel.
Proof.
  unfold stampResponse, responseChildren.
  destruct (jeSingleType (Response op) ≫= _); [|discriminate]. cbn.
  destruct (stampBody_outcome op (range (TypeByElementName e)) body) as [[b' ->] | [e' ->]];
    discriminate.
Qed.

(** [JSON2SOAP] always comes to an end: the tokens, an error or a panic. *)
Lemma JSON2SOAP_noFuel range msg op : JSON2SOAP_in range msg op <> OutOfFuel.
Proof.
  unfold JSON2SOAP_in.
  apply bind_noFuel; [no_fuel'|]. intros enc _.
  apply bind_noFuel.
  { destruct (msg_Header msg) as [h|]; [|discriminate].
    apply wrapErr_noFuel, processJson_noFuel. lia. }
  intros enc1 _. apply bind_noFuel; [|no_fuel'].
  destruct (msg_Body msg) as [b|]; [|discriminate].
  apply bind_noFuel; [no_fuel'|]. intros e1 _.
  apply bind_noFuel; [apply stampResponse_noFuel|]. intros b' _.
  apply bind_noFuel; [|no_fuel'].
  apply wrapErr_noFuel, processJson_noFuel. lia.
Qed.

(* ------------------------------------------------------------------ *)
(** ** Registries on which [SOAP2JSON] does not panic *)
(* ------------------------------------------------------------------ *)

(** What [processElement] takes for granted about a type: the types of
    its attributes are registered; a simple type without text key has no
    list key, and has children only if it is a list; a bare list has no
    text key. *)
Definition typeOk (typ : EwsType) : Prop :=
  (forall x a, Attrs typ !! x = Some a -> is_Some (deref a))
  /\ (IsSimple typ = true -> TextAttr typ = "" ->
      JsonListName typ = "" /\ (IsList typ = true \/ TypeByElementName typ = ∅))
  /\ (TextAttr typ <> "" -> JsonListName typ = "" -> IsList typ = false).

Definition registryOk : Prop :=
  (forall name typ, ewsTypes !! name = Some typ -> typeOk typ)
  /\ is_Some (deref EwsSoapRequestHeader).

(** The types for which [initRetObject] makes no object. *)
Definition objless (typ : EwsType) : Prop :=
  (IsSimple typ = true /\ TextAttr typ = "")
  \/ (JsonListName typ = "" /\ IsList typ = true).

Definition frameOk (typ : EwsType) (fr : frame) : Prop :=
  (forall o, f_obj fr = Some o -> keysSound o)
  /\ (f_ret fr = RObj -> is_Some (f_obj fr))
  /\ (f_ret fr = RNil \/ is_Some (f_obj fr) \/ objless typ).

Lemma Set_noPanic o k v : keysSound o -> Set_ o k v <> Panic.
Proof. intros Hs. apply (Set_no_panic o k v Hs). Qed.

Lemma Get_noPanic o k : keysSound o -> Get o k <> Panic.
Proof. intros Hs. apply (Get_no_panic o k Hs). Qed.

Lemma bind_noPanic {A B} (m : outcome A) (k : A -> outcome B) :
  m <> Panic -> (forall a, m = Ok a -> k a <> Panic) -> (m ≫= k) <> Panic.
Proof. destruct m; cbn; intros H1 H2; auto; discriminate. Qed.

Lemma setAttrs_ok typ attrs : forall o,
  typeOk typ -> keysSound o ->
  setAttrs typ attrs o <> Panic
  /\ forall o', setAttrs typ attrs o = Ok o' -> keysSound o'.
Proof.
  intros o Hok. revert o. induction attrs as [|attr attrs IH]; intros o Hs; cbn.
  - split; [discriminate | intros o' H; now injection H as <-].
  - destruct (notXmlns attr); [|now apply IH].
    destruct (Attrs typ !! Local (AttrName attr)) as [atype|] eqn:Ea;
      [|split; [discriminate | intros o' H; discriminate]].
    destruct (proj1 Hok _ _ Ea) as [aty ->].
    destruct (Set_ o _ _) as [[o1 b]| | |] eqn:ES; cbn.
    + apply IH. eapply Set_keysSound; eauto.
    + split; [discriminate | intros o' H; discriminate].
    + exfalso. exact (Set_noPanic _ _ _ Hs ES).
    + split; [discriminate | intros o' H; discriminate].
Qed.

Lemma newTypedObject_ok typ :
  exists o, newTypedObject typ = Ok o /\ keysSound o.
Proof.
  unfold newTypedObject. destruct (negb (String.eqb (JsonType typ) "")).
  - rewrite Set_new. cbn [mbind outcome_bind]. eexists. split; [reflexivity|].
    intros k i Hk. cbn [keys Object] in *.
    apply lookup_singleton_Some in Hk as [<- <-]. now eexists.
  - exists NewOrderedObject. split; [reflexivity | apply keysSound_new].
Qed.

Lemma frameOk_empty typ : frameOk typ emptyFrame.
Proof. split; [intros o H; discriminate | split; [intros H; discriminate | now left]]. Qed.

Lemma initRetObject_ok el typ simple :
  typeOk typ ->
  initRetObject el typ simple <> Panic
  /\ forall fr, initRetObject el typ simple = Ok fr ->
       frameOk typ fr /\ (is_Some (f_obj fr) \/ objless typ).
Proof.
  intros Hok. unfold initRetObject.
  destruct (negb (IsSimple typ) || negb (String.eqb (TextAttr typ) "")) eqn:Eobj.
  2:{ split; [discriminate|]. intros fr H. injection H as <-.
      split; [apply frameOk_empty|]. right. left.
      apply orb_false_elim in Eobj as [E1 E2].
      apply negb_false_iff in E1, E2. apply String.eqb_eq in E2. now split. }
  destruct (newTypedObject_ok typ) as (o & -> & Hs). cbn [mbind outcome_bind].
  destruct (negb (String.eqb (JsonListName typ) "") || IsList typ) eqn:Elist.
  - destruct (existsb notXmlns (SAttr el)); [split; [discriminate | intros fr H; discriminate]|].
    destruct (negb (String.eqb (JsonListName typ) "")) eqn:Ename.
    + destruct (Set_ o (JsonListName typ) (VJsonList [])) as [[o1 b]| | |] eqn:ES; cbn.
      * split; [discriminate|]. intros fr H. injection H as <-.
        assert (Hs1 : keysSound o1) by (eapply Set_keysSound; eauto).
        split; [|left; now eexists].
        split; [intros o' Ho'; now injection Ho' as <-|].
        split; [intros _; now eexists | right; left; now eexists].
      * split; [discriminate | intros fr H; discriminate].
      * exfalso. exact (Set_noPanic _ _ _ Hs ES).
      * split; [discriminate | intros fr H; discriminate].
    + split; [discriminate|]. intros fr H. injection H as <-.
      assert (Hbare : objless typ).
      { right. cbn in Elist. apply negb_false_iff, String.eqb_eq in Ename. now split. }
      split; [|now right].
      split; [intros o' Ho'; discriminate|].
      split; [intros H; discriminate | right; now right].
  - destruct (setAttrs_ok typ (SAttr el) o Hok Hs) as [Hp Hk].
    destruct (setAttrs typ (SAttr el) o) as [o1| | |] eqn:EA; cbn.
    + split; [discriminate|]. intros fr H. injection H as <-.
      split; [|left; now eexists].
      split; [intros o' Ho'; injection Ho' as <-; now apply Hk|].
      split; [intros _; now eexists | right; left; now eexists].
    + split; [discriminate | intros fr H; discriminate].
    + contradiction.
    + split; [discriminate | intros fr H; discriminate].
Qed.

Lemma initIfNil_ok el typ simple fr :
  typeOk typ -> frameOk typ fr ->
  initIfNil el typ simple fr <> Panic
  /\ forall fr', initIfNil el typ simple fr = Ok fr' ->
       frameOk typ fr' /\ (is_Some (f_obj fr') \/ objless typ).
Proof.
  intros Hok Hfr. unfold initIfNil.
  destruct (f_ret fr) eqn:Er; try (now apply initRetObject_ok);
    (split; [discriminate|]; intros fr' H; injection H as <-; split; [exact Hfr|];
     destruct Hfr as (_ & _ & [Hnil | Hrest]); [congruence | exact Hrest]).
Qed.

(** With an object at hand, or on a type that is known not to need one. *)
Lemma withObj_needed typ fr :
  typeOk typ -> is_Some (f_obj fr) \/ objless typ ->
  negb (String.eqb (JsonListName typ) "") = true
  \/ (IsList typ = false /\ TypeByElementName typ <> ∅)
  \/ TextAttr typ <> "" ->
  is_Some (f_obj fr).
Proof.
  intros (_ & Hleaf & Htext) [Hsome | Hless] Hneed; [exact Hsome|]. exfalso.
  destruct Hless as [[Hs Ht] | [Hn Hl]].
  - destruct (Hleaf Hs Ht) as [Hn Hc].
    destruct Hneed as [Hneed | [[Hl Hne] | Hneed]].
    + rewrite Hn in Hneed. discriminate.
    + destruct Hc; congruence.
    + congruence.
  - destruct Hneed as [Hneed | [[Hl' _] | Hneed]].
    + rewrite Hn in Hneed. discriminate.
    + congruence.
    + specialize (Htext Hneed Hn). congruence.
Qed.

Lemma installChild_ok typ name nextElem newItem fr :
  typeOk typ -> frameOk typ fr -> is_Some (f_obj fr) \/ objless typ ->
  TypeByElementName typ !! name = Some nextElem ->
  is_Some (deref (xeType nextElem)) ->
  installChild typ nextElem newItem fr <> Panic
  /\ forall fr', installChild typ nextElem newItem fr = Ok fr' -> frameOk typ fr'.
Proof.
  intros Hok (Hks & Hrobj & Hcase) Hobj Hchild [ctyp Hctyp].
  assert (Hne : TypeByElementName typ <> ∅).
  { intros He. rewrite He, lookup_empty in Hchild. discriminate. }
  unfold installChild.
  destruct (negb (String.eqb (JsonListName typ) "")) eqn:Ename.
  { destruct (withObj_needed typ fr Hok Hobj (or_introl Ename)) as [o Ho].
    rewrite Ho. cbn [withObj].
    destruct (Set_ o (JsonListName typ) _) as [[o1 b]| | |] eqn:ES; cbn;
      try (split; [discriminate | intros fr' H; discriminate]).
    - split; [discriminate|]. intros fr' H. injection H as <-.
      split; [intros o' Ho'; injection Ho' as <-; eapply Set_keysSound; eauto|].
      split; [intros _; now eexists | right; left; now eexists].
    - exfalso. exact (Set_noPanic _ _ _ (Hks o Ho) ES). }
  destruct (IsList typ) eqn:El.
  { split; [discriminate|]. intros fr' H. injection H as <-.
    split; [exact Hks|]. split; [intros H; discriminate|].
    destruct Hobj as [Hsome | Hless]; [right; now left | right; now right]. }
  destruct (withObj_needed typ fr Hok Hobj (or_intror (or_introl (conj El Hne))))
    as [o Ho].
  pose proof (Hks o Ho) as Hs.
  assert (Hset : forall k v,
             (Set_ o k v ≫= fun '(o', _) => Ok (mkFrame (Some o') (f_listObj fr) (f_ret fr)))
             <> Panic
             /\ forall fr', (Set_ o k v ≫= fun '(o', _) =>
                               Ok (mkFrame (Some o') (f_listObj fr) (f_ret fr))) = Ok fr' ->
                            frameOk typ fr').
  { intros k v. destruct (Set_ o k v) as [[o1 b]| | |] eqn:ES; cbn;
      try (split; [discriminate | intros fr' H; discriminate]).
    - split; [discriminate|]. intros fr' H. injection H as <-.
      split; [intros o' Ho'; injection Ho' as <-; eapply Set_keysSound; eauto|].
      split; [intros _; now eexists | right; left; now eexists].
    - exfalso. exact (Set_noPanic _ _ _ Hs ES). }
  destruct (xeIsList nextElem).
  { rewrite Ho. cbn [withObj].
    destruct (Get o (xeJsonName nextElem)) as [[elistIf ok]| | |] eqn:EG; cbn;
      try (split; [discriminate | intros fr' H; discriminate]).
    - destruct ok; [|apply Hset].
      destruct elistIf; try (split; [discriminate | intros fr' H; discriminate]).
      apply Hset.
    - exfalso. exact (Get_noPanic _ _ Hs EG). }
  rewrite Hctyp, Ho.
  assert (Hplain : forall item,
             withObj (Some o) (fun o0 =>
               Set_ o0 (xeJsonName nextElem) item ≫= fun '(o', added) =>
                 if added : bool then Ok (mkFrame (Some o') (f_listObj fr) (f_ret fr))
                 else Err (Errorf "Internal error: collision on key %s for type %s"
                             [AStr (xeJsonName nextElem); AStr (Name typ)])) <> Panic
             /\ forall fr',
                 withObj (Some o) (fun o0 =>
                   Set_ o0 (xeJsonName nextElem) item ≫= fun '(o', added) =>
                     if added : bool then Ok (mkFrame (Some o') (f_listObj fr) (f_ret fr))
                     else Err (Errorf "Internal error: collision on key %s for type %s"
                                 [AStr (xeJsonName nextElem); AStr (Name typ)])) = Ok fr' ->
                 frameOk typ fr').
  { intros item. cbn [withObj].
    destruct (Set_ o (xeJsonName nextElem) item) as [[o1 b]| | |] eqn:ES; cbn;
      try (split; [discriminate | intros fr' H; discriminate]).
    - destruct b; [|split; [discriminate | intros fr' H; discriminate]].
      split; [discriminate|]. intros fr' H. injection H as <-.
      split; [intros o' Ho'; injection Ho' as <-; eapply Set_keysSound; eauto|].
      split; [intros _; now eexists | right; left; now eexists].
    - exfalso. exact (Set_noPanic _ _ _ Hs ES). }
  destruct newItem; cbn [mbind outcome_bind]; apply Hplain.
Qed.

Lemma charData_ok el typ s fr :
  typeOk typ -> frameOk typ fr ->
  charData el typ s fr <> Panic
  /\ forall fr', charData el typ s fr = Ok fr' -> frameOk typ fr'.
Proof.
  intros Hok Hfr. unfold charData.
  destruct (String.length (Trim s trimCutset) =? 0)%nat;
    [split; [discriminate | intros fr' H; now injection H as <-]|].
  destruct (initIfNil_ok el typ true fr Hok Hfr) as [Hp Hinit].
  destruct (initIfNil el typ true fr) as [fr1| | |] eqn:EI; cbn;
    try (split; [discriminate | intros fr' H; discriminate]); [|contradiction].
  destruct (Hinit fr1 eq_refl) as [(Hks & Hrobj & Hcase) Hobj].
  destruct (negb (String.eqb (TextAttr typ) "")) eqn:Et.
  - assert (Hta : TextAttr typ <> "") by (now apply String.eqb_neq, negb_true_iff).
    destruct (withObj_needed typ fr1 Hok Hobj (or_intror (or_intror Hta))) as [o Ho].
    rewrite Ho. cbn [withObj].
    destruct (Set_ o (TextAttr typ) _) as [[o1 b]| | |] eqn:ES; cbn;
      try (split; [discriminate | intros fr' H; discriminate]).
    + split; [discriminate|]. intros fr' H. injection H as <-.
      split; [intros o' Ho'; injection Ho' as <-; eapply Set_keysSound; eauto|].
      split; [intros _; now eexists | right; left; now eexists].
    + exfalso. exact (Set_noPanic _ _ _ (Hks o Ho) ES).
  - split; [discriminate|]. intros fr' H. injection H as <-.
    split; [exact Hks|]. split; [intros H; discriminate|].
    right. exact Hobj.
Qed.

Lemma insertDefaults_ok defaults : forall o,
  keysSound o ->
  insertDefaults defaults o <> Panic
  /\ forall o', insertDefaults defaults o = Ok o' -> keysSound o'.
Proof.
  induction defaults as [|e rest IH]; intros o Hs; cbn.
  - split; [discriminate | intros o' H; now injection H as <-].
  - destruct (Get o (jdJsonName e)) as [[v ok]| | |] eqn:EG; cbn;
      try (split; [discriminate | intros o' H; discriminate]).
    + destruct ok; [now apply IH|].
      destruct (Set_ o (jdJsonName e) (jdJsonDefault e)) as [[o1 b]| | |] eqn:ES; cbn;
        try (split; [discriminate | intros o' H; discriminate]).
      * apply IH. eapply Set_keysSound; eauto.
      * exfalso. exact (Set_noPanic _ _ _ Hs ES).
    + exfalso. exact (Get_noPanic _ _ Hs EG).
Qed.

Lemma applyJsonHook_ok h t o : keysSound o -> applyJsonHook h t o <> Panic.
Proof.
  intros Hs. destruct h. cbn.
  destruct (Get o "ContactDataShape") as [[v ok]| | |] eqn:EG; cbn; try discriminate.
  - destruct ok; [discriminate|].
    destruct (Set_ o "ContactDataShape" (VString "Default")) as [[o1 b]| | |] eqn:ES; cbn;
      try discriminate.
    exfalso. exact (Set_noPanic _ _ _ Hs ES).
  - exfalso. exact (Get_noPanic _ _ Hs EG).
Qed.

Lemma finishElement_ok typ fr : frameOk typ fr -> finishElement typ fr <> Panic.
Proof.
  intros (Hks & Hrobj & _). unfold finishElement.
  destruct (f_ret fr) eqn:Er; try discriminate.
  destruct (Hrobj eq_refl) as [o Ho]. rewrite Ho. cbn [withObj].
  destruct (insertDefaults_ok (JsonDefaults typ) o (Hks o Ho)) as [Hp Hk].
  apply bind_noPanic; [exact Hp|]. intros o1 H1.
  apply bind_noPanic; [|discriminate].
  destruct (JsonHook typ); [|discriminate]. apply applyJsonHook_ok. now apply Hk.
Qed.

Section WithRegistry.

Hypothesis registry_ok : forall name typ, ewsTypes !! name = Some typ -> typeOk typ.

Lemma translate_noPanic fuel :
  (forall d el r, processElement fuel d el (deref r) <> Panic)
  /\ (forall d el typ fr,
        typeOk typ -> frameOk typ fr -> elementLoop fuel d el typ fr <> Panic).
Proof.
  induction fuel as [|fuel [IHp IHl]]; [split; intros; discriminate|].
  split.
  - intros d el r. cbn. destruct (deref r) as [typ|] eqn:Er; [|discriminate].
    pose proof (registry_ok _ _ Er) as Hok.
    apply bind_noPanic.
    + destruct (length (SAttr el) =? 0)%nat; [discriminate|]. now apply initRetObject_ok.
    + intros fr Hfr. apply IHl; [exact Hok|].
      destruct (length (SAttr el) =? 0)%nat.
      * injection Hfr as <-. apply frameOk_empty.
      * now apply (initRetObject_ok el typ false Hok).
  - intros d el typ fr Hok Hfr. cbn. destruct d as [|tok d1]; [discriminate|].
    cbn [nextToken mbind outcome_bind].
    destruct tok; try (now apply IHl).
    + destruct (initIfNil_ok el typ false fr Hok Hfr) as [Hp Hinit].
      apply bind_noPanic; [exact Hp|]. intros fr1 H1.
      destruct (Hinit fr1 H1) as [Hfr1 Hobj].
      destruct (TypeByElementName typ !! Local (SName el0)) as [nextElem|] eqn:En;
        [|discriminate].
      apply bind_noPanic; [apply IHp|]. intros [newItem d2] Hchild.
      assert (Hsome : is_Some (deref (xeType nextElem))).
      { destruct (deref (xeType nextElem)); [now eexists|].
        destruct fuel; discriminate. }
      destruct (installChild_ok typ _ nextElem newItem fr1 Hok Hfr1 Hobj En Hsome)
        as [Hp2 Hinst].
      apply bind_noPanic; [exact Hp2|]. intros fr2 H2. apply IHl; [exact Hok|].
      now apply Hinst.
    + apply bind_noPanic; [now apply finishElement_ok | discriminate].
    + destruct (charData_ok el typ s fr Hok Hfr) as [Hp Hcd].
      apply bind_noPanic; [exact Hp|]. intros fr1 H1. apply IHl; [exact Hok|].
      now apply Hcd.
Qed.

Lemma processSoapElement_noPanic fuel d el r jsonType :
  processSoapElement fuel d el (deref r) jsonType <> Panic.
Proof.
  unfold processSoapElement. apply bind_noPanic; [apply translate_noPanic|].
  intros [v d'] _. destruct v; discriminate.
Qed.

Lemma getNextStartElement_noPanic x : getNextStartElement x <> Panic.
Proof.
  unfold getNextStartElement.
  destruct (getNextElement x true) as [[tok x']| | |] eqn:E; cbn; try discriminate.
  - destruct (getNextElement_consumed _ _ _ _ E) as (_ & _ & [el ->]). discriminate.
  - exfalso. revert E. clear. induction x as [|t x IH]; cbn; [discriminate|].
    destruct t; try exact IH; discriminate.
Qed.

Lemma getNextElement_noPanic x wantStart : getNextElement x wantStart <> Panic.
Proof.
  induction x as [|t x IH]; cbn; [discriminate|].
  destruct t; try exact IH; destruct wantStart; discriminate.
Qed.

Lemma soapLoop_noPanic n fuel : forall d st,
  is_Some (deref EwsSoapRequestHeader) -> soapLoop n fuel d st <> Panic.
Proof.
  intros d st [ht Hht]. revert d st.
  induction n as [|n IH]; intros d st; cbn;
    (destruct (negb (gotHeader st) || negb (gotBody st)); [|discriminate]);
    [discriminate|].
  apply bind_noPanic; [apply getNextStartElement_noPanic|]. intros [el d1] _.
  destruct (String.eqb (Local (SName el)) "Header").
  { destruct (gotHeader st); [discriminate|].
    apply bind_noPanic; [|intros [h d2] _; apply IH].
    unfold soapHeader. rewrite Hht.
    apply bind_noPanic.
    - rewrite <- Hht. apply processSoapElement_noPanic.
    - intros [[h|] d2] _; [discriminate|]. rewrite customHeader_eq. discriminate. }
  destruct (String.eqb (Local (SName el)) "Body").
  { destruct (gotBody st); [discriminate|].
    apply bind_noPanic; [|intros [[op b] d2] _; apply IH].
    unfold soapBody.
    apply bind_noPanic; [apply getNextStartElement_noPanic|]. intros [el1 d2] _.
    destruct (EwsOperations !! Local (SName el1)) as [op|]; [|discriminate].
    apply bind_noPanic; [apply processSoapElement_noPanic|]. intros [b d3] _.
    apply bind_noPanic; [apply getNextElement_noPanic|]. intros [e d4] _. discriminate. }
  apply IH.
Qed.

End WithRegistry.

(** On a registry that is in order, [SOAP2JSON] returns a message or an
    error. *)
Lemma SOAP2JSON_noPanic r : registryOk -> SOAP2JSON r <> Panic.
Proof.
  intros [Hreg Hhdr]. unfold SOAP2JSON.
  apply bind_noPanic; [apply getNextStartElement_noPanic|]. intros [el d] _.
  destruct (negb (String.eqb (Local (SName el)) "Envelope")); [discriminate|].
  apply bind_noPanic; [now apply soapLoop_noPanic|]. intros [st d1] _.
  apply bind_noPanic; [apply getNextElement_noPanic|]. intros [e d2] _. discriminate.
Qed.

(* ------------------------------------------------------------------ *)
(** ** Requests [SOAP2JSON] turns down *)
(* ------------------------------------------------------------------ *)

(** C6 (as the code has it): a request without any [Header] element is
    never translated, [SOAP2JSON] ends with an error (on a registry that
    is not in order it may panic instead); the
    made-up header [{"__type": "JsonRequestHeaders:#Exchange",
    "RequestServerVersion": "Exchange2013"}] is what the message carries
    when the [Header] element is there and translates to nil, as an empty
    [Header] element does. *)
Theorem header_element_required_empty_one_synthesized :
  (forall r,
      (forall el, TStartElement el ∈ r -> Local (SName el) <> "Header") ->
      (returnsError (SOAP2JSON r) \/ SOAP2JSON r = Panic)
      /\ (registryOk -> returnsError (SOAP2JSON r)))
  /\ (forall fuel d el ht d',
        deref EwsSoapRequestHeader = Some ht ->
        processSoapElement fuel d el (Some ht) (JsonType ht) = Ok (None, d') ->
        soapHeader fuel d el = Ok (synthesizedHeader, d'))
  /\ (forall env hdr n rest msg op,
        Local (SName hdr) = "Header" -> SAttr hdr = [] ->
        SOAP2JSON (TStartElement env :: TStartElement hdr :: TEndElement n :: rest)
        = Ok (msg, op) ->
        msg !! 1%nat = Some ("Header", VObject synthesizedHeader)).
Proof.
  refine (conj _ (conj _ _)).
  - intros r Hno. pose proof (SOAP2JSON_noPanic r) as Hpanic.
    destruct (SOAP2JSON r) as [[msg op] | e | |] eqn:E.
    + exfalso. destruct (SOAP2JSON_shape _ _ _ E) as (o & h & b & _ & _ & Hh & _).
      destruct Hh as (fuel & d & el & d' & Hin & Hl & _). now apply (Hno el).
    + split; [left|intros _]; now exists e.
    + split; [now right | intros Hreg; now destruct (Hpanic Hreg)].
    + exfalso. now apply (SOAP2JSON_noFuel r).
  - intros fuel d el ht d' Hd H. unfold soapHeader. rewrite Hd, H.
    cbn [mbind outcome_bind]. now rewrite customHeader_eq.
  - intros env hdr n rest msg op Hl Ha H.
    unfold SOAP2JSON in H.
    set (r := TStartElement env :: TStartElement hdr :: TEndElement n :: rest) in H.
    assert (HF : exists f, (2 * length r + 2)%nat = S (S f)) by (exists (2 * length r)%nat; lia).
    destruct HF as [f HF]. rewrite HF in H. clear HF.
    change (getNextStartElement r)
      with (Ok (A := StartElement * list Token)
              (env, TStartElement hdr :: TEndElement n :: rest)) in H.
    cbn [mbind outcome_bind] in H.
    destruct (negb (String.eqb (Local (SName env)) "Envelope")); [discriminate|].
    rewrite soapLoop_header_step in H by (reflexivity || exact Hl).
    unfold soapHeader in H.
    destruct (deref EwsSoapRequestHeader) as [ht|]; [|discriminate].
    rewrite processSoapElement_empty in H by exact Ha.
    cbn [mbind outcome_bind] in H. rewrite customHeader_eq in H.
    cbn [mbind outcome_bind] in H.
    bind_case' H. destr_pairs. bind_case' H. destr_pairs. injection H as <- _.
    apply soapLoop_keeps_header in E; [|reflexivity]. cbn in E. now rewrite E.
Qed.

(* ------------------------------------------------------------------ *)
(** ** The first child elements of [Envelope] *)
(* ------------------------------------------------------------------ *)

Lemma getNextElement_skip misc x wantStart :
  Forall isMisc misc -> getNextElement (misc ++ x) wantStart = getNextElement x wantStart.
Proof.
  induction 1 as [|tok misc Hm _ IH]; [reflexivity|].
  cbn. destruct tok; try contradiction; exact IH.
Qed.

Lemma getNextStartElement_skip misc el x :
  Forall isMisc misc ->
  getNextStartElement (misc ++ TStartElement el :: x) = Ok (el, x).
Proof.
  intros H. unfold getNextStartElement. now rewrite getNextElement_skip by exact H.
Qed.

(** [firstChild d el c x d']: after tokens that are no tags, [d] goes on
    with the element that has the start tag [el], the content [c] and the
    end tag [x]; [d'] is what follows that element. *)
Definition firstChild (d : list Token) (el : StartElement) (c : list Token) (x : XmlName)
    (d' : list Token) : Prop :=
  exists misc inner,
    Forall isMisc misc /\ children inner c
    /\ d = misc ++ TStartElement el :: c ++ TEndElement x :: d'.

Lemma children_firstChild n ns cs tl :
  children (n :: ns) cs ->
  exists el c x cs',
    firstChild (cs ++ tl) el c x (cs' ++ tl) /\ Local (SName el) = n /\ children ns cs'.
Proof.
  intros H. remember (n :: ns) as l eqn:El. revert n ns El.
  induction H as [|tok ns0 cs Hm _ IH|el0 n0 inner c ns0 cs Hc _ Hcs _]; intros n ns El.
  - discriminate.
  - destruct (IH n ns El) as (el & c & x & cs' & (misc & inner & Hmisc & Hc & Hd) & Hl & Hcs).
    exists el, c, x, cs'. split; [|now split].
    exists (tok :: misc), inner. split; [now constructor | split; [exact Hc|]].
    cbn. now rewrite Hd.
  - injection El as <- <-. exists el0, c, n0, cs. split; [|now split].
    exists [], inner. split; [constructor | split; [exact Hc|]].
    cbn. now rewrite <- app_assoc.
Qed.

Lemma firstChild_next d el c x d' :
  firstChild d el c x d' -> getNextStartElement d = Ok (el, c ++ TEndElement x :: d').
Proof. intros (misc & inner & Hm & _ & ->). now apply getNextStartElement_skip. Qed.

Lemma firstChild_no_end d el c x d' :
  firstChild d el c x d' ->
  getNextElement d false
  = Err (Errorf "unexpected element (wanted end), got %#v" [ATok (TStartElement el)]).
Proof. intros (misc & inner & Hm & _ & ->). now rewrite getNextElement_skip by exact Hm. Qed.

Lemma firstChild_length d el c x d' : firstChild d el c x d' -> exists k, length d = S k.
Proof.
  intros (misc & inner & _ & _ & ->). rewrite length_app. cbn.
  exists (length misc + length (c ++ TEndElement x :: d'))%nat. lia.
Qed.

(** The content of an element ends at one place only. *)
Lemma children_end_unique i1 c1 :
  children i1 c1 ->
  forall i2 c2 x1 x2 d1 d2,
    children i2 c2 ->
    c1 ++ TEndElement x1 :: d1 = c2 ++ TEndElement x2 :: d2 ->
    c1 = c2 /\ x1 = x2 /\ d1 = d2.
Proof.
  induction 1 as [|tok ns cs Hm _ IH|el0 n0 inner c ns cs _ IHc _ IHcs];
    intros i2 c2 x1 x2 d1 d2 H2 E;
    destruct H2 as [|tok' ns' cs' Hm' H2|el' n' inner' c' ns' cs' Hc' Hcs']; cbn in E.
  - now injection E as <- <-.
  - injection E as <- _. contradiction.
  - discriminate.
  - injection E as -> _. contradiction.
  - injection E as <- E. destruct (IH _ _ _ _ _ _ H2 E) as (-> & -> & ->). now repeat split.
  - injection E as -> _. contradiction.
  - discriminate.
  - injection E as <- _. contradiction.
  - injection E as <- E. rewrite <- !app_assoc in E. cbn in E.
    destruct (IHc _ _ _ _ _ _ Hc' E) as (-> & -> & E').
    destruct (IHcs _ _ _ _ _ _ Hcs' E') as (-> & -> & ->). now repeat split.
Qed.

(** So the first child element of a token stream is one element. *)
Lemma firstChild_unique d el c x d' el2 c2 x2 d2 :
  firstChild d el c x d' -> firstChild d el2 c2 x2 d2 ->
  el = el2 /\ c = c2 /\ x = x2 /\ d' = d2.
Proof.
  intros H1 H2. pose proof (firstChild_next _ _ _ _ _ H1) as E1.
  pose proof (firstChild_next _ _ _ _ _ H2) as E2.
  rewrite E1 in E2. injection E2 as <- E.
  destruct H1 as (_ & i1 & _ & Hc1 & _). destruct H2 as (_ & i2 & _ & Hc2 & _).
  destruct (children_end_unique _ _ Hc1 _ _ _ _ _ _ Hc2 E) as (-> & -> & ->).
  now repeat split.
Qed.

(** A turn of the loop on a first [Header]: the header is translated, and
    the loop goes on behind its end tag. *)
Lemma soapLoop_header_first n fuel d el c x d' st :
  firstChild d el c x d' -> Local (SName el) = "Header" -> gotHeader st = false ->
  soapLoop (S n) fuel d st
  = '(h, _) ← soapHeader fuel (c ++ TEndElement x :: d') el;
    soapLoop n fuel d'
      (mkSoapState (Some h) (st_body st) (st_msgType st) (st_op st) true (gotBody st)).
Proof.
  intros Hf Hl Hg. pose proof (firstChild_next _ _ _ _ _ Hf) as Hnext.
  destruct Hf as (misc & inner & _ & Hc & _).
  cbn [soapLoop]. rewrite Hg, Hnext. cbn [negb orb mbind outcome_bind].
  rewrite Hl. cbn [String.eqb Ascii.eqb Bool.eqb].
  destruct (soapHeader fuel (c ++ TEndElement x :: d') el) as [[h d2]| | |] eqn:E;
    cbn [mbind outcome_bind]; try reflexivity.
  apply (soapHeader_exact _ _ _ _ _ _ _ _ Hc) in E. now subst.
Qed.

(** A turn of the loop on a first [Body]. *)
Lemma soapLoop_body_first n fuel d el c x d' st :
  firstChild d el c x d' -> Local (SName el) = "Body" -> gotBody st = false ->
  soapLoop (S n) fuel d st
  = '(op, body, _) ← soapBody fuel (c ++ TEndElement x :: d');
    soapLoop n fuel d'
      (mkSoapState (st_header st) body (RequestType op) (Some op) (gotHeader st) true).
Proof.
  intros Hf Hl Hg. pose proof (firstChild_next _ _ _ _ _ Hf) as Hnext.
  destruct Hf as (misc & inner & _ & Hc & _).
  cbn [soapLoop]. rewrite Hg, Hnext. rewrite orb_true_r. cbn [mbind outcome_bind].
  rewrite Hl. cbn [String.eqb Ascii.eqb Bool.eqb].
  destruct (soapBody fuel (c ++ TEndElement x :: d')) as [[[op b] d2]| | |] eqn:E;
    cbn [mbind outcome_bind]; try reflexivity.
  apply (soapBody_exact _ _ _ _ _ _ _ _ Hc) in E. now subst.
Qed.

(** The loop on a section it has read, while the other one is missing. *)
Lemma soapLoop_header_again n fuel d el d1 st :
  getNextStartElement d = Ok (el, d1) ->
  Local (SName el) = "Header" -> gotHeader st = true -> gotBody st = false ->
  soapLoop (S n) fuel d st = Err (ENew "multiple SOAP headers found").
Proof. intros Hnext Hl Hh Hb. cbn. rewrite Hh, Hb, Hnext. cbn. now rewrite Hl. Qed.

Lemma soapLoop_body_again n fuel d el d1 st :
  getNextStartElement d = Ok (el, d1) ->
  Local (SName el) = "Body" -> gotBody st = true -> gotHeader st = false ->
  soapLoop (S n) fuel d st = Err (ENew "multiple SOAP bodies found").
Proof. intros Hnext Hl Hb Hh. cbn. rewrite Hh, Hb, Hnext. cbn. now rewrite Hl. Qed.

Lemma soapLoop_both n fuel d st :
  gotHeader st = true -> gotBody st = true -> soapLoop n fuel d st = Ok (st, d).
Proof. intros Hh Hb. destruct n; cbn; now rewrite Hh, Hb. Qed.

(** [SOAP2JSON] on a document whose first element is an [Envelope]. *)
Lemma SOAP2JSON_envelope m0 env d :
  Forall isMisc m0 -> Local (SName env) = "Envelope" ->
  SOAP2JSON (m0 ++ TStartElement env :: d)
  = '(st, d1) ← soapLoop (S (length d)) (2 * length (m0 ++ TStartElement env :: d) + 2)
                  d soapState0;
    '(_, d2) ← getNextElement d1 false;
    Ok ([("__type", VString (st_msgType st));
         ("Header", objectValue (st_header st));
         ("Body", objectValue (st_body st))], st_op st).
Proof.
  intros Hm Hl. unfold SOAP2JSON. rewrite getNextStartElement_skip by exact Hm.
  cbn [mbind outcome_bind]. rewrite Hl. reflexivity.
Qed.

(** [Header] twice at the start of the envelope: unless the translation
    of the first one fails, the second one is reported. *)
Lemma SOAP2JSON_header_twice m0 env d s1 c1 x1 d1 s2 c2 x2 d2 :
  Forall isMisc m0 -> Local (SName env) = "Envelope" ->
  firstChild d s1 c1 x1 d1 -> firstChild d1 s2 c2 x2 d2 ->
  Local (SName s1) = "Header" -> Local (SName s2) = "Header" ->
  SOAP2JSON (m0 ++ TStartElement env :: d)
  = '(_, _) ← soapHeader (2 * length (m0 ++ TStartElement env :: d) + 2)
                (c1 ++ TEndElement x1 :: d1) s1;
    Err (ENew "multiple SOAP headers found").
Proof.
  intros Hm Henv H1 H2 Hl1 Hl2. rewrite SOAP2JSON_envelope by assumption.
  rewrite (soapLoop_header_first _ _ _ _ _ _ _ _ H1 Hl1) by reflexivity.
  destruct (soapHeader _ _ s1) as [[h d']| | |]; cbn [mbind outcome_bind]; try reflexivity.
  destruct (firstChild_length _ _ _ _ _ H1) as [k ->].
  now rewrite (soapLoop_header_again _ _ _ _ _ _ (firstChild_next _ _ _ _ _ H2) Hl2)
    by reflexivity.
Qed.

(** [Body] twice at the start of the envelope. *)
Lemma SOAP2JSON_body_twice m0 env d s1 c1 x1 d1 s2 c2 x2 d2 :
  Forall isMisc m0 -> Local (SName env) = "Envelope" ->
  firstChild d s1 c1 x1 d1 -> firstChild d1 s2 c2 x2 d2 ->
  Local (SName s1) = "Body" -> Local (SName s2) = "Body" ->
  SOAP2JSON (m0 ++ TStartElement env :: d)
  = '(_, _) ← soapBody (2 * length (m0 ++ TStartElement env :: d) + 2)
                (c1 ++ TEndElement x1 :: d1);
    Err (ENew "multiple SOAP bodies found").
Proof.
  intros Hm Henv H1 H2 Hl1 Hl2. rewrite SOAP2JSON_envelope by assumption.
  rewrite (soapLoop_body_first _ _ _ _ _ _ _ _ H1 Hl1) by reflexivity.
  destruct (soapBody _ _) as [[[op b] d']| | |]; cbn [mbind outcome_bind]; try reflexivity.
  destruct (firstChild_length _ _ _ _ _ H1) as [k ->].
  now rewrite (soapLoop_body_again _ _ _ _ _ _ (firstChild_next _ _ _ _ _ H2) Hl2)
    by reflexivity.
Qed.

(** [Header], [Body] and a third element: the loop is done behind the
    [Body], and the third element is met where the end tag of [Envelope]
    is looked for. *)
Lemma SOAP2JSON_header_body_more m0 env d s1 c1 x1 d1 s2 c2 x2 d2 s3 c3 x3 d3 :
  Forall isMisc m0 -> Local (SName env) = "Envelope" ->
  firstChild d s1 c1 x1 d1 -> firstChild d1 s2 c2 x2 d2 -> firstChild d2 s3 c3 x3 d3 ->
  Local (SName s1) = "Header" -> Local (SName s2) = "Body" ->
  SOAP2JSON (m0 ++ TStartElement env :: d)
  = '(_, _) ← soapHeader (2 * length (m0 ++ TStartElement env :: d) + 2)
                (c1 ++ TEndElement x1 :: d1) s1;
    '(_, _) ← soapBody (2 * length (m0 ++ TStartElement env :: d) + 2)
                (c2 ++ TEndElement x2 :: d2);
    Err (Errorf "unexpected element (wanted end), got %#v" [ATok (TStartElement s3)]).
Proof.
  intros Hm Henv H1 H2 H3 Hl1 Hl2. rewrite SOAP2JSON_envelope by assumption.
  rewrite (soapLoop_header_first _ _ _ _ _ _ _ _ H1 Hl1) by reflexivity.
  destruct (soapHeader _ _ s1) as [[h d']| | |]; cbn [mbind outcome_bind]; try reflexivity.
  destruct (firstChild_length _ _ _ _ _ H1) as [k ->].
  rewrite (soapLoop_body_first _ _ _ _ _ _ _ _ H2 Hl2) by reflexivity.
  destruct (soapBody _ _) as [[[op b] d'']| | |]; cbn [mbind outcome_bind]; try reflexivity.
  rewrite soapLoop_both by reflexivity. cbn [mbind outcome_bind].
  now rewrite (firstChild_no_end _ _ _ _ _ H3).
Qed.

(** [Body], [Header] and a third element. *)
Lemma SOAP2JSON_body_header_more m0 env d s1 c1 x1 d1 s2 c2 x2 d2 s3 c3 x3 d3 :
  Forall isMisc m0 -> Local (SName env) = "Envelope" ->
  firstChild d s1 c1 x1 d1 -> firstChild d1 s2 c2 x2 d2 -> firstChild d2 s3 c3 x3 d3 ->
  Local (SName s1) = "Body" -> Local (SName s2) = "Header" ->
  SOAP2JSON (m0 ++ TStartElement env :: d)
  = '(_, _) ← soapBody (2 * length (m0 ++ TStartElement env :: d) + 2)
                (c1 ++ TEndElement x1 :: d1);
    '(_, _) ← soapHeader (2 * length (m0 ++ TStartElement env :: d) + 2)
                (c2 ++ TEndElement x2 :: d2) s2;
    Err (Errorf "unexpected element (wanted end), got %#v" [ATok (TStartElement s3)]).
Proof.
  intros Hm Henv H1 H2 H3 Hl1 Hl2. rewrite SOAP2JSON_envelope by assumption.
  rewrite (soapLoop_body_first _ _ _ _ _ _ _ _ H1 Hl1) by reflexivity.
  destruct (soapBody _ _) as [[[op b] d']| | |]; cbn [mbind outcome_bind]; try reflexivity.
  destruct (firstChild_length _ _ _ _ _ H1) as [k ->].
  rewrite (soapLoop_header_first _ _ _ _ _ _ _ _ H2 Hl2) by reflexivity.
  destruct (soapHeader _ _ s2) as [[h d'']| | |]; cbn [mbind outcome_bind]; try reflexivity.
  rewrite soapLoop_both by reflexivity. cbn [mbind outcome_bind].
  now rewrite (firstChild_no_end _ _ _ _ _ H3).
Qed.

(** C10 (as the code has it).  Take a document whose first element, maybe
    after an XML declaration, comments or white space, is the envelope,
    and whose envelope has [Header] and [Body] elements only as child
    elements, one of the two names more than once.

    - [SOAP2JSON] produces no message: it ends with an error (on a
      registry that is not in order, the translation of a section may
      panic instead).
    - When the root is called [Envelope], the first two child elements
      decide.  Both [Header]: the outcome is the failure of the
      translation of the first one if that fails, and else the error
      [multiple SOAP headers found].  Both [Body]: likewise, with
      [multiple SOAP bodies found].  One [Header] and one [Body], in
      either order: there is a third child element, and the outcome is
      the failure of the translation of the first child or else of the
      second one if one of them fails, and else the error
      [unexpected element (wanted end), got ...] about the third child
      element, from the check for the end tag of [Envelope].  The
      sections are translated with the fuel [SOAP2JSON] hands on, which
      is enough by the first part.
    - In any document, the loop answers [multiple SOAP headers found]
      ([multiple SOAP bodies found]) when it meets a [Header] (a [Body])
      after it has read one and while the other section is missing. *)
Theorem repeated_section_is_rejected :
  (forall m0 ns cs env e rest,
      Forall isMisc m0 ->
      children ns cs ->
      Forall (fun x => x = "Header" \/ x = "Body") ns ->
      (2 <= countName "Header" ns \/ 2 <= countName "Body" ns)%nat ->
      let r := m0 ++ TStartElement env :: cs ++ TEndElement e :: rest in
      (returnsError (SOAP2JSON r) \/ SOAP2JSON r = Panic)
      /\ (registryOk -> returnsError (SOAP2JSON r)))
  /\ (forall m0 ns cs env e rest,
        Forall isMisc m0 ->
        children ns cs ->
        Forall (fun x => x = "Header" \/ x = "Body") ns ->
        (2 <= countName "Header" ns \/ 2 <= countName "Body" ns)%nat ->
        Local (SName env) = "Envelope" ->
        let r := m0 ++ TStartElement env :: cs ++ TEndElement e :: rest in
        let fuel := (2 * length r + 2)%nat in
        exists s1 c1 x1 d1 s2 c2 x2 d2,
          firstChild (cs ++ TEndElement e :: rest) s1 c1 x1 d1
          /\ firstChild d1 s2 c2 x2 d2
          /\ ((Local (SName s1) = "Header" /\ Local (SName s2) = "Header"
               /\ SOAP2JSON r
                  = ('(_, _) ← soapHeader fuel (c1 ++ TEndElement x1 :: d1) s1;
                     Err (ENew "multiple SOAP headers found")))
              \/ (Local (SName s1) = "Body" /\ Local (SName s2) = "Body"
                  /\ SOAP2JSON r
                     = ('(_, _) ← soapBody fuel (c1 ++ TEndElement x1 :: d1);
                        Err (ENew "multiple SOAP bodies found")))
              \/ (exists s3 c3 x3 d3,
                     firstChild d2 s3 c3 x3 d3
                     /\ ((Local (SName s1) = "Header" /\ Local (SName s2) = "Body"
                          /\ SOAP2JSON r
                             = ('(_, _) ← soapHeader fuel (c1 ++ TEndElement x1 :: d1) s1;
                                '(_, _) ← soapBody fuel (c2 ++ TEndElement x2 :: d2);
                                Err (Errorf "unexpected element (wanted end), got %#v"
                                       [ATok (TStartElement s3)])))
                         \/ (Local (SName s1) = "Body" /\ Local (SName s2) = "Header"
                             /\ SOAP2JSON r
                                = ('(_, _) ← soapBody fuel (c1 ++ TEndElement x1 :: d1);
                                   '(_, _) ← soapHeader fuel (c2 ++ TEndElement x2 :: d2) s2;
                                   Err (Errorf "unexpected element (wanted end), got %#v"
                                          [ATok (TStartElement s3)])))))))
  /\ (forall n fuel d el d1 st,
        getNextStartElement d = Ok (el, d1) ->
        Local (SName el) = "Header" -> gotHeader st = true -> gotBody st = false ->
        soapLoop (S n) fuel d st = Err (ENew "multiple SOAP headers found"))
  /\ (forall n fuel d el d1 st,
        getNextStartElement d = Ok (el, d1) ->
        Local (SName el) = "Body" -> gotBody st = true -> gotHeader st = false ->
        soapLoop (S n) fuel d st = Err (ENew "multiple SOAP bodies found")).
Proof.
  refine (conj _ (conj _ (conj _ _))).
  - intros m0 ns cs env e rest Hm Hc Hall Htwice r.
    pose proof (SOAP2JSON_noPanic r) as Hpanic.
    destruct (SOAP2JSON r) as [[msg op] | err | |] eqn:E.
    + exfalso. unfold SOAP2JSON, r in E.
      rewrite getNextStartElement_skip in E by exact Hm.
      cbn [mbind outcome_bind] in E.
      destruct (negb (String.eqb (Local (SName env)) "Envelope")); [discriminate|].
      bind_case' E. destr_pairs. bind_case' E. destr_pairs.
      destruct (soapLoop_children _ _ _ _ _ _ _ _ _ Hc Hall E0)
        as (ns1 & ns2 & cs2 & -> & Hc2 & -> & Hh & Hb).
      apply (getNextElement_end _ _ _ _ _ _ Hc2) in E1 as [-> _].
      rewrite !countName_app in Htwice. cbn in *. lia.
    + split; [left|intros _]; now exists err.
    + split; [now right | intros Hreg; now destruct (Hpanic Hreg)].
    + exfalso. now apply (SOAP2JSON_noFuel r).
  - intros m0 ns cs env e rest Hm Hc Hall Htwice Henv r fuel.
    destruct ns as [|n1 ns]; [cbn in Htwice; lia|].
    destruct (children_firstChild _ _ _ (TEndElement e :: rest) Hc)
      as (s1 & c1 & x1 & cs1 & H1 & Hl1 & Hc1).
    apply Forall_cons in Hall as [Hn1 Hall].
    destruct ns as [|n2 ns];
      [destruct Hn1 as [-> | ->]; cbn in Htwice; lia|].
    destruct (children_firstChild _ _ _ (TEndElement e :: rest) Hc1)
      as (s2 & c2 & x2 & cs2 & H2 & Hl2 & Hc2).
    apply Forall_cons in Hall as [Hn2 Hall].
    exists s1, c1, x1, (cs1 ++ TEndElement e :: rest),
      s2, c2, x2, (cs2 ++ TEndElement e :: rest).
    split; [exact H1 | split; [exact H2|]].
    destruct Hn1 as [-> | ->], Hn2 as [-> | ->].
    + left. split; [exact Hl1 | split; [exact Hl2|]].
      exact (SOAP2JSON_header_twice _ _ _ _ _ _ _ _ _ _ _ Hm Henv H1 H2 Hl1 Hl2).
    + right. right.
      destruct ns as [|n3 ns]; [cbn in Htwice; lia|].
      destruct (children_firstChild _ _ _ (TEndElement e :: rest) Hc2)
        as (s3 & c3 & x3 & cs3 & H3 & _ & _).
      exists s3, c3, x3, (cs3 ++ TEndElement e :: rest). split; [exact H3|].
      left. split; [exact Hl1 | split; [exact Hl2|]].
      exact (SOAP2JSON_header_body_more _ _ _ _ _ _ _ _ _ _ _ _ _ _ _
               Hm Henv H1 H2 H3 Hl1 Hl2).
    + right. right.
      destruct ns as [|n3 ns]; [cbn in Htwice; lia|].
      destruct (children_firstChild _ _ _ (TEndElement e :: rest) Hc2)
        as (s3 & c3 & x3 & cs3 & H3 & _ & _).
      exists s3, c3, x3, (cs3 ++ TEndElement e :: rest). split; [exact H3|].
      right. split; [exact Hl1 | split; [exact Hl2|]].
      exact (SOAP2JSON_body_header_more _ _ _ _ _ _ _ _ _ _ _ _ _ _ _
               Hm Henv H1 H2 H3 Hl1 Hl2).
    + right. left. split; [exact Hl1 | split; [exact Hl2|]].
      exact (SOAP2JSON_body_twice _ _ _ _ _ _ _ _ _ _ _ Hm Henv H1 H2 Hl1 Hl2).
  - intros n fuel d el d1 st. apply soapLoop_header_again.
  - intros n fuel d el d1 st. apply soapLoop_body_again.
Qed.


(* ================================================================== *)
(** * Further properties of the translators *)
(* ================================================================== *)

(* ------------------------------------------------------------------ *)
(** ** [OrderedObject]: the index and the members agree *)
(* ------------------------------------------------------------------ *)

(** [keys] records a key at [i] exactly when the member at [i] has this
    key. *)
Definition keysExact (o : OrderedObject) : Prop :=
  forall k i, keys o !! k = Some i <-> exists v, Object o !! i = Some (k, v).

Lemma keysExact_sound o : keysExact o -> keysSound o.
Proof. intros H k i Hk. now apply H. Qed.

Lemma keysExact_new : keysExact NewOrderedObject.
Proof.
  intros k i. cbn. rewrite lookup_empty. split; [discriminate|].
  intros [v Hv]. destruct i; discriminate.
Qed.

Lemma keysExact_NoDup o : keysExact o -> NoDup (fst <$> Object o).
Proof.
  intros H. apply NoDup_alt. intros i j k Hi Hj.
  rewrite list_lookup_fmap in Hi, Hj.
  destruct (Object o !! i) as [[k1 v1]|] eqn:Ei; [|discriminate].
  destruct (Object o !! j) as [[k2 v2]|] eqn:Ej; [|discriminate].
  cbn in Hi, Hj. injection Hi as ->. injection Hj as ->.
  assert (H1 : keys o !! k = Some i) by (apply (proj2 (H k i)); eexists; eassumption).
  assert (H2 : keys o !! k = Some j) by (apply (proj2 (H k j)); eexists; eassumption).
  congruence.
Qed.

Lemma Set_keysExact o k v o' b :
  keysExact o -> Set_ o k v = Ok (o', b) -> keysExact o'.
Proof.
  intros Hs H. unfold Set_ in H.
  destruct (keys o !! k) as [idx|] eqn:Ek.
  - destruct (Object o !! idx) as [[km vm]|] eqn:Em; [|discriminate].
    injection H as <- <-.
    assert (km = k) as ->.
    { apply Hs in Ek as [w Hw]. rewrite Em in Hw. now injection Hw. }
    intros k' i. cbn [keys Object fst]. rewrite (Hs k' i).
    destruct (decide (i = idx)) as [->|Hne].
    + rewrite list_lookup_insert_eq by (eapply lookup_lt_Some; eauto).
      rewrite Em. split; intros [w Hw]; injection Hw as ->; now eexists.
    + now rewrite list_lookup_insert_ne by congruence.
  - injection H as <- <-. intros k' i. cbn [keys Object].
    destruct (decide (i = length (Object o))) as [->|Hne].
    + rewrite lookup_app_r, Nat.sub_diag by lia. cbn. split.
      * intros Hk. destruct (decide (k = k')) as [->|Hkk]; [now eexists|].
        rewrite lookup_insert_ne in Hk by exact Hkk.
        apply Hs in Hk as [w Hw]. apply lookup_lt_Some in Hw. lia.
      * intros [w Hw]. injection Hw as -> _. apply lookup_insert_eq.
    + destruct (decide (k = k')) as [->|Hkk].
      * rewrite lookup_insert_eq. split; [intros Hi; injection Hi as <-; lia|].
        intros [w Hw]. exfalso.
        destruct (decide (i < length (Object o))%nat) as [Hlt|Hge].
        -- rewrite lookup_app_l in Hw by exact Hlt.
           assert (Hk : keys o !! k' = Some i) by (apply (proj2 (Hs k' i)); eexists; eassumption).
           congruence.
        -- rewrite lookup_app_r in Hw by lia.
           destruct (i - length (Object o))%nat as [|n] eqn:En; [lia|]. discriminate.
      * rewrite lookup_insert_ne by exact Hkk. rewrite (Hs k' i).
        destruct (decide (i < length (Object o))%nat) as [Hlt|Hge].
        -- now rewrite lookup_app_l by exact Hlt.
        -- split; intros [w Hw].
           ++ apply lookup_lt_Some in Hw. lia.
           ++ rewrite lookup_app_r in Hw by lia.
              destruct (i - length (Object o))%nat as [|n] eqn:En; [lia|]. discriminate.
Qed.

Lemma Get_present o k i v :
  keys o !! k = Some i -> Object o !! i = Some (k, v) -> Get o k = Ok (v, true).
Proof. intros Hk Hi. unfold Get. now rewrite Hk, Hi. Qed.

Lemma Get_missing o k : keys o !! k = None -> Get o k = Ok (VNil, false).
Proof. intros Hk. unfold Get. now rewrite Hk. Qed.

Lemma Set_spec (o : OrderedObject) (k : string) (v : value) :
  keysExact o ->
  exists o' added,
    Set_ o k v = Ok (o', added)
    /\ keysExact o'
    /\ Get o' k = Ok (v, true)
    /\ (forall k', k' <> k -> Get o' k' = Get o k')
    /\ (added = true <-> Get o k = Ok (VNil, false))
    /\ fst <$> Object o' = (if added then (fst <$> Object o) ++ [k] else fst <$> Object o)
    /\ NoDup (fst <$> Object o').
Proof.
  intros Hs.
  assert (Hok : exists o' added, Set_ o k v = Ok (o', added)).
  { unfold Set_. destruct (keys o !! k) as [idx|] eqn:Ek; [|now do 2 eexists].
    apply Hs in Ek as [w ->]. now do 2 eexists. }
  destruct Hok as (o' & added & H). exists o', added.
  pose proof (Set_keysExact _ _ _ _ _ Hs H) as Hs'.
  split; [exact H | split; [exact Hs'|]].
  unfold Set_ in H. destruct (keys o !! k) as [idx|] eqn:Ek.
  - pose proof Ek as Ek'. apply Hs in Ek' as [w Hw]. rewrite Hw in H.
    injection H as <- <-. cbn [fst].
    assert (Hlt : (idx < length (Object o))%nat) by (eapply lookup_lt_Some; eauto).
    refine (conj _ (conj _ (conj _ (conj _ _)))).
    + apply (Get_present _ _ idx); [exact Ek|]. cbn [Object].
      now rewrite list_lookup_insert_eq.
    + intros k' Hne. unfold Get. cbn [keys Object].
      destruct (keys o !! k') as [i|] eqn:Ek1; [|reflexivity].
      assert (i <> idx).
      { intros ->. apply Hs in Ek1 as [w1 Hw1]. congruence. }
      now rewrite list_lookup_insert_ne by congruence.
    + split; [discriminate|]. unfold Get. rewrite Ek, Hw. discriminate.
    + cbn [Object]. rewrite list_fmap_insert. cbn [fst].
      apply list_insert_id. rewrite list_lookup_fmap, Hw. reflexivity.
    + now apply keysExact_NoDup in Hs'.
  - injection H as <- <-.
    refine (conj _ (conj _ (conj _ (conj _ _)))).
    + apply (Get_present _ _ (length (Object o))); cbn [keys Object].
      * apply lookup_insert_eq.
      * now rewrite lookup_app_r, Nat.sub_diag by lia.
    + intros k' Hne. unfold Get. cbn [keys Object].
      rewrite lookup_insert_ne by congruence.
      destruct (keys o !! k') as [i|] eqn:Ek1; [|reflexivity].
      apply Hs in Ek1 as [w1 Hw1].
      rewrite lookup_app_l by (eapply lookup_lt_Some; eauto). now rewrite Hw1.
    + split; [intros _; now apply Get_missing | reflexivity].
    + cbn [Object]. now rewrite fmap_app.
    + now apply keysExact_NoDup in Hs'.
Qed.

Lemma Set_appends o k v o' :
  Set_ o k v = Ok (o', true) -> Object o' = Object o ++ [(k, v)].
Proof.
  unfold Set_. destruct (keys o !! k) as [idx|].
  - destruct (Object o !! idx); discriminate.
  - intros H. now injection H as <-.
Qed.

Lemma Get_outcome o k :
  keysExact o -> (exists v, Get o k = Ok (v, true)) \/ Get o k = Ok (VNil, false).
Proof.
  intros Hs. unfold Get. destruct (keys o !! k) as [idx|] eqn:Ek; [|now right].
  apply Hs in Ek as [w ->]. left. now eexists.
Qed.

(** X1: on an object whose index agrees with its members, [Set] always
    succeeds and keeps the agreement; afterwards [Get] of the key returns
    the value, [Get] of every other key is as before, the flag tells
    whether the key was new, a new key goes to the end and an old one
    keeps its place, and no key occurs twice. *)
Theorem Set_then_Get (o : OrderedObject) (k : string) (v : value) :
  keysExact o ->
  exists o' added,
    Set_ o k v = Ok (o', added)
    /\ keysExact o'
    /\ Get o' k = Ok (v, true)
    /\ (forall k', k' <> k -> Get o' k' = Get o k')
    /\ (added = true <-> Get o k = Ok (VNil, false))
    /\ fst <$> Object o' = (if added then (fst <$> Object o) ++ [k] else fst <$> Object o)
    /\ NoDup (fst <$> Object o').
Proof. exact (Set_spec o k v). Qed.

(* ------------------------------------------------------------------ *)
(** ** What holds of every object [processElement] builds *)
(* ------------------------------------------------------------------ *)

Section ObjectInvariant.

(** A property of objects that [NewOrderedObject] has and [Set] keeps. *)
Variable P : OrderedObject -> Prop.
Hypothesis P_new : P NewOrderedObject.
Hypothesis P_set : forall o k v o' b, P o -> Set_ o k v = Ok (o', b) -> P o'.

(** The object of a frame has the property, and [ret] holds no object of
    its own. *)
Definition frameHas (fr : frame) : Prop :=
  (forall o, f_obj fr = Some o -> P o)
  /\ (forall ms, f_ret fr <> RVal (VObject ms)).

Lemma frameHas_empty : frameHas emptyFrame.
Proof. split; [intros o H; discriminate | intros ms; discriminate]. Qed.

Lemma newTypedObject_has typ o : newTypedObject typ = Ok o -> P o.
Proof.
  unfold newTypedObject. destruct (negb (String.eqb (JsonType typ) "")).
  - intros H. bind_case H. destr_pairs. injection H as <-. eapply P_set; eauto.
  - intros H. now injection H as <-.
Qed.

Lemma setAttrs_has typ attrs : forall o o',
  P o -> setAttrs typ attrs o = Ok o' -> P o'.
Proof.
  induction attrs as [|attr attrs IH]; intros o o' Ho H; cbn in H.
  - now injection H as <-.
  - destruct (notXmlns attr); [|now apply (IH o)].
    destruct (Attrs typ !! Local (AttrName attr)) as [atype|]; [|discriminate].
    destruct (deref atype) as [aty|]; [|discriminate].
    bind_case H. destr_pairs. apply (IH o0); [|exact H]. eapply P_set; eauto.
Qed.

Lemma initRetObject_has el typ simple fr :
  initRetObject el typ simple = Ok fr -> frameHas fr.
Proof.
  intros H. unfold initRetObject in H.
  destruct (negb (IsSimple typ) || negb (String.eqb (TextAttr typ) ""));
    [|injection H as <-; apply frameHas_empty].
  destruct (negb (String.eqb (JsonListName typ) "") || IsList typ).
  - destruct (existsb notXmlns (SAttr el)); [discriminate|].
    destruct (negb (String.eqb (JsonListName typ) "")).
    + bind_case H. bind_case H. destr_pairs. injection H as <-.
      split; [|intros ms; discriminate].
      intros o' Ho'. injection Ho' as <-.
      eapply P_set; [|exact E0]. eapply newTypedObject_has; eauto.
    + injection H as <-. split; [intros o Ho; discriminate | intros ms; discriminate].
  - bind_case H. bind_case H. injection H as <-.
    split; [|intros ms; discriminate].
    intros o' Ho'. injection Ho' as <-.
    eapply setAttrs_has; [|exact E0]. eapply newTypedObject_has; eauto.
Qed.

Lemma initIfNil_has el typ simple fr fr' :
  frameHas fr -> initIfNil el typ simple fr = Ok fr' -> frameHas fr'.
Proof.
  intros Hfr H. unfold initIfNil in H.
  destruct (f_ret fr); try (now injection H as <-).
  eapply initRetObject_has; eauto.
Qed.

Lemma installChild_has typ nextElem newItem fr fr' :
  frameHas fr -> installChild typ nextElem newItem fr = Ok fr' -> frameHas fr'.
Proof.
  intros [Hobj Hret] H. unfold installChild in H.
  destruct (negb (String.eqb (JsonListName typ) "")).
  { destruct (f_obj fr) as [o|] eqn:Eo; [|discriminate]. cbn in H.
    bind_case H. destr_pairs. injection H as <-.
    split; [|exact Hret].
    intros o' Ho'. injection Ho' as <-. eapply P_set; [apply Hobj; reflexivity | exact E]. }
  destruct (IsList typ).
  { injection H as <-. split; [exact Hobj | intros ms; discriminate]. }
  destruct (xeIsList nextElem).
  { destruct (f_obj fr) as [o|] eqn:Eo; [|discriminate]. cbn in H.
    specialize (Hobj o eq_refl).
    bind_case H. destr_pairs. destruct b.
    - destruct v; try discriminate. bind_case H. destr_pairs. injection H as <-.
      split; [|exact Hret]. intros o' Ho'. injection Ho' as <-. eapply P_set; eauto.
    - bind_case H. destr_pairs. injection H as <-.
      split; [|exact Hret]. intros o' Ho'. injection Ho' as <-. eapply P_set; eauto. }
  bind_case H.
  destruct (f_obj fr) as [o|] eqn:Eo; [|discriminate]. cbn in H.
  specialize (Hobj o eq_refl).
  bind_case H. destr_pairs. destruct b; [|discriminate]. injection H as <-.
  split; [|exact Hret]. intros o' Ho'. injection Ho' as <-. eapply P_set; eauto.
Qed.

Lemma charData_has el typ s fr fr' :
  frameHas fr -> charData el typ s fr = Ok fr' -> frameHas fr'.
Proof.
  intros Hfr H. unfold charData in H.
  destruct (String.length (Trim s trimCutset) =? 0)%nat; [now injection H as <-|].
  bind_case H.
  pose proof (initIfNil_has _ _ _ _ _ Hfr E) as [Hobj Hret].
  destruct (negb (String.eqb (TextAttr typ) "")).
  - destruct (f_obj a) as [o|] eqn:Eo; [|discriminate]. cbn in H.
    bind_case H. destr_pairs. injection H as <-.
    split; [|intros ms; discriminate].
    intros o' Ho'. injection Ho' as <-. eapply P_set; [apply Hobj; reflexivity | exact E0].
  - injection H as <-. split; [exact Hobj|].
    intros ms Hms. cbn in Hms. injection Hms as Hms.
    now apply convertSimpleToJson_scalar in Hms.
Qed.

Lemma insertDefaults_has defaults : forall o o',
  P o -> insertDefaults defaults o = Ok o' -> P o'.
Proof.
  induction defaults as [|e rest IH]; intros o o' Ho H; cbn in H.
  - now injection H as <-.
  - bind_case H. destr_pairs. destruct b; [now apply (IH o)|].
    bind_case H. destr_pairs. apply (IH o0); [|exact H]. eapply P_set; eauto.
Qed.

Lemma applyJsonHook_has h t o o' : P o -> applyJsonHook h t o = Ok o' -> P o'.
Proof.
  intros Ho H. destruct h. cbn in H.
  bind_case H. destr_pairs. destruct b; [now injection H as <-|].
  bind_case H. destr_pairs. injection H as <-. eapply P_set; eauto.
Qed.

Lemma finishElement_has typ fr ms :
  frameHas fr -> finishElement typ fr = Ok (VObject ms) ->
  exists o, P o /\ ms = Object o.
Proof.
  intros [Hobj Hret] H. unfold finishElement in H.
  destruct (f_ret fr) eqn:Er.
  - discriminate.
  - destruct (f_obj fr) as [o|] eqn:Eo; [|discriminate]. cbn in H.
    bind_case H. bind_case H. injection H as <-.
    exists a0. split; [|reflexivity].
    assert (Ha : P a) by (eapply insertDefaults_has; [apply Hobj; reflexivity | exact E]).
    destruct (JsonHook typ) as [h|].
    + eapply applyJsonHook_has; eauto.
    + now injection E0 as <-.
  - injection H as ->. exfalso. now apply (Hret ms).
Qed.

Lemma elementLoop_has fuel : forall d el typ fr ms d',
  frameHas fr ->
  elementLoop fuel d el typ fr = Ok (VObject ms, d') ->
  exists o, P o /\ ms = Object o.
Proof.
  induction fuel as [|fuel IH]; intros d el typ fr ms d' Hfr H; [discriminate|].
  cbn in H. destruct d as [|tok d1]; [discriminate|]. cbn in H.
  destruct tok.
  - bind_case H.
    destruct (TypeByElementName typ !! Local (SName el0)) as [nextElem|]; [|discriminate].
    bind_case H. destr_pairs. bind_case H.
    eapply IH; [|exact H].
    eapply installChild_has; [|exact E1]. eapply initIfNil_has; eauto.
  - bind_case H. injection H as -> <-. eapply finishElement_has; eauto.
  - bind_case H. eapply IH; [|exact H]. eapply charData_has; eauto.
  - eapply IH; eauto.
  - eapply IH; eauto.
  - eapply IH; eauto.
Qed.

Lemma processElement_has fuel d el typ ms d' :
  processElement fuel d el typ = Ok (VObject ms, d') ->
  exists o, P o /\ ms = Object o.
Proof.
  intros H. destruct fuel as [|fuel]; [discriminate|]. cbn in H.
  destruct typ as [typ|]; [|discriminate].
  bind_case H. eapply elementLoop_has; [|exact H].
  destruct (length (SAttr el) =? 0)%nat.
  - injection E as <-. apply frameHas_empty.
  - eapply initRetObject_has; eauto.
Qed.

End ObjectInvariant.

(** X2: an object that [processElement] returns never has two members with
    the same key, whatever the registry and the input are. *)
Theorem translated_object_has_distinct_keys fuel d el typ ms d' :
  processElement fuel d el typ = Ok (VObject ms, d') ->
  NoDup (fst <$> ms).
Proof.
  intros H.
  destruct (processElement_has keysExact keysExact_new Set_keysExact _ _ _ _ _ _ H)
    as (o & Ho & ->).
  now apply keysExact_NoDup.
Qed.

(* ------------------------------------------------------------------ *)
(** ** Defaults and the hook of [ResolveNamesType] *)
(* ------------------------------------------------------------------ *)

Lemma insertDefaults_spec defaults : forall o,
  keysExact o ->
  exists o',
    insertDefaults defaults o = Ok o'
    /\ keysExact o'
    /\ Object o `prefix_of` Object o'
    /\ (forall k v, Get o k = Ok (v, true) -> Get o' k = Ok (v, true))
    /\ (forall e, e ∈ defaults ->
          (exists v, Get o (jdJsonName e) = Ok (v, true))
          \/ exists e0, e0 ∈ defaults /\ jdJsonName e0 = jdJsonName e
                        /\ Get o' (jdJsonName e) = Ok (jdJsonDefault e0, true))
    /\ (forall k v, Get o' k = Ok (v, true) ->
          Get o k = Ok (v, true) \/ k ∈ (jdJsonName <$> defaults)).
Proof.
  induction defaults as [|e rest IH]; intros o Hs; cbn [insertDefaults].
  - exists o. split; [reflexivity|]. split; [exact Hs|]. split; [reflexivity|].
    split; [auto|]. split; [intros e He; inversion He | intros k v Hv; now left].
  - destruct (Get_outcome o (jdJsonName e) Hs) as [[v0 Hg] | Hg]; rewrite Hg;
      cbn [mbind outcome_bind].
    + destruct (IH o Hs) as (o' & Hi & Hs' & Hpre & Hkeep & Hdef & Hdom).
      exists o'. split; [exact Hi|]. split; [exact Hs'|]. split; [exact Hpre|].
      split; [exact Hkeep|]. split.
      * intros e1 He1. apply elem_of_cons in He1 as [-> | He1]; [left; eexists; exact Hg|].
        destruct (Hdef e1 He1) as [Hl | (e0 & He0 & Hn & Hv)]; [now left|].
        right. exists e0. split; [now right | now split].
      * intros k v Hv. destruct (Hdom k v Hv) as [Hl | Hr]; [now left|].
        right. cbn. now right.
    + destruct (Set_spec o (jdJsonName e) (jdJsonDefault e) Hs)
        as (o1 & added & HS & Hs1 & Hget & Hother & Hadd & _ & _).
      assert (added = true) as -> by now apply Hadd.
      rewrite HS. cbn [mbind outcome_bind].
      destruct (IH o1 Hs1) as (o' & Hi & Hs' & Hpre & Hkeep & Hdef & Hdom).
      exists o'. split; [exact Hi|]. split; [exact Hs'|]. split.
      { etrans; [|exact Hpre]. rewrite (Set_appends _ _ _ _ HS). now apply prefix_app_r. }
      split.
      { intros k v Hv. apply Hkeep.
        destruct (decide (k = jdJsonName e)) as [->|Hne]; [congruence|].
        now rewrite Hother. }
      split.
      * intros e1 He1. apply elem_of_cons in He1 as [-> | He1].
        { right. exists e. split; [now left | split; [reflexivity | now apply Hkeep]]. }
        destruct (decide (jdJsonName e1 = jdJsonName e)) as [Heq|Hne].
        { right. exists e. split; [now left | split; [now symmetry|]].
          rewrite Heq. now apply Hkeep. }
        destruct (Hdef e1 He1) as [[v Hv] | (e0 & He0 & Hn & Hv)].
        -- left. exists v. now rewrite <- Hother.
        -- right. exists e0. split; [now right | now split].
      * intros k v Hv. destruct (Hdom k v Hv) as [Hl | Hr].
        -- destruct (decide (k = jdJsonName e)) as [->|Hne]; [right; now left|].
           left. now rewrite <- Hother.
        -- right. cbn. now right.
Qed.

(** X3: on an object whose index agrees with its members, the defaults of
    a type are always put in without failure; the members present before
    stay where they are with their values, a default is only added at the
    end for a key that was absent, afterwards every default key is
    present, and no other key was added. *)
Theorem defaults_only_fill_gaps (defaults : list EwsXmlJsonDefault) (o : OrderedObject) :
  keysExact o ->
  exists o',
    insertDefaults defaults o = Ok o'
    /\ keysExact o'
    /\ Object o `prefix_of` Object o'
    /\ (forall k v, Get o k = Ok (v, true) -> Get o' k = Ok (v, true))
    /\ (forall e, e ∈ defaults ->
          (exists v, Get o (jdJsonName e) = Ok (v, true))
          \/ exists e0, e0 ∈ defaults /\ jdJsonName e0 = jdJsonName e
                        /\ Get o' (jdJsonName e) = Ok (jdJsonDefault e0, true))
    /\ (forall k v, Get o' k = Ok (v, true) ->
          Get o k = Ok (v, true) \/ k ∈ (jdJsonName <$> defaults)).
Proof. exact (insertDefaults_spec defaults o). Qed.

(* ------------------------------------------------------------------ *)
(** ** Where [processElement] leaves the decoder *)
(* ------------------------------------------------------------------ *)

(** X4: when the tokens after the start tag are the well-nested content
    of the element followed by its end tag, a successful [processElement]
    leaves the decoder right behind that end tag: it consumes the end
    element, as [processSoapElement] expects of it. *)
Theorem element_is_read_to_its_end_tag inner c fuel el typ n rest v d' :
  children inner c ->
  processElement fuel (c ++ TEndElement n :: rest) el typ = Ok (v, d') ->
  d' = rest.
Proof.
  intros Hc H. destruct fuel as [|fuel]; [discriminate|]. cbn in H.
  destruct typ as [typ|]; [|discriminate]. bind_case H.
  eapply elementLoop_exact; eauto.
Qed.

(* ------------------------------------------------------------------ *)
(** ** Documents [SOAP2JSON] does not start on *)
(* ------------------------------------------------------------------ *)



(** X6: on a registry that is in order (the attribute types are
    registered, and the flags of a type do not contradict each other),
    [SOAP2JSON] ends on every token stream with a message or with an
    error: it neither panics nor runs on. *)
Theorem SOAP2JSON_returns (r : list Token) :
  registryOk ->
  (exists msg op, SOAP2JSON r = Ok (msg, op)) \/ returnsError (SOAP2JSON r).
Proof.
  intros Hreg. pose proof (SOAP2JSON_noPanic r Hreg) as Hp.
  pose proof (SOAP2JSON_noFuel r) as Hf.
  destruct (SOAP2JSON r) as [[msg op] | e | |]; try contradiction.
  - left. now do 2 eexists.
  - right. now eexists.
Qed.

(* ------------------------------------------------------------------ *)
(** ** Elements without child elements *)
(* ------------------------------------------------------------------ *)

Lemma setAttrs_filter typ attrs : forall o,
  setAttrs typ (List.filter notXmlns attrs) o = setAttrs typ attrs o.
Proof.
  induction attrs as [|attr attrs IH]; intros o; [reflexivity|].
  cbn [List.filter]. destruct (notXmlns attr) eqn:E.
  - cbn [setAttrs]. rewrite E.
    destruct (Attrs typ !! Local (AttrName attr)) as [atype|]; [|reflexivity].
    destruct (deref atype) as [aty|]; [|reflexivity].
    destruct (Set_ o _ _) as [[o1 b]| | |]; cbn [mbind outcome_bind]; try reflexivity.
    apply IH.
  - cbn [setAttrs]. rewrite E. apply IH.
Qed.

Lemma existsb_filter_notXmlns attrs :
  existsb notXmlns (List.filter notXmlns attrs) = existsb notXmlns attrs.
Proof.
  induction attrs as [|attr attrs IH]; [reflexivity|].
  cbn [List.filter]. destruct (notXmlns attr) eqn:E; cbn [existsb]; rewrite E; cbn;
    [reflexivity | exact IH].
Qed.

(** X7: namespace declarations ([xmlns] and [xmlns:p] attributes) are
    never translated: the object made for an element is the one made
    without them.  Their presence alone still matters: an element with no
    content translates to nil when it has no attribute at all, but to an
    object (the type hint, then the defaults) when it is of an object type
    and carries nothing but namespace declarations. *)
Theorem namespace_declarations_are_not_translated :
  (forall name attrs typ simple,
      initRetObject (mkStart name attrs) typ simple
      = initRetObject (mkStart name (List.filter notXmlns attrs)) typ simple)
  /\ (forall fuel name n rest typ,
        processElement (S (S fuel)) (TEndElement n :: rest) (mkStart name []) (Some typ)
        = Ok (VNil, rest))
  /\ (forall fuel name attr attrs n rest typ,
        Forall (fun a => notXmlns a = false) (attr :: attrs) ->
        IsSimple typ = false -> JsonListName typ = "" -> IsList typ = false ->
        JsonType typ <> "" -> JsonHook typ = None ->
        exists o,
          insertDefaults (JsonDefaults typ)
            (mkObj [("__type", VString (JsonType typ))] {[ "__type" := 0%nat ]}) = Ok o
          /\ processElement (S (S fuel)) (TEndElement n :: rest)
               (mkStart name (attr :: attrs)) (Some typ)
             = Ok (VObject (Object o), rest)).
Proof.
  refine (conj _ (conj _ _)).
  - intros name attrs typ simple. unfold initRetObject. cbn [SAttr].
    rewrite existsb_filter_notXmlns.
    destruct (negb (IsSimple typ) || negb (String.eqb (TextAttr typ) "")); [|reflexivity].
    destruct (negb (String.eqb (JsonListName typ) "") || IsList typ); [reflexivity|].
    destruct (newTypedObject typ) as [o| | |]; cbn [mbind outcome_bind]; try reflexivity.
    now rewrite setAttrs_filter.
  - reflexivity.
  - intros fuel name attr attrs n rest typ Hall Hs Hl Hil Hjt Hh.
    assert (Hexact : keysExact (mkObj [("__type", VString (JsonType typ))]
                                      {[ "__type" := 0%nat ]})).
    { intros k i. cbn [keys Object]. rewrite lookup_singleton_Some. split.
      - intros [<- <-]. now eexists.
      - intros [v Hv]. destruct i as [|i]; [|destruct i; discriminate].
        now injection Hv as <- _. }
    destruct (insertDefaults_spec (JsonDefaults typ) _ Hexact) as (o & Ho & _).
    exists o. split; [exact Ho|].
    assert (Hfilter : List.filter notXmlns (attr :: attrs) = []).
    { clear -Hall. induction Hall as [|a l Ha _ IH]; [reflexivity|].
      cbn. now rewrite Ha. }
    assert (Hinit : initRetObject (mkStart name (attr :: attrs)) typ false
                    = Ok (mkFrame (Some (mkObj [("__type", VString (JsonType typ))]
                                               {[ "__type" := 0%nat ]})) [] RObj)).
    { unfold initRetObject, newTypedObject. cbn [SAttr].
      rewrite Hs, Hl, Hil. cbn [negb orb String.eqb].
      apply String.eqb_neq in Hjt. rewrite Hjt. cbn [negb].
      rewrite Set_new. cbn [mbind outcome_bind].
      rewrite <- setAttrs_filter, Hfilter. reflexivity. }
    cbn [processElement SAttr length Nat.eqb]. rewrite Hinit.
    cbn [mbind outcome_bind elementLoop nextToken].
    unfold finishElement. cbn [f_ret f_obj withObj]. rewrite Ho, Hh. reflexivity.
Qed.

(** X8: an element of a simple type without text key translates to its
    character data alone: the trimmed text, converted by the kind of the
    type, when there is any; nil when the text is blank or missing.  The
    attributes of such an element are dropped without a trace. *)
Theorem simple_element_is_its_text (fuel : nat) (el : StartElement) (typ : EwsType)
    (s : string) (n : XmlName) (rest : list Token) :
  IsSimple typ = true -> TextAttr typ = "" ->
  (String.length (Trim s trimCutset) <> 0%nat ->
   processElement (S (S (S fuel))) (TCharData s :: TEndElement n :: rest) el (Some typ)
   = Ok (convertSimpleToJson typ (Trim s trimCutset), rest))
  /\ (String.length (Trim s trimCutset) = 0%nat ->
      processElement (S (S (S fuel))) (TCharData s :: TEndElement n :: rest) el (Some typ)
      = Ok (VNil, rest))
  /\ processElement (S (S fuel)) (TEndElement n :: rest) el (Some typ) = Ok (VNil, rest).
Proof.
  intros Hs Ht.
  assert (Hfr : (if (length (SAttr el) =? 0)%nat then Ok emptyFrame
                 else initRetObject el typ false) = Ok emptyFrame).
  { destruct (length (SAttr el) =? 0)%nat; [reflexivity | now apply initRetObject_leaf]. }
  refine (conj _ (conj _ _)).
  - intros Hlen. cbn [processElement]. rewrite Hfr.
    cbn [mbind outcome_bind elementLoop nextToken]. unfold charData.
    apply Nat.eqb_neq in Hlen. rewrite Hlen.
    unfold initIfNil. cbn [f_ret emptyFrame]. rewrite initRetObject_leaf by assumption.
    cbn [mbind outcome_bind]. rewrite Ht. cbn [String.eqb negb].
    cbn [f_obj f_listObj emptyFrame mbind outcome_bind]. reflexivity.
  - intros Hlen. cbn [processElement]. rewrite Hfr.
    cbn [mbind outcome_bind elementLoop nextToken]. unfold charData.
    apply Nat.eqb_eq in Hlen. rewrite Hlen. reflexivity.
  - cbn [processElement]. rewrite Hfr. reflexivity.
Qed.

(* ------------------------------------------------------------------ *)
(** ** The translation depends on the tokens it reads only *)
(* ------------------------------------------------------------------ *)

Lemma processElement_eq fuel d el typ :
  processElement (S fuel) d el (Some typ)
  = fr ← (if (length (SAttr el) =? 0)%nat then Ok emptyFrame
          else initRetObject el typ false);
    elementLoop fuel d el typ fr.
Proof. reflexivity. Qed.

Lemma elementLoop_eq fuel d el typ fr :
  elementLoop (S fuel) d el typ fr
  = '(tok, d1) ← nextToken d;
    match tok with
    | TStartElement tokel =>
        fr1 ← initIfNil el typ false fr;
        match TypeByElementName typ !! Local (SName tokel) with
        | None => Err (Errorf "unknown type %s" [AStr (Local (SName tokel))])
        | Some nextElem =>
            '(newItem, d2) ← processElement fuel d1 tokel (deref (xeType nextElem));
            fr2 ← installChild typ nextElem newItem fr1;
            elementLoop fuel d2 el typ fr2
        end
    | TEndElement _ => v ← finishElement typ fr; Ok (v, d1)
    | TCharData s => fr1 ← charData el typ s fr; elementLoop fuel d1 el typ fr1
    | _ => elementLoop fuel d1 el typ fr
    end.
Proof. reflexivity. Qed.

Lemma nonempty_length {A} (p : list A) : p <> [] -> (1 <= length p)%nat.
Proof. destruct p; [contradiction | cbn; lia]. Qed.

(** A successful run read a nonempty prefix [p] of the tokens, and gives
    the same result on [p] followed by anything else, with any fuel that
    covers [p]. *)
Lemma translate_local fuel :
  (forall d el typ v d',
      processElement fuel d el typ = Ok (v, d') ->
      exists p, d = p ++ d' /\ p <> []
        /\ forall fuel' x, (length p < fuel')%nat ->
             processElement fuel' (p ++ x) el typ = Ok (v, x))
  /\ (forall d el typ fr v d',
        elementLoop fuel d el typ fr = Ok (v, d') ->
        exists p, d = p ++ d' /\ p <> []
          /\ forall fuel' x, (length p <= fuel')%nat ->
               elementLoop fuel' (p ++ x) el typ fr = Ok (v, x)).
Proof.
  induction fuel as [|fuel [IHp IHl]]; [split; intros; discriminate|].
  split.
  - intros d el typ v d' H. destruct typ as [typ|]; [|discriminate].
    rewrite processElement_eq in H.
    destruct (if (length (SAttr el) =? 0)%nat then Ok emptyFrame
              else initRetObject el typ false) as [fr| | |] eqn:E;
      cbn [mbind outcome_bind] in H; try discriminate.
    destruct (IHl _ _ _ _ _ _ H) as (p & -> & Hne & Hp).
    exists p. split; [reflexivity | split; [exact Hne|]].
    intros fuel' x Hlt. destruct fuel' as [|fuel']; [lia|].
    rewrite processElement_eq, E. cbn [mbind outcome_bind]. apply Hp. lia.
  - intros d el typ fr v d' H. rewrite elementLoop_eq in H.
    destruct d as [|tok d1]; [discriminate|]. cbn [nextToken mbind outcome_bind] in H.
    assert (Hskip : forall fr1,
               elementLoop fuel d1 el typ fr1 = Ok (v, d') ->
               (forall fuel' d2, elementLoop (S fuel') (tok :: d2) el typ fr
                                 = elementLoop fuel' d2 el typ fr1) ->
               exists p, tok :: d1 = p ++ d' /\ p <> []
                 /\ forall fuel' x, (length p <= fuel')%nat ->
                      elementLoop fuel' (p ++ x) el typ fr = Ok (v, x)).
    { intros fr1 H1 Hstep. destruct (IHl _ _ _ _ _ _ H1) as (p & -> & Hne & Hp).
      exists (tok :: p). split; [reflexivity | split; [discriminate|]].
      intros fuel' x Hle. destruct fuel' as [|fuel']; [cbn in Hle; lia|].
      cbn [app]. rewrite Hstep. apply Hp. cbn in Hle. lia. }
    destruct tok as [tokel|n|s|s|t i|s].
    + destruct (initIfNil el typ false fr) as [fr1| | |] eqn:E1;
        cbn [mbind outcome_bind] in H; try discriminate.
      destruct (TypeByElementName typ !! Local (SName tokel)) as [nextElem|] eqn:En;
        [|discriminate].
      destruct (processElement fuel d1 tokel (deref (xeType nextElem)))
        as [[newItem d2]| | |] eqn:E2; cbn [mbind outcome_bind] in H; try discriminate.
      destruct (installChild typ nextElem newItem fr1) as [fr2| | |] eqn:E3;
        cbn [mbind outcome_bind] in H; try discriminate.
      destruct (IHp _ _ _ _ _ E2) as (p1 & -> & Hne1 & Hp1).
      destruct (IHl _ _ _ _ _ _ H) as (p2 & -> & Hne2 & Hp2).
      exists (TStartElement tokel :: p1 ++ p2).
      split; [cbn; now rewrite <- app_assoc | split; [discriminate|]].
      intros fuel' x Hle. cbn [length] in Hle. rewrite length_app in Hle.
      pose proof (nonempty_length _ Hne2).
      destruct fuel' as [|fuel']; [lia|].
      rewrite elementLoop_eq. cbn [app nextToken mbind outcome_bind].
      rewrite E1. cbn [mbind outcome_bind]. rewrite En, <- app_assoc.
      rewrite (Hp1 fuel' (p2 ++ x)) by lia. cbn [mbind outcome_bind].
      rewrite E3. cbn [mbind outcome_bind]. apply Hp2. lia.
    + destruct (finishElement typ fr) as [v0| | |] eqn:E1;
        cbn [mbind outcome_bind] in H; try discriminate.
      injection H as <- <-. exists [TEndElement n].
      split; [reflexivity | split; [discriminate|]].
      intros fuel' x Hle. destruct fuel' as [|fuel']; [cbn in Hle; lia|].
      rewrite elementLoop_eq. cbn [app nextToken mbind outcome_bind]. now rewrite E1.
    + destruct (charData el typ s fr) as [fr1| | |] eqn:E1;
        cbn [mbind outcome_bind] in H; try discriminate.
      apply (Hskip fr1 H). intros fuel' d2. rewrite elementLoop_eq.
      cbn [nextToken mbind outcome_bind]. now rewrite E1.
    + apply (Hskip fr H). reflexivity.
    + apply (Hskip fr H). reflexivity.
    + apply (Hskip fr H). reflexivity.
Qed.

Lemma getNextElement_local x wantStart tok x' :
  getNextElement x wantStart = Ok (tok, x') ->
  exists p, x = p ++ x' /\ p <> [] /\ last p = Some tok
    /\ forall y, getNextElement (p ++ y) wantStart = Ok (tok, y).
Proof.
  induction x as [|t x IH]; intros H; [discriminate|].
  assert (Hskip : getNextElement x wantStart = Ok (tok, x') ->
                  (forall y, getNextElement (t :: y) wantStart = getNextElement y wantStart) ->
                  exists p, t :: x = p ++ x' /\ p <> [] /\ last p = Some tok
                    /\ forall y, getNextElement (p ++ y) wantStart = Ok (tok, y)).
  { intros H1 Hstep. destruct (IH H1) as (p & -> & _ & Hlast & Hp).
    exists (t :: p). split; [reflexivity | split; [discriminate|]].
    split; [now rewrite last_cons, Hlast|].
    intros y. cbn [app]. now rewrite Hstep. }
  destruct t; try (apply Hskip; [exact H | reflexivity]).
  - cbn in H. destruct wantStart; [|discriminate]. injection H as <- <-.
    exists [TStartElement el]. split; [reflexivity | split; [discriminate|]].
    split; reflexivity.
  - cbn in H. destruct wantStart; [discriminate|]. injection H as <- <-.
    exists [TEndElement n]. split; [reflexivity | split; [discriminate|]].
    split; reflexivity.
Qed.

Lemma getNextStartElement_local x el x' :
  getNextStartElement x = Ok (el, x') ->
  exists p, x = p ++ x' /\ p <> []
    /\ forall y, getNextStartElement (p ++ y) = Ok (el, y).
Proof.
  intros H. unfold getNextStartElement in H.
  destruct (getNextElement x true) as [[tok x1]| | |] eqn:E;
    cbn [mbind outcome_bind] in H; try discriminate.
  destruct tok; try discriminate. injection H as <- <-.
  destruct (getNextElement_local _ _ _ _ E) as (p & -> & Hne & _ & Hp).
  exists p. split; [reflexivity | split; [exact Hne|]].
  intros y. unfold getNextStartElement. now rewrite Hp.
Qed.

Lemma processSoapElement_local fuel d el typ jsonType o d' :
  processSoapElement fuel d el typ jsonType = Ok (o, d') ->
  exists p, d = p ++ d' /\ p <> []
    /\ forall fuel' x, (length p < fuel')%nat ->
         processSoapElement fuel' (p ++ x) el typ jsonType = Ok (o, x).
Proof.
  intros H. unfold processSoapElement in H.
  destruct (processElement fuel d el typ) as [[v d1]| | |] eqn:E;
    cbn [mbind outcome_bind] in H; try discriminate.
  destruct (proj1 (translate_local fuel) _ _ _ _ _ E) as (p & -> & Hne & Hp).
  exists p.
  assert (Hd : d1 = d') by (destruct v; try discriminate; now injection H as _ <-).
  subst d1. split; [reflexivity | split; [exact Hne|]].
  intros fuel' x Hlt. unfold processSoapElement. rewrite (Hp fuel' x Hlt).
  cbn [mbind outcome_bind].
  destruct v; try discriminate; injection H as <-; reflexivity.
Qed.

Lemma soapHeader_local fuel d el h d' :
  soapHeader fuel d el = Ok (h, d') ->
  exists p, d = p ++ d' /\ p <> []
    /\ forall fuel' x, (length p < fuel')%nat -> soapHeader fuel' (p ++ x) el = Ok (h, x).
Proof.
  intros H. unfold soapHeader in H.
  destruct (deref EwsSoapRequestHeader) as [ht|] eqn:Eh; [|discriminate].
  destruct (processSoapElement fuel d el (Some ht) (JsonType ht)) as [[o d1]| | |] eqn:E;
    cbn [mbind outcome_bind] in H; try discriminate.
  destruct (processSoapElement_local _ _ _ _ _ _ _ E) as (p & -> & Hne & Hp).
  assert (Hd : d1 = d').
  { destruct o; [now injection H as _ <-|].
    rewrite customHeader_eq in H. cbn in H. now injection H as _ <-. }
  subst d1. exists p. split; [reflexivity | split; [exact Hne|]].
  intros fuel' x Hlt. unfold soapHeader. rewrite Eh, (Hp fuel' x Hlt).
  cbn [mbind outcome_bind]. destruct o.
  - now injection H as <-.
  - rewrite customHeader_eq in *. cbn in *. now injection H as <-.
Qed.

Lemma soapBody_local fuel d op b d' :
  soapBody fuel d = Ok (op, b, d') ->
  exists p, d = p ++ d' /\ p <> []
    /\ forall fuel' x, (length p <= fuel')%nat -> soapBody fuel' (p ++ x) = Ok (op, b, x).
Proof.
  intros H. unfold soapBody in H.
  destruct (getNextStartElement d) as [[el d1]| | |] eqn:E0;
    cbn [mbind outcome_bind] in H; try discriminate.
  destruct (EwsOperations !! Local (SName el)) as [op'|] eqn:Eop; [|discriminate].
  destruct (processSoapElement fuel d1 el (deref (Request op')) (BodyType op'))
    as [[body d2]| | |] eqn:E1; cbn [mbind outcome_bind] in H; try discriminate.
  destruct (getNextElement d2 false) as [[e d3]| | |] eqn:E2;
    cbn [mbind outcome_bind] in H; try discriminate.
  injection H as <- <- <-.
  destruct (getNextStartElement_local _ _ _ E0) as (p0 & -> & Hne0 & Hp0).
  destruct (processSoapElement_local _ _ _ _ _ _ _ E1) as (p1 & -> & Hne1 & Hp1).
  destruct (getNextElement_local _ _ _ _ E2) as (p2 & -> & Hne2 & _ & Hp2).
  exists (p0 ++ p1 ++ p2).
  split; [now rewrite <- !app_assoc|].
  split; [intros Hnil; apply app_eq_nil in Hnil as [? _]; contradiction|].
  intros fuel' x Hle. rewrite !length_app in Hle.
  pose proof (nonempty_length _ Hne0). pose proof (nonempty_length _ Hne2).
  unfold soapBody. rewrite <- !app_assoc, Hp0. cbn [mbind outcome_bind].
  rewrite Eop, Hp1 by lia. cbn [mbind outcome_bind]. now rewrite Hp2.
Qed.

Lemma soapLoop_local n fuel : forall d st st' d',
  soapLoop n fuel d st = Ok (st', d') ->
  exists p, d = p ++ d'
    /\ forall n' fuel' x, (length p <= n')%nat -> (length p <= fuel')%nat ->
         soapLoop n' fuel' (p ++ x) st = Ok (st', x).
Proof.
  assert (Hdone : forall n d st st' d',
             negb (gotHeader st) || negb (gotBody st) = false ->
             soapLoop n fuel d st = Ok (st', d') ->
             exists p, d = p ++ d'
               /\ forall n' fuel' x, (length p <= n')%nat -> (length p <= fuel')%nat ->
                    soapLoop n' fuel' (p ++ x) st = Ok (st', x)).
  { intros n0 d st st' d' Eg H.
    assert (H' : Ok (st, d) = Ok (st', d')) by (destruct n0; cbn in H; now rewrite Eg in H).
    injection H' as <- <-. exists []. split; [reflexivity|].
    intros n' fuel' x _ _. destruct n'; cbn; now rewrite Eg. }
  induction n as [|n IH]; intros d st st' d' H.
  - destruct (negb (gotHeader st) || negb (gotBody st)) eqn:Eg;
      [cbn in H; rewrite Eg in H; discriminate | now apply (Hdone 0%nat)].
  - destruct (negb (gotHeader st) || negb (gotBody st)) eqn:Eg;
      [|now apply (Hdone (S n))].
    cbn [soapLoop] in H. rewrite Eg in H.
    destruct (getNextStartElement d) as [[el d1]| | |] eqn:E0;
      cbn [mbind outcome_bind] in H; try discriminate.
    destruct (getNextStartElement_local _ _ _ E0) as (p0 & -> & Hne0 & Hp0).
    pose proof (nonempty_length _ Hne0) as Hlen0.
    destruct (String.eqb (Local (SName el)) "Header") eqn:EH.
    { destruct (gotHeader st) eqn:Egh; [discriminate|].
      destruct (soapHeader fuel d1 el) as [[h d2]| | |] eqn:E1;
        cbn [mbind outcome_bind] in H; try discriminate.
      destruct (soapHeader_local _ _ _ _ _ E1) as (p1 & -> & Hne1 & Hp1).
      destruct (IH _ _ _ _ H) as (p2 & -> & Hp2).
      exists (p0 ++ p1 ++ p2). split; [now rewrite <- !app_assoc|].
      intros n' fuel' x Hn Hf. rewrite !length_app in Hn, Hf.
      destruct n' as [|n']; [lia|].
      cbn [soapLoop]. rewrite Egh, Eg, <- !app_assoc, Hp0. cbn [mbind outcome_bind].
      rewrite EH, Hp1 by lia. cbn [mbind outcome_bind]. apply Hp2; lia. }
    destruct (String.eqb (Local (SName el)) "Body") eqn:EB.
    { destruct (gotBody st) eqn:Egb; [discriminate|].
      destruct (soapBody fuel d1) as [[[op b] d2]| | |] eqn:E1;
        cbn [mbind outcome_bind] in H; try discriminate.
      destruct (soapBody_local _ _ _ _ _ E1) as (p1 & -> & Hne1 & Hp1).
      destruct (IH _ _ _ _ H) as (p2 & -> & Hp2).
      exists (p0 ++ p1 ++ p2). split; [now rewrite <- !app_assoc|].
      intros n' fuel' x Hn Hf. rewrite !length_app in Hn, Hf.
      destruct n' as [|n']; [lia|].
      cbn [soapLoop]. rewrite Egb, Eg, <- !app_assoc, Hp0. cbn [mbind outcome_bind].
      rewrite EH, EB, Hp1 by lia. cbn [mbind outcome_bind]. apply Hp2; lia. }
    destruct (IH _ _ _ _ H) as (p2 & -> & Hp2).
    exists (p0 ++ p2). split; [now rewrite <- !app_assoc|].
    intros n' fuel' x Hn Hf. rewrite !length_app in Hn, Hf.
    destruct n' as [|n']; [lia|].
    cbn [soapLoop]. rewrite Eg, <- !app_assoc, Hp0. cbn [mbind outcome_bind].
    rewrite EH, EB. apply Hp2; lia.
Qed.

(** X9: [SOAP2JSON] stops reading at the end tag that follows the two
    sections: a successful run has read a prefix of the document that ends
    in an end tag, and it returns the same message and operation for this
    prefix followed by anything else (the code has a [TODO: consume EOF]
    at this place). *)
Theorem SOAP2JSON_ignores_what_follows (r : list Token)
    (res : list Member * option OpDescriptor) :
  SOAP2JSON r = Ok res ->
  exists p rest n,
    r = p ++ rest
    /\ last p = Some (TEndElement n)
    /\ forall x, SOAP2JSON (p ++ x) = Ok res.
Proof.
  intros H. unfold SOAP2JSON in H.
  destruct (getNextStartElement r) as [[el d]| | |] eqn:E0;
    cbn [mbind outcome_bind] in H; try discriminate.
  destruct (negb (String.eqb (Local (SName el)) "Envelope")) eqn:Eenv; [discriminate|].
  destruct (soapLoop (S (length d)) (2 * length r + 2) d soapState0)
    as [[st d1]| | |] eqn:E1; cbn [mbind outcome_bind] in H; try discriminate.
  destruct (getNextElement d1 false) as [[e d2]| | |] eqn:E2;
    cbn [mbind outcome_bind] in H; try discriminate.
  injection H as <-.
  destruct (getNextStartElement_local _ _ _ E0) as (p0 & -> & Hne0 & Hp0).
  destruct (soapLoop_local _ _ _ _ _ _ E1) as (p1 & -> & Hp1).
  destruct (getNextElement_consumed _ _ _ _ E2) as (_ & _ & [n ->]).
  destruct (getNextElement_local _ _ _ _ E2) as (p2 & -> & Hne2 & Hlast & Hp2).
  exists (p0 ++ p1 ++ p2), d2, n.
  split; [now rewrite <- !app_assoc|].
  split; [now rewrite !last_app, Hlast|].
  intros x. unfold SOAP2JSON. rewrite <- !app_assoc, Hp0. cbn [mbind outcome_bind].
  rewrite Eenv, Hp1 by (rewrite !length_app; lia).
  cbn [mbind outcome_bind]. now rewrite Hp2.
Qed.

(* ------------------------------------------------------------------ *)
(** ** The XML that [JSON2SOAP] writes is well nested *)
(* ------------------------------------------------------------------ *)

(** Reading written tokens back: the tags that are open after [ts], when
    [ts] starts with [opened] open (innermost first); [None] when an end
    tag does not close the innermost open tag. *)
Fixpoint replay (opened : list XmlName) (ts : list Token) : option (list XmlName) :=
  match ts with
  | [] => Some opened
  | TStartElement start :: ts' => replay (SName start :: opened) ts'
  | TEndElement name :: ts' =>
      match opened with
      | top :: rest => if decide (top = name) then replay rest ts' else None
      | [] => None
      end
  | _ :: ts' => replay opened ts'
  end.

(** From [enc] to [enc'] the tokens [ts] were written, and they lead from
    the open tags of the one to those of the other. *)
Definition emits (enc enc' : Encoder) (ts : list Token) : Prop :=
  out enc' = out enc ++ ts /\ replay (tags enc) ts = Some (tags enc').

(** What was written from [enc] to [enc'] closed every tag it opened. *)
Definition closedRun (enc enc' : Encoder) : Prop :=
  exists ts, emits enc enc' ts /\ tags enc' = tags enc.

Lemma replay_app opened ts1 ts2 :
  replay opened (ts1 ++ ts2) = replay opened ts1 ≫= fun o => replay o ts2.
Proof.
  revert opened. induction ts1 as [|t ts1 IH]; intros opened; [reflexivity|].
  destruct t; cbn; try apply IH.
  destruct opened as [|top rest]; [reflexivity|].
  destruct (decide (top = n)); [apply IH | reflexivity].
Qed.

Lemma emits_trans a b c ts1 ts2 :
  emits a b ts1 -> emits b c ts2 -> emits a c (ts1 ++ ts2).
Proof.
  intros [Ho1 Hr1] [Ho2 Hr2]. split.
  - now rewrite Ho2, Ho1, app_assoc.
  - rewrite replay_app, Hr1. exact Hr2.
Qed.

Lemma closedRun_refl enc : closedRun enc enc.
Proof. exists []. split; [split; [now rewrite app_nil_r | reflexivity] | reflexivity]. Qed.

Lemma closedRun_trans a b c : closedRun a b -> closedRun b c -> closedRun a c.
Proof.
  intros (ts1 & H1 & E1) (ts2 & H2 & E2). exists (ts1 ++ ts2).
  split; [eapply emits_trans; eauto | congruence].
Qed.

Lemma EncodeToken_emits enc t enc' : EncodeToken enc t = Ok enc' -> emits enc enc' [t].
Proof.
  intros H. destruct t; cbn in H.
  - destruct (String.eqb (Local (SName el)) ""); [discriminate|]. injection H as <-.
    split; reflexivity.
  - destruct (String.eqb (Local n) ""); [discriminate|].
    destruct (tags enc) as [|top rest] eqn:Et; [discriminate|].
    destruct (decide (top = n)) as [->|Hne] eqn:Ed; [|discriminate]. injection H as <-.
    split; [reflexivity|]. cbn. now rewrite Et, Ed.
  - injection H as <-. split; reflexivity.
  - injection H as <-. split; reflexivity.
  - injection H as <-. split; reflexivity.
  - injection H as <-. split; reflexivity.
Qed.

Lemma wrapErr_Ok {A} (m : outcome A) msg a : wrapErr m msg = Ok a -> m = Ok a.
Proof. destruct m; cbn; congruence. Qed.

(** A start tag, a closed run and the end tag of the same description make
    a closed run. *)
Lemma closedRun_element jt enc attrs e1 e2 e3 :
  EmitStart (Some jt) enc attrs = Ok e1 -> closedRun e1 e2 ->
  EmitEnd (Some jt) e2 = Ok e3 -> closedRun enc e3.
Proof.
  intros Hs (ts & Hts & Etags) He. cbn [EmitStart EmitEnd] in Hs, He.
  pose proof (EncodeToken_emits _ _ _ Hs) as Hs'.
  pose proof (EncodeToken_emits _ _ _ He) as He'.
  exists ([TStartElement (mkStart (jtXmlTag jt) attrs)] ++ ts ++ [TEndElement (jtXmlTag jt)]).
  split; [eapply emits_trans; [exact Hs' | eapply emits_trans; eauto]|].
  destruct Hs' as [_ Hr1]. destruct He' as [_ Hr2]. cbn in Hr1, Hr2.
  injection Hr1 as Hr1. rewrite Etags, <- Hr1 in Hr2.
  destruct (decide (jtXmlTag jt = jtXmlTag jt)); [|discriminate]. now injection Hr2 as <-.
Qed.

Lemma chardata_closedRun enc text enc' :
  EncodeToken enc (TCharData text) = Ok enc' -> closedRun enc enc'.
Proof.
  intros H. exists [TCharData text]. split; [now apply EncodeToken_emits|].
  now injection H as <-.
Qed.

Lemma processJsonChardata_closedRun enc el enc' :
  processJsonChardata enc el = Ok enc' -> closedRun enc enc'.
Proof.
  intros H. unfold processJsonChardata in H. bind_case' H.
  eapply chardata_closedRun; eauto.
Qed.

Lemma emitEnumList_closedRun enc obj je jt item enc' :
  emitEnumList enc obj je jt item = Ok enc' -> closedRun enc enc'.
Proof.
  intros H. unfold emitEnumList in H.
  bind_case' H. bind_case' H. bind_case' H. bind_case' H.
  apply wrapErr_Ok in E2, H.
  eapply closedRun_element; [exact E2 | | exact H].
  apply (chardata_closedRun a2 (Join a1 " ")). reflexivity.
Qed.

Lemma processJsonScalar_closedRun enc el edesc enc' :
  processJsonScalar enc el edesc = Ok enc' -> closedRun enc enc'.
Proof.
  intros H. unfold processJsonScalar in H. bind_case' H.
  destruct (negb a); [discriminate|].
  bind_case' H. bind_case' H.
  destruct (jeSingleType edesc) as [st|]; [|discriminate]. cbn [mbind option_bind] in H.
  destruct (deref (jtType st)) as [ewsType|]; [|discriminate].
  bind_case' H. bind_case' H.
  apply wrapErr_Ok in E0, E3, H.
  eapply closedRun_element; [exact E0 | | exact H].
  eapply processJsonChardata_closedRun; eauto.
Qed.

Lemma forM_closedRun {A} (f : A -> Encoder -> outcome Encoder) l :
  (forall x enc enc', x ∈ l -> f x enc = Ok enc' -> closedRun enc enc') ->
  forall enc enc', forM l enc f = Ok enc' -> closedRun enc enc'.
Proof.
  induction l as [|x l IH]; intros Hf enc enc' H; cbn in H.
  - injection H as <-. apply closedRun_refl.
  - bind_case' H. eapply closedRun_trans.
    + eapply Hf; [left | exact E].
    + eapply IH; [|exact H]. intros y e e' Hy. apply Hf. now right.
Qed.

Section ClosedRuns.

Variable recur : Encoder -> value -> option EwsJsonElement -> outcome Encoder.
Hypothesis recur_closed : forall enc v ed enc', recur enc v ed = Ok enc' -> closedRun enc enc'.

Lemma processChildren_closedRun jes : forall enc element enc' element',
  forM jes (enc, element) (processChild recur) = Ok (enc', element') ->
  closedRun enc enc'.
Proof.
  induction jes as [|je rest IH]; intros enc element enc' element' H; cbn in H.
  - injection H as <- _. apply closedRun_refl.
  - bind_case' H. destr_pairs. eapply closedRun_trans; [|eapply IH; exact H].
    unfold processChild in E.
    destruct (element !! jeJsonName je) as [obj|]; [|injection E as <- _; apply closedRun_refl].
    bind_case' E. bind_case' E. injection E as <- _.
    destruct a as [[jt item]|].
    + eapply emitEnumList_closedRun; eauto.
    + eapply recur_closed; eauto.
Qed.

Lemma processBody_closedRun enc element typ enc' element' :
  processBody recur enc element typ = Ok (enc', element') -> closedRun enc enc'.
Proof.
  intros H. unfold processBody in H.
  destruct (IsSimple typ && negb (String.eqb (TextAttr typ) "")).
  - destruct (element !! TextAttr typ) as [o|].
    + bind_case' H. injection H as <- _. apply wrapErr_Ok in E.
      eapply processJsonChardata_closedRun; eauto.
    + injection H as <- _. apply closedRun_refl.
  - destruct (negb (String.eqb (JsonListName typ) "")).
    + destruct (element !! JsonListName typ) as [v|]; [|discriminate].
      destruct v; try discriminate;
        (bind_case' H; injection H as <- _; eapply recur_closed; eauto).
    + eapply processChildren_closedRun; eauto.
Qed.

Lemma processJsonObject_closedRun enc element edesc enc' :
  processJsonObject recur enc element edesc = Ok enc' -> closedRun enc enc'.
Proof.
  intros H. unfold processJsonObject in H. bind_case' H. destr_pairs.
  destruct (negb (size g =? 0)%nat); [discriminate|].
  unfold consumeObject in E. bind_case' E.
  destruct (deref (jtType a)) as [t|]; [|discriminate].
  destruct (IsSimple t && String.eqb (TextAttr t) ""); [discriminate|].
  bind_case' E. destr_pairs. bind_case' E. bind_case' E. destr_pairs.
  injection E as <- <- <- <-.
  eapply closedRun_element; [exact E2 | | exact H].
  eapply processBody_closedRun; eauto.
Qed.

Lemma processListItem_closedRun childDesc e enc enc' :
  processListItem recur childDesc e enc = Ok enc' -> closedRun enc enc'.
Proof.
  intros H. unfold processListItem in H.
  assert (Hitem : (cd ← IsCharData childDesc;
                   if cd : bool then
                     enc1 ← EmitStart (jeSingleType childDesc) enc [];
                     enc2 ← wrapErr (processJsonChardata enc1 e) "processing list";
                     EmitEnd (jeSingleType childDesc) enc2
                   else
                     match e with
                     | VMap obj => processJsonObject recur enc obj childDesc
                     | _ => Err (Errorf "while processing list, expected object, got %#v"
                                   [AVal e])
                     end) = Ok enc' -> closedRun enc enc').
  { clear H. intros H. bind_case' H. destruct a.
    - bind_case' H. bind_case' H. apply wrapErr_Ok in E1.
      destruct (jeSingleType childDesc) as [st|]; [|discriminate].
      eapply closedRun_element; [exact E0 | | exact H].
      eapply processJsonChardata_closedRun; eauto.
    - destruct e; try discriminate. eapply processJsonObject_closedRun; eauto. }
  destruct e; try (apply Hitem; exact H).
  injection H as <-. apply closedRun_refl.
Qed.

Lemma processJsonList_closedRun enc elements edesc enc' :
  processJsonList recur enc elements edesc = Ok enc' -> closedRun enc enc'.
Proof.
  intros H. unfold processJsonList in H. bind_case' H. destr_pairs.
  bind_case' H. bind_case' H.
  assert (Hitems : closedRun a a0).
  { eapply forM_closedRun; [|exact E1].
    intros x e1 e2 _. apply processListItem_closedRun. }
  destruct o as [jt|].
  - eapply closedRun_element; eauto.
  - injection E0 as <-. now injection H as <-.
Qed.

End ClosedRuns.

Lemma processJson_closedRun fuel : forall enc element edesc enc',
  processJson fuel enc element edesc = Ok enc' -> closedRun enc enc'.
Proof.
  induction fuel as [|fuel IH]; intros enc element edesc enc' H; [discriminate|].
  cbn [processJson] in H.
  destruct element; destruct edesc as [ed|]; try discriminate;
    try (injection H as <-; apply closedRun_refl);
    try (eapply processJsonScalar_closedRun; exact H).
  - apply wrapErr_Ok in H. eapply processJsonList_closedRun; [exact IH | exact H].
  - apply wrapErr_Ok in H. eapply processJsonObject_closedRun; [exact IH | exact H].
Qed.

(** X10: every successful run of [processJson] closes the tags it opens:
    the encoder has the same tags open as before, and the tokens written,
    read back from there, pair every start tag with an end tag of the same
    name.  So the document [JSON2SOAP] writes is well nested with nothing
    left open (the encoder itself does not check this when it is
    flushed), and it is the XML declaration, the [soap:Envelope] start tag
    with the three namespace declarations, the content, and the
    [soap:Envelope] end tag. *)
Theorem JSON2SOAP_writes_well_nested_xml :
  (forall fuel enc element edesc enc',
      processJson fuel enc element edesc = Ok enc' ->
      tags enc' = tags enc
      /\ exists ts, out enc' = out enc ++ ts /\ replay (tags enc) ts = Some (tags enc))
  /\ (forall range msg op toks,
        JSON2SOAP_in range msg op = Ok toks ->
        replay [] toks = Some []
        /\ exists content,
            toks = xmlHeader :: TStartElement (mkStart soapEnvelopeTag soapXmlns)
                     :: content ++ [TEndElement soapEnvelopeTag]).
Proof.
  split.
  - intros fuel enc element edesc enc' H.
    destruct (processJson_closedRun _ _ _ _ _ H) as (ts & [Ho Hr] & Et).
    split; [exact Et|]. exists ts. split; [exact Ho | now rewrite Hr, Et].
  - intros range msg op toks H. unfold JSON2SOAP_in in H.
    bind_case' H. bind_case' H. bind_case' H. bind_case' H. injection H as <-.
    injection E as <-.
    assert (H1 : closedRun
                   (mkEnc [soapEnvelopeTag]
                      ([xmlHeader] ++ [TStartElement (mkStart soapEnvelopeTag soapXmlns)])) a0).
    { destruct (msg_Header msg) as [h|]; [|injection E0 as <-; apply closedRun_refl].
      apply wrapErr_Ok in E0. eapply processJson_closedRun; eauto. }
    assert (H2 : closedRun a0 a1).
    { destruct (msg_Body msg) as [b|]; [|injection E1 as <-; apply closedRun_refl].
      bind_case' E1. bind_case' E1. bind_case' E1. apply wrapErr_Ok in E4.
      change (EncodeToken a0 (TStartElement (mkStart soapBodyTag [])))
        with (EmitStart (Some (mkJsonType "" soapBodyTag "")) a0 []) in E.
      change (EncodeToken a4 (TEndElement soapBodyTag))
        with (EmitEnd (Some (mkJsonType "" soapBodyTag "")) a4) in E1.
      eapply closedRun_element; [exact E | | exact E1].
      eapply processJson_closedRun; eauto. }
    destruct (closedRun_trans _ _ _ H1 H2) as (ts & [Ho Hr] & Et).
    cbn [out tags] in Ho, Hr, Et.
    pose proof (EncodeToken_emits _ _ _ E2) as [Ho3 Hr3].
    cbn in E2. rewrite Et in E2. cbn in E2. injection E2 as <-. cbn [out].
    split.
    + rewrite replay_app, Ho, replay_app.
      assert (replay [] ([xmlHeader]
                         ++ [TStartElement (mkStart soapEnvelopeTag soapXmlns)])
              = Some [soapEnvelopeTag]) as -> by reflexivity.
      cbn [mbind option_bind]. rewrite Hr, Et. reflexivity.
    + exists ts. rewrite Ho. reflexivity.
Qed.

(* ------------------------------------------------------------------ *)
(** ** The type-hint loop and the order of Go's map iteration *)
(* ------------------------------------------------------------------ *)

(** What one turn of the type-hint loop makes of the child it looks up. *)
Definition stampedChild (op : OpDescriptor) (childName : string) (v : option value)
  : outcome (option value) :=
  match v with
  | Some (VMap childMessage) =>
      match childMessage !! "Items" with
      | None =>
          Err (ENew ("Internal error: Cannot find 'Items' element in '" +:+ childName +:+ "'"))
      | Some (VList items) =>
          items' ← stampItems (jeJsonName (Response op) +:+ "Message") items;
          Ok (Some (VMap (<["Items" := VList items']> childMessage)))
      | Some _ =>
          Err (ENew ("Internal error: Cannot convert items to array. Inside element: '"
                     +:+ childName +:+ "'"))
      end
  | _ => Ok v
  end.

Definition putChild (c : string) (v : option value) (body : gmap string value)
  : gmap string value :=
  match v with
  | Some x => <[c := x]> body
  | None => body
  end.

Lemma stampChild_alt op c body :
  stampChild op c body = v ← stampedChild op c (body !! c); Ok (putChild c v body).
Proof.
  unfold stampChild, stampedChild.
  destruct (body !! c) as [v|] eqn:Ev; [|reflexivity].
  destruct v; cbn [mbind outcome_bind putChild]; try (now rewrite insert_id).
  destruct (m !! "Items") as [w|]; [|reflexivity].
  destruct w; try reflexivity.
  destruct (stampItems _ l); reflexivity.
Qed.

Lemma putChild_other c v body c' : c' <> c -> putChild c v body !! c' = body !! c'.
Proof. intros Hne. destruct v; cbn; [now rewrite lookup_insert_ne by congruence | reflexivity]. Qed.

Lemma putChild_comm a b va vb body :
  a <> b -> putChild a va (putChild b vb body) = putChild b vb (putChild a va body).
Proof. intros Hne. destruct va, vb; cbn; try reflexivity. now apply insert_insert_ne. Qed.

Lemma stampChild_swap op a b body r :
  (x ← stampChild op a body; stampChild op b x) = Ok r ->
  (x ← stampChild op b body; stampChild op a x) = Ok r.
Proof.
  destruct (decide (a = b)) as [->|Hne]; [trivial|].
  rewrite !stampChild_alt.
  destruct (stampedChild op a (body !! a)) as [va| | |] eqn:Ea;
    cbn [mbind outcome_bind]; try discriminate.
  rewrite stampChild_alt, putChild_other by congruence.
  destruct (stampedChild op b (body !! b)) as [vb| | |] eqn:Eb;
    cbn [mbind outcome_bind]; try discriminate.
  rewrite stampChild_alt, putChild_other, Ea by congruence. cbn [mbind outcome_bind].
  intros H. injection H as <-. now rewrite putChild_comm.
Qed.

Lemma stampBody_perm op names names' :
  names ≡ₚ names' ->
  forall body r, stampBody op names body = Ok r -> stampBody op names' body = Ok r.
Proof.
  unfold stampBody.
  induction 1 as [|x l l' _ IH|x y l|l1 l2 l3 _ IH1 _ IH2]; intros body r H.
  - exact H.
  - cbn [forM] in *. bind_case' H. now apply IH.
  - cbn [forM] in *.
    assert (Hswap : (b ← (a ← stampChild op x body; stampChild op y a);
                     forM l b (stampChild op)) = Ok r).
    { destruct (stampChild op y body) as [b1| | |] eqn:E1;
        cbn [mbind outcome_bind] in H; try discriminate.
      destruct (stampChild op x b1) as [b2| | |] eqn:E2;
        cbn [mbind outcome_bind] in H; try discriminate.
      assert (Hxy : (a ← stampChild op x body; stampChild op y a) = Ok b2).
      { apply stampChild_swap. now rewrite E1. }
      now rewrite Hxy. }
    destruct (stampChild op x body) as [b1| | |];
      cbn [mbind outcome_bind] in Hswap |- *; try discriminate. exact Hswap.
  - now apply IH2, IH1.
Qed.

Lemma JSON2SOAP_range range1 range2 msg op toks :
  (forall children, range1 children ≡ₚ range2 children) ->
  JSON2SOAP_in range1 msg op = Ok toks -> JSON2SOAP_in range2 msg op = Ok toks.
Proof.
  intros Hperm H. unfold JSON2SOAP_in in H.
  bind_case' H. bind_case' H. bind_case' H.
  unfold JSON2SOAP_in. rewrite E. cbn [mbind outcome_bind].
  rewrite E0. cbn [mbind outcome_bind].
  enough (Hbody : match msg_Body msg with
                  | Some b =>
                      e1 ← EncodeToken a0 (TStartElement (mkStart soapBodyTag []));
                      b' ← stampResponse range2 op b;
                      e2 ← wrapErr (processJson (S (depth (VMap b'))) e1 (VMap b')
                                      (Some (Response op))) "soap:Body";
                      EncodeToken e2 (TEndElement soapBodyTag)
                  | None => Ok a0
                  end = Ok a1) by (rewrite Hbody; exact H).
  destruct (msg_Body msg) as [b|]; [|exact E1].
  bind_case' E1. bind_case' E1.
  assert (Hst : stampResponse range2 op b = Ok a3).
  { unfold stampResponse in *. bind_case' E3. eapply stampBody_perm; [apply Hperm | exact E3]. }
  now rewrite Hst.
Qed.

(** X11: the order in which Go ranges over the child names of the
    response type does not matter: two orders of the same names give the
    same stamped body when either succeeds, and fail together; so the
    tokens [JSON2SOAP] writes do not depend on the iteration order of the
    map. *)
Theorem type_hints_do_not_depend_on_map_order :
  (forall op names names' body,
      names ≡ₚ names' ->
      (forall r, stampBody op names body = Ok r <-> stampBody op names' body = Ok r)
      /\ (returnsError (stampBody op names body)
          <-> returnsError (stampBody op names' body)))
  /\ (forall range1 range2 msg op toks,
        (forall children, range1 children ≡ₚ range2 children) ->
        JSON2SOAP_in range1 msg op = Ok toks <-> JSON2SOAP_in range2 msg op = Ok toks).
Proof.
  split.
  - intros op names names' body Hp.
    assert (Hiff : forall r, stampBody op names body = Ok r <-> stampBody op names' body = Ok r).
    { intros r. split; apply stampBody_perm; [exact Hp | now symmetry]. }
    split; [exact Hiff|].
    split; intros [e He].
    + destruct (stampBody_outcome op names' body) as [[r Hr] | Herr]; [|exact Herr].
      apply Hiff in Hr. congruence.
    + destruct (stampBody_outcome op names body) as [[r Hr] | Herr]; [|exact Herr].
      apply Hiff in Hr. congruence.
  - intros range1 range2 msg op toks Hp.
    split; apply JSON2SOAP_range; [exact Hp | intros c; now symmetry].
Qed.

(* ------------------------------------------------------------------ *)
(** ** JSON nulls *)
(* ------------------------------------------------------------------ *)




(* ------------------------------------------------------------------ *)
(** ** Attributes on the way back *)
(* ------------------------------------------------------------------ *)

(** The attribute that [processJsonObject] writes for the declared
    attribute [a], from the member of that JSON name. *)
Definition attributeOf (obj : gmap string value) (a : element) (x : Attr) : Prop :=
  exists o, obj !! JN a = Some o /\ toString o = Ok (AttrValue x)
            /\ AttrName x = mkName "" (XN a).

Definition declaredIn (obj : gmap string value) (a : element) : bool :=
  bool_decide (is_Some (obj !! JN a)).

Lemma collectAttrs_spec decl : forall element attrs attrs' element',
  NoDup (JN <$> decl) ->
  collectAttrs decl element attrs = Ok (attrs', element') ->
  exists new,
    attrs' = attrs ++ new
    /\ Forall2 (attributeOf element) (List.filter (declaredIn element) decl) new
    /\ forall k, element' !! k = if bool_decide (k ∈ JN <$> decl) then None else element !! k.
Proof.
  induction decl as [|a rest IH]; intros element attrs attrs' element' Hnd H; cbn in H.
  - injection H as <- <-. exists []. split; [now rewrite app_nil_r|].
    split; [constructor | intros k; reflexivity].
  - cbn [fmap list_fmap] in Hnd. apply NoDup_cons in Hnd as [Hnot Hnd].
    assert (Hsame : forall m : gmap string value,
               (forall k, k <> JN a -> m !! k = element !! k) ->
               List.filter (declaredIn m) rest = List.filter (declaredIn element) rest
               /\ forall new, Forall2 (attributeOf m) (List.filter (declaredIn m) rest) new ->
                              Forall2 (attributeOf element)
                                (List.filter (declaredIn element) rest) new).
    { intros m Hm.
      assert (Hrest : forall b, b ∈ rest -> m !! JN b = element !! JN b).
      { intros b Hb. apply Hm. intros Heq. apply Hnot. rewrite <- Heq.
        now apply list_elem_of_fmap_2. }
      clear -Hrest. induction rest as [|b rest IH].
      - split; [reflexivity | intros new Hn; cbn in *; inversion Hn; constructor].
      - destruct IH as [IH1 IH2]; [intros b' Hb'; apply Hrest; now right|].
        assert (Hb : m !! JN b = element !! JN b) by (apply Hrest; left).
        assert (Hd : declaredIn m b = declaredIn element b)
          by (unfold declaredIn; now rewrite Hb).
        cbn [List.filter]. rewrite Hd. destruct (declaredIn element b).
        + split; [now rewrite IH1|]. intros new Hn.
          inversion Hn as [|? x ? new' Hx Hn']; subst. constructor; [|now apply IH2].
          destruct Hx as (o & Ho & Hs & Hname). exists o. now rewrite <- Hb.
        + split; [exact IH1 | exact IH2]. }
    cbn [List.filter].
    destruct (element !! JN a) as [o|] eqn:Eo.
    + bind_case' H. apply wrapErr_Ok in E.
      destruct (IH _ _ _ _ Hnd H) as (new & -> & Hall & Hdom).
      destruct (Hsame (delete (JN a) element)) as [Hf Hall'].
      { intros k Hk. now rewrite lookup_delete_ne by congruence. }
      assert (declaredIn element a = true) as ->
        by (unfold declaredIn; rewrite Eo; now apply bool_decide_eq_true_2).
      exists (mkAttr (mkName "" (XN a)) a0 :: new).
      split; [now rewrite <- app_assoc|]. split.
      * constructor; [exists o; now split | now apply Hall'].
      * intros k. rewrite Hdom. cbn [fmap list_fmap].
        destruct (decide (k = JN a)) as [->|Hne].
        -- rewrite (bool_decide_eq_true_2 (JN a ∈ JN a :: _)) by left.
           rewrite lookup_delete_eq. now destruct (bool_decide _).
        -- rewrite lookup_delete_ne by congruence.
           destruct (bool_decide (k ∈ JN <$> rest)) eqn:Ek.
           ++ apply bool_decide_eq_true in Ek.
              now rewrite bool_decide_eq_true_2 by now right.
           ++ apply bool_decide_eq_false in Ek. rewrite bool_decide_eq_false_2; [reflexivity|].
              intros Hin. apply elem_of_cons in Hin as [?|?]; contradiction.
    + destruct (IH _ _ _ _ Hnd H) as (new & -> & Hall & Hdom).
      assert (declaredIn element a = false) as ->
        by (unfold declaredIn; rewrite Eo; apply bool_decide_eq_false_2;
            intros [? ?]; discriminate).
      exists new. split; [reflexivity|]. split; [exact Hall|].
      intros k. rewrite Hdom. cbn [fmap list_fmap].
      destruct (decide (k = JN a)) as [->|Hne].
      * rewrite (bool_decide_eq_true_2 (JN a ∈ JN a :: _)) by left.
        rewrite Eo. now destruct (bool_decide _).
      * destruct (bool_decide (k ∈ JN <$> rest)) eqn:Ek.
        -- apply bool_decide_eq_true in Ek. now rewrite bool_decide_eq_true_2 by now right.
        -- apply bool_decide_eq_false in Ek. rewrite bool_decide_eq_false_2; [reflexivity|].
           intros Hin. apply elem_of_cons in Hin as [?|?]; contradiction.
Qed.

(** X13: the attributes of a start tag are written in the order in which
    the type declares them, not in the order of the JSON object: one
    attribute for every declared attribute whose JSON name is a member,
    under its XML name and without namespace, holding the text of the
    member; and exactly the declared JSON names are taken off the
    object. *)
Theorem attributes_follow_the_declaration (decl : list element)
    (element element' : gmap string value) (attrs' : list Attr) :
  NoDup (JN <$> decl) ->
  collectAttrs decl element [] = Ok (attrs', element') ->
  Forall2 (attributeOf element) (List.filter (declaredIn element) decl) attrs'
  /\ forall k, element' !! k = if bool_decide (k ∈ JN <$> decl) then None else element !! k.
Proof.
  intros Hnd H. destruct (collectAttrs_spec _ _ _ _ _ Hnd H) as (new & -> & Hall & Hdom).
  now split.
Qed.

(* ------------------------------------------------------------------ *)
(** ** Text there and back *)
(* ------------------------------------------------------------------ *)

(** X14: the text of an element of a string-kind simple type survives both
    translations up to the trimming of [processElement]: the element
    translates to the JSON string of its trimmed text, and [processJson]
    writes that string back as one element with this text. *)
Theorem string_text_round_trip (fuel fuel' : nat) (el : StartElement) (typ : EwsType)
    (s : string) (n : XmlName) (rest : list Token) (enc : Encoder)
    (edesc : EwsJsonElement) (st : EwsJsonType) :
  IsSimple typ = true -> TextAttr typ = "" -> SimpleType typ = T_STR ->
  String.length (Trim s trimCutset) <> 0%nat ->
  jeTypes edesc = None -> jeSingleType edesc = Some st -> deref (jtType st) = Some typ ->
  Local (jtXmlTag st) <> "" ->
  processElement (S (S (S fuel))) (TCharData s :: TEndElement n :: rest) el (Some typ)
  = Ok (VString (Trim s trimCutset), rest)
  /\ processJson (S fuel') enc (VString (Trim s trimCutset)) (Some edesc)
     = Ok (mkEnc (tags enc)
             (out enc ++ [TStartElement (mkStart (jtXmlTag st) []);
                          TCharData (Trim s trimCutset);
                          TEndElement (jtXmlTag st)])).
Proof.
  intros Hs Ht Hk Hlen Hty Hst Hd Htag. split.
  - assert (Hfr : (if (length (SAttr el) =? 0)%nat then Ok emptyFrame
                   else initRetObject el typ false) = Ok emptyFrame).
    { destruct (length (SAttr el) =? 0)%nat; [reflexivity | now apply initRetObject_leaf]. }
    cbn [processElement]. rewrite Hfr.
    cbn [mbind outcome_bind elementLoop nextToken]. unfold charData.
    apply Nat.eqb_neq in Hlen. rewrite Hlen.
    unfold initIfNil. cbn [f_ret emptyFrame]. rewrite initRetObject_leaf by assumption.
    cbn [mbind outcome_bind]. rewrite Ht. cbn [String.eqb negb].
    cbn [f_obj f_listObj emptyFrame mbind outcome_bind finishElement f_ret].
    unfold convertSimpleToJson. rewrite Hk. reflexivity.
  - cbn [processJson]. unfold processJsonScalar, IsCharData.
    rewrite Hty, Hst, Hd, Hs, Ht. cbn [String.eqb andb mbind outcome_bind negb].
    unfold EmitStart. rewrite EncodeToken_start by exact Htag.
    cbn [wrapErr mbind outcome_bind toString option_bind].
    rewrite Hd, Hs, Hk. cbn [andb Z.eqb T_STR T_ENUM Pos.eqb mbind outcome_bind].
    unfold processJsonChardata. cbn [toString mbind outcome_bind].
    rewrite EncodeToken_chardata. cbn [wrapErr mbind outcome_bind tags out].
    unfold EmitEnd. rewrite EncodeToken_end by exact Htag.
    cbn [wrapErr]. now rewrite <- !app_assoc.
Qed.

(* ------------------------------------------------------------------ *)
(** ** Descriptions with one type and with a choice of types *)
(* ------------------------------------------------------------------ *)

Lemma file_hints_lookup (jt : EwsJsonType) hs : forall (m : gmap string EwsJsonType) h,
  foldl (fun m t => <[t := jt]> m) m hs !! h
  = if bool_decide (h ∈ hs) then Some jt else m !! h.
Proof.
  induction hs as [|t hs IH]; intros m h; cbn [foldl].
  - rewrite bool_decide_eq_false_2; [reflexivity | apply not_elem_of_nil].
  - rewrite IH. destruct (bool_decide (h ∈ hs)) eqn:Eh.
    + apply bool_decide_eq_true in Eh. now rewrite bool_decide_eq_true_2 by now right.
    + apply bool_decide_eq_false in Eh. destruct (decide (h = t)) as [->|Hne].
      * rewrite lookup_insert_eq. now rewrite bool_decide_eq_true_2 by left.
      * rewrite lookup_insert_ne by congruence.
        rewrite bool_decide_eq_false_2; [reflexivity|].
        intros Hin. apply elem_of_cons in Hin as [?|?]; contradiction.
Qed.

Lemma addInternal_spec e jt e' :
  addInternal e jt = Ok e' ->
  exists m hs,
    jeTypes e = Some m /\ hintsOf jt = Ok hs
    /\ e' = withTypes e (Some (foldl (fun m t => <[t := jt]> m) m hs)).
Proof.
  intros H. unfold addInternal in H. bind_case' H.
  destruct (jeTypes e) as [m|]; [|discriminate]. injection H as <-.
  now exists m, a.
Qed.

(** The first description added to a new element is its single type. *)
Lemma add_first x j l jt :
  add (NewEwsJsonElement x j l) jt
  = Ok (mkJsonElement j None {[ Local (jtXmlTag jt) := jt ]} (Some jt) l (xmlChoiceHooks x)).
Proof. reflexivity. Qed.

Lemma add_keeps e jt e' :
  add e jt = Ok e' ->
  jeJsonName e' = jeJsonName e /\ jeIsList e' = jeIsList e
  /\ jeXmlChoiceHook e' = jeXmlChoiceHook e
  /\ jeElements e' = <[Local (jtXmlTag jt) := jt]> (jeElements e).
Proof.
  intros H. unfold add in H. bind_case' H. bind_case' H. injection H as <-.
  assert (Ha : jeJsonName a = jeJsonName e /\ jeIsList a = jeIsList e
               /\ jeXmlChoiceHook a = jeXmlChoiceHook e /\ jeElements a = jeElements e).
  { destruct (jeSingleType e) as [st|]; [|now injection E as <-].
    bind_case' E. injection E as <-.
    apply addInternal_spec in E1 as (m & hs & _ & _ & ->). now cbn. }
  assert (Ha0 : jeJsonName a0 = jeJsonName a /\ jeIsList a0 = jeIsList a
                /\ jeXmlChoiceHook a0 = jeXmlChoiceHook a /\ jeElements a0 = jeElements a).
  { destruct (jeTypes a) as [m|]; [|now injection E0 as <-].
    apply addInternal_spec in E0 as (m' & hs & _ & _ & ->). now cbn. }
  destruct Ha as (H1 & H2 & H3 & H4), Ha0 as (G1 & G2 & G3 & G4).
  unfold withElements. cbn [jeJsonName jeIsList jeXmlChoiceHook jeElements].
  rewrite G1, G2, G3, G4, H1, H2, H3, H4. auto.
Qed.

(** X15: a description made by [NewEwsJsonElement] with one type added is
    used for every object, whatever hint the object carries.  Adding a
    second type turns it into a choice: the single type is given up, both
    types are filed under their hints (a later type takes a hint it shares
    with an earlier one), and without a choice hook [processJsonObject]
    then picks the type by the [__type] member of the object, failing
    when the member is missing, is no string, or names no filed hint. *)
Theorem second_type_makes_a_choice (x j : string) (l : bool) (jt1 jt2 : EwsJsonType)
    (e2 : EwsJsonElement) :
  xmlChoiceHooks x = None ->
  (e1 ← add (NewEwsJsonElement x j l) jt1; add e1 jt2) = Ok e2 ->
  (forall e1 obj, add (NewEwsJsonElement x j l) jt1 = Ok e1 -> resolveChoice obj e1 = Ok jt1)
  /\ exists hs1 hs2 m,
      hintsOf jt1 = Ok hs1 /\ hintsOf jt2 = Ok hs2
      /\ jeSingleType e2 = None /\ jeTypes e2 = Some m
      /\ (forall h, m !! h = if bool_decide (h ∈ hs2) then Some jt2
                            else if bool_decide (h ∈ hs1) then Some jt1 else None)
      /\ (forall obj h,
            obj !! "__type" = Some (VString h) ->
            resolveChoice obj e2
            = if bool_decide (h ∈ hs2) then Ok jt2
              else if bool_decide (h ∈ hs1) then Ok jt1
              else Err (Errorf "hint %s was not found in element %s" [AStr h; AStr j]))
      /\ (forall obj,
            (forall h, obj !! "__type" <> Some (VString h)) ->
            resolveChoice obj e2
            = Err (Errorf "no hint, cannot determine type for %+v" [AVal (VMap obj)])).
Proof.
  intros Hhook H. split.
  { intros e1 obj H1. rewrite add_first in H1. injection H1 as <-. reflexivity. }
  rewrite add_first in H. cbn [mbind outcome_bind] in H.
  unfold add, addInternal in H.
  cbn [jeSingleType jeTypes withTypes jeJsonName jeElements jeIsList jeXmlChoiceHook] in H.
  destruct (hintsOf jt1) as [hs1| | |] eqn:E1; cbn [mbind outcome_bind] in H; try discriminate.
  cbn [jeTypes withTypes withSingleType jeJsonName jeElements jeIsList jeXmlChoiceHook
       jeSingleType mbind outcome_bind] in H.
  destruct (hintsOf jt2) as [hs2| | |] eqn:E2; cbn [mbind outcome_bind] in H; try discriminate.
  cbn [jeTypes withTypes withSingleType withElements jeJsonName jeElements jeIsList
       jeXmlChoiceHook jeSingleType mbind outcome_bind] in H.
  injection H as <-.
  set (m := foldl (fun m t => <[t := jt2]> m)
              (foldl (fun m t => <[t := jt1]> m) ∅ hs1) hs2).
  assert (Hm : forall h, m !! h = if bool_decide (h ∈ hs2) then Some jt2
                                 else if bool_decide (h ∈ hs1) then Some jt1 else None).
  { intros h. unfold m. rewrite !file_hints_lookup. now rewrite lookup_empty. }
  exists hs1, hs2, m.
  split; [reflexivity | split; [reflexivity | split; [reflexivity | split; [reflexivity|]]]].
  split; [exact Hm | split].
  - intros obj h Hh. clearbody m. unfold resolveChoice.
    cbn [jeSingleType jeXmlChoiceHook jeTypes jeJsonName withElements withTypes
         withSingleType mbind option_bind].
    rewrite Hhook, Hh, Hm.
    destruct (bool_decide (h ∈ hs2)); [reflexivity|].
    destruct (bool_decide (h ∈ hs1)); reflexivity.
  - intros obj Hno. clearbody m. unfold resolveChoice.
    cbn [jeSingleType jeXmlChoiceHook jeTypes jeJsonName withElements withTypes
         withSingleType].
    rewrite Hhook. destruct (obj !! "__type") as [v|] eqn:Ev; [|reflexivity].
    destruct v; try reflexivity. now destruct (Hno s).
Qed.

(* ------------------------------------------------------------------ *)
(** ** The tables [Initialize] builds *)
(* ------------------------------------------------------------------ *)

(** An attribute with its JSON name filled in. *)
Definition filled (a : element) : element :=
  mkElement (XN a) (if String.eqb (JN a) "" then XN a else JN a) (T a) (JT a) (List_ a)
    (JsonDefault a).

Lemma initAttributes_keep (l : list element) x :
  x ∉ XN <$> l ->
  forall seen attrs names seen' attrs' names',
    foldl initAttribute (seen, attrs, names) l = (seen', attrs', names') ->
    attrs' !! x = attrs !! x /\ names' !! x = names !! x.
Proof.
  induction l as [|b l IH]; intros Hnot seen attrs names seen' attrs' names' H; cbn in H.
  - now injection H as _ <- <-.
  - cbn [fmap list_fmap] in Hnot. apply not_elem_of_cons in Hnot as [Hne Hnot].
    apply (IH Hnot) in H as [-> ->]. now rewrite !lookup_insert_ne by congruence.
Qed.

Lemma initAttributes_spec (l : list element) :
  forall seen attrs names seen' attrs' names',
    foldl initAttribute (seen, attrs, names) l = (seen', attrs', names') ->
    seen' = seen ++ (filled <$> l)
    /\ (forall x, is_Some (attrs' !! x) <-> is_Some (attrs !! x) \/ x ∈ XN <$> l)
    /\ (forall x, is_Some (names' !! x) <-> is_Some (names !! x) \/ x ∈ XN <$> l)
    /\ (NoDup (XN <$> l) ->
        forall a, a ∈ l ->
                  attrs' !! XN a = Some (T a) /\ names' !! XN a = Some (JN (filled a))).
Proof.
  induction l as [|a l IH]; intros seen attrs names seen' attrs' names' H; cbn in H.
  - injection H as <- <- <-. split; [now rewrite app_nil_r|].
    split; [intros x; split; [now left | intros [?|Hx]; [assumption | inversion Hx]]|].
    split; [intros x; split; [now left | intros [?|Hx]; [assumption | inversion Hx]]|].
    intros _ a Ha. inversion Ha.
  - pose proof H as H'. apply IH in H as (-> & Hattrs & Hnames & Hnd).
    split; [now rewrite <- app_assoc|].
    assert (Hdom : forall {V} (m : gmap string V) (w : V) x,
               is_Some (<[XN a := w]> m !! x) \/ x ∈ XN <$> l
               <-> is_Some (m !! x) \/ x ∈ XN <$> a :: l).
    { intros V m w x. cbn [fmap list_fmap]. rewrite elem_of_cons.
      destruct (decide (x = XN a)) as [->|Hne].
      - rewrite lookup_insert_eq. split; [intros _; right; now left | intros _; left; now eexists].
      - rewrite lookup_insert_ne by congruence. tauto. }
    split; [intros x; rewrite Hattrs; apply Hdom|].
    split; [intros x; rewrite Hnames; apply Hdom|].
    intros Hno b Hb. cbn [fmap list_fmap] in Hno. apply NoDup_cons in Hno as [Hnot Hno].
    apply elem_of_cons in Hb as [-> | Hb]; [|now apply Hnd].
    apply (initAttributes_keep _ _ Hnot) in H' as [-> ->].
    now rewrite !lookup_insert_eq.
Qed.

Lemma Initialize_inv range elements v v' :
  Initialize range elements v = Ok v' ->
  exists attributes attrs names st jle lit,
    foldl initAttribute ([], ∅, ∅) (Attributes v) = (attributes, attrs, names)
    /\ forM elements (mkInit ∅ (JsonDefaults v) (JsonElementList v) ∅)
         (initElement (Name v)) = Ok st
    /\ initListElement range v (is_list st) = Ok jle
    /\ resolveListItemType v = Ok lit
    /\ v' = mkEwsType (Name v) attributes (is_byName st) (is_defaults st) (is_list st)
              (JsonExtra v) attrs names (AnyAttr v) (IsSimple v) (SimpleType v)
              (TextAttr v) (JsonType v) (IsList v) (JsonListName v) jle
              (jsonHooks (Name v)) (EnumValues v) (ListItemTypeStr v) lit.
Proof.
  intros H. unfold Initialize in H.
  destruct (foldl initAttribute ([], ∅, ∅) (Attributes v)) as [[attributes attrs] names].
  bind_case' H. bind_case' H. bind_case' H. injection H as <-.
  now exists attributes, attrs, names, a, a0, a1.
Qed.

(** X16: what [Initialize] makes of the attributes of a type.  Every
    attribute gets a JSON name (its XML name when none was given), and the
    two maps of the XML -> JSON direction have exactly the XML names of
    the attributes as keys; when no XML name is declared twice, they hold
    for each attribute its type and the JSON name that the JSON -> XML
    direction reads from [Attributes], so both directions use the same
    pair of names. *)
Theorem Initialize_attribute_tables range (elements : list element) (v v' : EwsType) :
  Initialize range elements v = Ok v' ->
  Attributes v' = filled <$> Attributes v
  /\ (forall x, is_Some (Attrs v' !! x) <-> x ∈ XN <$> Attributes v)
  /\ (forall x, is_Some (AttrsNames v' !! x) <-> x ∈ XN <$> Attributes v)
  /\ (forall a, a ∈ Attributes v' -> XN a <> "" -> JN a <> "")
  /\ (NoDup (XN <$> Attributes v) ->
      forall a, a ∈ Attributes v' ->
                Attrs v' !! XN a = Some (T a) /\ AttrsNames v' !! XN a = Some (JN a)).
Proof.
  intros H.
  destruct (Initialize_inv _ _ _ _ H)
    as (attributes & attrs & names & st & jle & lit & Ha & _ & _ & _ & ->).
  apply initAttributes_spec in Ha as (-> & Hattrs & Hnames & Hnd).
  cbn [Attributes Attrs AttrsNames app].
  refine (conj eq_refl (conj _ (conj _ (conj _ _)))).
  - intros x. rewrite Hattrs, lookup_empty. split; [intros [[? ?]|?]; [discriminate | assumption]|].
    now right.
  - intros x. rewrite Hnames, lookup_empty. split; [intros [[? ?]|?]; [discriminate | assumption]|].
    now right.
  - intros a Ha Hx. apply list_elem_of_fmap in Ha as (a0 & -> & _). cbn in *.
    destruct (String.eqb (JN a0) "") eqn:E; [exact Hx | now apply String.eqb_neq].
  - intros Hno a Ha. apply list_elem_of_fmap in Ha as (a0 & -> & Ha0).
    exact (Hnd Hno a0 Ha0).
Qed.

(** The loop over the elements keeps the local map [tmp] and the list
    of descriptions in step: behind the [n0] descriptions that were there
    before, [tmp] holds exactly the places of the descriptions under
    their JSON names, and the JSON name of every XML element name is known
    to [tmp]. *)
Definition initInv (n0 : nat) (st : initState) : Prop :=
  (n0 <= length (is_list st))%nat
  /\ (forall j i, is_tmp st !! j = Some i ->
        (n0 <= i)%nat /\ exists je, is_list st !! i = Some je /\ jeJsonName je = j)
  /\ (forall i je, is_list st !! i = Some je -> (n0 <= i)%nat ->
        is_tmp st !! jeJsonName je = Some i)
  /\ (forall ename x, is_byName st !! ename = Some x ->
        is_Some (is_tmp st !! xeJsonName x)).

(** The JSON name [Initialize] gives to the element [e] named [ename]. *)
Definition jsonNameOf (e : element) (ename : string) : string :=
  if String.eqb (JN e) "" then ename else JN e.

Lemma initElement_inv name e st st' :
  initElement name e st = Ok st' ->
  exists ename je je',
    Split (XN e) ":" !! 1%nat = Some ename
    /\ jeJsonName je' = jeJsonName je
    /\ (forall k, is_Some (jeElements je !! k) -> is_Some (jeElements je' !! k))
    /\ (name <> "ArrayOfResponseMessagesType" -> is_Some (jeElements je' !! XN e))
    /\ is_byName st'
       = <[ename := mkXmlElement (jsonNameOf e ename) (T e) (List_ e)]> (is_byName st)
    /\ match is_tmp st !! jsonNameOf e ename with
       | Some i =>
           is_list st !! i = Some je
           /\ is_list st' = <[i := je']> (is_list st) /\ is_tmp st' = is_tmp st
       | None =>
           je = NewEwsJsonElement name (jsonNameOf e ename) (List_ e)
           /\ is_list st' = is_list st ++ [je']
           /\ is_tmp st' = <[jsonNameOf e ename := length (is_list st)]> (is_tmp st)
       end.
Proof.
  intros H. unfold initElement in H.
  destruct (Split (XN e) ":" !! 1%nat) as [ename|]; [|discriminate].
  fold (jsonNameOf e ename) in H.
  assert (Hstep : forall je je',
             (if String.eqb name "ArrayOfResponseMessagesType"
              then Ok (withTypes je (Some (<[ename := mkJsonType (T e) (mkName "" (XN e)) (JT e)]>
                                             (default ∅ (jeTypes je)))))
              else add je (mkJsonType (T e) (mkName "" (XN e)) (JT e))) = Ok je' ->
             jeJsonName je' = jeJsonName je
             /\ (forall k, is_Some (jeElements je !! k) -> is_Some (jeElements je' !! k))
             /\ (name <> "ArrayOfResponseMessagesType" -> is_Some (jeElements je' !! XN e))).
  { intros je je' Hs. destruct (String.eqb name "ArrayOfResponseMessagesType") eqn:En.
    - injection Hs as <-. apply String.eqb_eq in En.
      split; [reflexivity | split; [intros k Hk; exact Hk | intros Hn; contradiction]].
    - apply add_keeps in Hs as (Hn & _ & _ & He). split; [exact Hn|]. rewrite He. cbn.
      split; [|intros _; rewrite lookup_insert_eq; now eexists].
      intros k Hk. destruct (decide (k = XN e)) as [->|Hne].
      + rewrite lookup_insert_eq. now eexists.
      + now rewrite lookup_insert_ne by congruence. }
  destruct (is_tmp st !! jsonNameOf e ename) as [i|] eqn:Et.
  - destruct (is_list st !! i) as [je|] eqn:Ei; [|discriminate].
    bind_case' H. injection H as <-.
    destruct (Hstep _ _ E) as (Hn & Hk & Hx).
    exists ename, je, a. cbn [is_byName is_list is_tmp]. rewrite Et.
    repeat (split; [first [reflexivity | assumption]|]). now split.
  - rewrite lookup_app_r in H by lia. rewrite Nat.sub_diag in H. cbn [lookup list_lookup] in H.
    bind_case' H. injection H as <-.
    destruct (Hstep _ _ E) as (Hn & Hk & Hx).
    exists ename, (NewEwsJsonElement name (jsonNameOf e ename) (List_ e)), a.
    cbn [is_byName is_list is_tmp]. rewrite Et.
    repeat (split; [first [reflexivity | assumption]|]).
    split; [|reflexivity].
    rewrite insert_app_r_alt, Nat.sub_diag by lia. reflexivity.
Qed.

Lemma initElement_initInv n0 name e st st' :
  initInv n0 st -> initElement name e st = Ok st' -> initInv n0 st'.
Proof.
  intros (Hlen & Htmp & Hlist & Hby) H.
  destruct (initElement_inv _ _ _ _ H) as (ename & je & je' & _ & Hn & _ & _ & Eby & Hcase).
  destruct (is_tmp st !! jsonNameOf e ename) as [i|] eqn:Et.
  - destruct Hcase as (Ei & El & Etmp).
    destruct (Htmp _ _ Et) as (Hi & je0 & Ei0 & Hj0).
    assert (je0 = je) as -> by congruence.
    assert (Hlt : (i < length (is_list st))%nat) by (eapply lookup_lt_Some; eauto).
    refine (conj _ (conj _ (conj _ _))).
    + rewrite El, length_insert. exact Hlen.
    + intros j k Hk. rewrite Etmp in Hk. destruct (Htmp _ _ Hk) as (Hk0 & jk & Ek & Hjk).
      split; [exact Hk0|]. rewrite El. destruct (decide (k = i)) as [->|Hne].
      * exists je'. rewrite list_lookup_insert_eq by exact Hlt.
        split; [reflexivity|]. congruence.
      * exists jk. now rewrite list_lookup_insert_ne by congruence.
    + intros k jk Hk Hk0. rewrite Etmp. rewrite El in Hk.
      destruct (decide (k = i)) as [->|Hne].
      * rewrite list_lookup_insert_eq in Hk by exact Hlt. injection Hk as <-.
        rewrite Hn, Hj0. exact Et.
      * rewrite list_lookup_insert_ne in Hk by congruence. now apply Hlist.
    + intros en x Hx. rewrite Etmp. rewrite Eby in Hx.
      destruct (decide (en = ename)) as [->|Hne].
      * rewrite lookup_insert_eq in Hx. injection Hx as <-. cbn [xeJsonName].
        rewrite Et. now eexists.
      * rewrite lookup_insert_ne in Hx by congruence. now apply (Hby en).
  - destruct Hcase as (-> & El & Etmp).
    assert (Hname : jeJsonName je' = jsonNameOf e ename) by (rewrite Hn; reflexivity).
    refine (conj _ (conj _ (conj _ _))).
    + rewrite El, length_app. lia.
    + intros j k Hk. rewrite Etmp in Hk. rewrite El.
      destruct (decide (j = jsonNameOf e ename)) as [->|Hne].
      * rewrite lookup_insert_eq in Hk. injection Hk as <-. split; [exact Hlen|].
        exists je'. split; [|exact Hname].
        now rewrite lookup_app_r, Nat.sub_diag by lia.
      * rewrite lookup_insert_ne in Hk by congruence.
        destruct (Htmp _ _ Hk) as (Hk0 & jk & Ek & Hjk). split; [exact Hk0|].
        exists jk. split; [|exact Hjk].
        rewrite lookup_app_l by (eapply lookup_lt_Some; eauto). exact Ek.
    + intros k jk Hk Hk0. rewrite Etmp. rewrite El in Hk.
      destruct (decide (k < length (is_list st))%nat) as [Hlt|Hge].
      * rewrite lookup_app_l in Hk by exact Hlt.
        pose proof (Hlist _ _ Hk Hk0) as Hin.
        rewrite lookup_insert_ne; [exact Hin | congruence].
      * rewrite lookup_app_r in Hk by lia.
        destruct (k - length (is_list st))%nat as [|d] eqn:Ed; [|destruct d; discriminate].
        injection Hk as <-. rewrite Hname, lookup_insert_eq. f_equal. lia.
    + intros en x Hx. rewrite Etmp. rewrite Eby in Hx.
      destruct (decide (en = ename)) as [->|Hne].
      * rewrite lookup_insert_eq in Hx. injection Hx as <-. cbn [xeJsonName].
        rewrite lookup_insert_eq. now eexists.
      * rewrite lookup_insert_ne in Hx by congruence.
        destruct (Hby en x Hx) as [k Hk].
        destruct (decide (xeJsonName x = jsonNameOf e ename)) as [Heq|Hneq].
        -- rewrite Heq, lookup_insert_eq. now eexists.
        -- rewrite lookup_insert_ne by congruence. rewrite Hk. now eexists.
Qed.


(** The element [e] is entered in both tables: its name is a key of
    [TypeByElementName], and the description under its JSON name knows its
    tag (the type [ArrayOfResponseMessagesType] keeps no tags). *)
Definition entered (name : string) (st : initState) (e : element) : Prop :=
  exists ename i je,
    Split (XN e) ":" !! 1%nat = Some ename
    /\ is_Some (is_byName st !! ename)
    /\ is_tmp st !! jsonNameOf e ename = Some i
    /\ is_list st !! i = Some je
    /\ jeJsonName je = jsonNameOf e ename
    /\ (name <> "ArrayOfResponseMessagesType" -> is_Some (jeElements je !! XN e)).

Lemma initElement_enters n0 name e st st' :
  initInv n0 st -> initElement name e st = Ok st' -> entered name st' e.
Proof.
  intros (Hlen & Htmp & Hlist & Hby) H.
  destruct (initElement_inv _ _ _ _ H) as (ename & je & je' & Es & Hn & _ & Hx & Eby & Hcase).
  destruct (is_tmp st !! jsonNameOf e ename) as [i|] eqn:Et.
  - destruct Hcase as (Ei & El & Etmp).
    destruct (Htmp _ _ Et) as (_ & je0 & Ei0 & Hj0).
    assert (je0 = je) as -> by congruence.
    exists ename, i, je'. split; [exact Es|].
    split; [rewrite Eby, lookup_insert_eq; now eexists|].
    split; [now rewrite Etmp|].
    split; [rewrite El; apply list_lookup_insert_eq; eapply lookup_lt_Some; eauto|].
    split; [congruence | exact Hx].
  - destruct Hcase as (-> & El & Etmp).
    exists ename, (length (is_list st)), je'. split; [exact Es|].
    split; [rewrite Eby, lookup_insert_eq; now eexists|].
    split; [rewrite Etmp; apply lookup_insert_eq|].
    split; [rewrite El; now rewrite lookup_app_r, Nat.sub_diag by lia|].
    split; [exact Hn | exact Hx].
Qed.

Lemma initElement_keeps_entered n0 name e st st' e0 :
  initInv n0 st -> initElement name e st = Ok st' ->
  entered name st e0 -> entered name st' e0.
Proof.
  intros (Hlen & Htmp & Hlist & Hby) H (en0 & i0 & je0 & Es0 & Hb0 & Et0 & Ei0 & Hj0 & Hx0).
  destruct (initElement_inv _ _ _ _ H) as (ename & je & je' & Es & Hn & Hk & _ & Eby & Hcase).
  assert (Hb0' : is_Some (is_byName st' !! en0)).
  { rewrite Eby. destruct (decide (en0 = ename)) as [->|Hne].
    - rewrite lookup_insert_eq. now eexists.
    - now rewrite lookup_insert_ne by congruence. }
  destruct (is_tmp st !! jsonNameOf e ename) as [i|] eqn:Et.
  - destruct Hcase as (Ei & El & Etmp).
    destruct (decide (i0 = i)) as [->|Hne].
    + assert (je0 = je) as -> by congruence.
      exists en0, i, je'. split; [exact Es0 | split; [exact Hb0'|]].
      split; [now rewrite Etmp|].
      split; [rewrite El; apply list_lookup_insert_eq; eapply lookup_lt_Some; eauto|].
      split; [congruence|]. intros Hname. apply Hk. now apply Hx0.
    + exists en0, i0, je0. split; [exact Es0 | split; [exact Hb0'|]].
      split; [now rewrite Etmp|].
      split; [rewrite El; now rewrite list_lookup_insert_ne by congruence|].
      split; [exact Hj0 | exact Hx0].
  - destruct Hcase as (-> & El & Etmp).
    exists en0, i0, je0. split; [exact Es0 | split; [exact Hb0'|]].
    split; [rewrite Etmp; rewrite lookup_insert_ne; [exact Et0 | congruence]|].
    split; [rewrite El, lookup_app_l; [exact Ei0 | eapply lookup_lt_Some; eauto]|].
    split; [exact Hj0 | exact Hx0].
Qed.

Lemma initElements_spec n0 name l : forall st st',
  initInv n0 st ->
  forM l st (initElement name) = Ok st' ->
  initInv n0 st'
  /\ (forall e0, entered name st e0 \/ e0 ∈ l -> entered name st' e0)
  /\ (forall en x,
        is_byName st' !! en = Some x ->
        is_byName st !! en = Some x
        \/ exists e, e ∈ l /\ Split (XN e) ":" !! 1%nat = Some en
                     /\ x = mkXmlElement (jsonNameOf e en) (T e) (List_ e)).
Proof.
  induction l as [|e l IH]; intros st st' Hinv H; cbn [forM] in H.
  - injection H as <-. split; [exact Hinv|]. split.
    + intros e0 [He0 | He0]; [exact He0 | inversion He0].
    + intros en x Hx. now left.
  - bind_case' H. rename a into st1.
    pose proof (initElement_initInv _ _ _ _ _ Hinv E) as Hinv1.
    destruct (IH _ _ Hinv1 H) as (Hinv' & Hent & Hfrom).
    split; [exact Hinv'|]. split.
    + intros e0 [He0 | He0]; apply Hent.
      * left. exact (initElement_keeps_entered _ _ _ _ _ _ Hinv E He0).
      * apply elem_of_cons in He0 as [-> | He0]; [|now right].
        left. exact (initElement_enters _ _ _ _ _ Hinv E).
    + intros en x Hx. destruct (Hfrom en x Hx) as [Hx1 | (e1 & He1 & Hs1 & ->)].
      * destruct (initElement_inv _ _ _ _ E) as (ename & _ & _ & Es & _ & _ & _ & Eby & _).
        rewrite Eby in Hx1. destruct (decide (en = ename)) as [->|Hne].
        -- rewrite lookup_insert_eq in Hx1. injection Hx1 as <-.
           right. exists e. split; [left | now split].
        -- rewrite lookup_insert_ne in Hx1 by congruence. now left.
      * right. exists e1. split; [now right | now split].
Qed.

(** X17: what [Initialize] makes of the child elements of a type.  The
    two directions get tables that fit each other: every declared element
    is a key of [TypeByElementName] under the part of its XML name behind
    the colon, and [JsonElementList] holds a description with its JSON
    name that knows its tag; every entry of [TypeByElementName] stems
    from a declared element and has a description under its JSON name;
    and a type that starts with an empty [JsonElementList] gets one
    description for each JSON name. *)
Theorem Initialize_child_tables range (elements : list element) (v v' : EwsType) :
  Initialize range elements v = Ok v' ->
  (forall e, e ∈ elements ->
     exists ename je,
       Split (XN e) ":" !! 1%nat = Some ename
       /\ is_Some (TypeByElementName v' !! ename)
       /\ je ∈ JsonElementList v' /\ jeJsonName je = jsonNameOf e ename
       /\ (Name v <> "ArrayOfResponseMessagesType" -> is_Some (jeElements je !! XN e)))
  /\ (forall ename x,
        TypeByElementName v' !! ename = Some x ->
        (exists e, e ∈ elements /\ Split (XN e) ":" !! 1%nat = Some ename
                   /\ x = mkXmlElement (jsonNameOf e ename) (T e) (List_ e))
        /\ exists je, je ∈ JsonElementList v' /\ jeJsonName je = xeJsonName x)
  /\ (JsonElementList v = [] -> NoDup (jeJsonName <$> JsonElementList v')).
Proof.
  intros H.
  destruct (Initialize_inv _ _ _ _ H)
    as (attributes & attrs & names & st & jle & lit & _ & Hst & _ & _ & ->).
  cbn [TypeByElementName JsonElementList Name].
  assert (Hinv0 : initInv (length (JsonElementList v))
                    (mkInit ∅ (JsonDefaults v) (JsonElementList v) ∅)).
  { refine (conj _ (conj _ (conj _ _))); cbn [is_list is_tmp is_byName].
    - lia.
    - intros j i Hj. rewrite lookup_empty in Hj. discriminate.
    - intros i je Hi Hge. apply lookup_lt_Some in Hi. lia.
    - intros en x Hx. rewrite lookup_empty in Hx. discriminate. }
  destruct (initElements_spec _ _ _ _ _ Hinv0 Hst)
    as ((Hlen & Htmp & Hlist & Hby) & Hent & Hfrom).
  refine (conj _ (conj _ _)).
  - intros e He.
    destruct (Hent e (or_intror He)) as (ename & i & je & Es & Hb & Et & Ei & Hj & Hx).
    exists ename, je. split; [exact Es | split; [exact Hb|]].
    split; [eapply list_elem_of_lookup_2; eauto | now split].
  - intros ename x Hx. split.
    + destruct (Hfrom _ _ Hx) as [Hx0 | Hx0]; [|exact Hx0].
      cbn in Hx0. rewrite lookup_empty in Hx0. discriminate.
    + destruct (Hby _ _ Hx) as [i Hi]. destruct (Htmp _ _ Hi) as (_ & je & Ei & Hj).
      exists je. split; [eapply list_elem_of_lookup_2; eauto | exact Hj].
  - intros Hnil. rewrite Hnil in *. cbn [length] in *.
    apply NoDup_alt. intros i k j Hi Hk.
    rewrite list_lookup_fmap in Hi, Hk.
    destruct (is_list st !! i) as [je1|] eqn:E1; [|discriminate].
    destruct (is_list st !! k) as [je2|] eqn:E2; [|discriminate].
    cbn in Hi, Hk. injection Hi as Hi. injection Hk as Hk.
    pose proof (Hlist _ _ E1 (Nat.le_0_l _)) as H1.
    pose proof (Hlist _ _ E2 (Nat.le_0_l _)) as H2.
    rewrite Hi in H1. rewrite Hk in H2. congruence.
Qed.

(* ------------------------------------------------------------------ *)
(** ** The message is made of the two sections, in either order *)
(* ------------------------------------------------------------------ *)

Lemma soapLoop_unfold n fuel d st :
  (0 < n)%nat ->
  soapLoop n fuel d st
  = if negb (gotHeader st) || negb (gotBody st) then
      '(el, d1) ← getNextStartElement d;
      if String.eqb (Local (SName el)) "Header" then
        if gotHeader st then Err (ENew "multiple SOAP headers found")
        else
          '(h, d2) ← soapHeader fuel d1 el;
          soapLoop (pred n) fuel d2
            (mkSoapState (Some h) (st_body st) (st_msgType st) (st_op st) true (gotBody st))
      else if String.eqb (Local (SName el)) "Body" then
        if gotBody st then Err (ENew "multiple SOAP bodies found")
        else
          '(op, body, d2) ← soapBody fuel d1;
          soapLoop (pred n) fuel d2
            (mkSoapState (st_header st) body (RequestType op) (Some op) (gotHeader st) true)
      else soapLoop (pred n) fuel d1 st
    else Ok (st, d).
Proof. intros Hn. destruct n as [|n]; [lia | reflexivity]. Qed.

Lemma soapLoop_header_turn n fuel misc hdr d st h d2 :
  (0 < n)%nat -> Forall isMisc misc -> Local (SName hdr) = "Header" ->
  gotHeader st = false -> soapHeader fuel d hdr = Ok (h, d2) ->
  soapLoop n fuel (misc ++ TStartElement hdr :: d) st
  = soapLoop (pred n) fuel d2
      (mkSoapState (Some h) (st_body st) (st_msgType st) (st_op st) true (gotBody st)).
Proof.
  intros Hn Hm Hl Hg Hh. rewrite soapLoop_unfold by exact Hn.
  rewrite Hg. cbn [negb orb]. rewrite getNextStartElement_skip by exact Hm.
  cbn [mbind outcome_bind]. rewrite Hl, Hh. reflexivity.
Qed.

Lemma soapLoop_body_turn n fuel misc body d st op b d2 :
  (0 < n)%nat -> Forall isMisc misc -> Local (SName body) = "Body" ->
  gotBody st = false -> soapBody fuel d = Ok (op, b, d2) ->
  soapLoop n fuel (misc ++ TStartElement body :: d) st
  = soapLoop (pred n) fuel d2
      (mkSoapState (st_header st) b (RequestType op) (Some op) (gotHeader st) true).
Proof.
  intros Hn Hm Hl Hg Hb. rewrite soapLoop_unfold by exact Hn.
  rewrite Hg. rewrite orb_true_r. rewrite getNextStartElement_skip by exact Hm.
  cbn [mbind outcome_bind]. rewrite Hl, Hb. reflexivity.
Qed.

Lemma soapBody_turn fuel m3 opEl d op b m4 bn x :
  Forall isMisc m3 -> Forall isMisc m4 ->
  EwsOperations !! Local (SName opEl) = Some op ->
  processSoapElement fuel d opEl (deref (Request op)) (BodyType op)
  = Ok (b, m4 ++ TEndElement bn :: x) ->
  soapBody fuel (m3 ++ TStartElement opEl :: d) = Ok (op, b, x).
Proof.
  intros H3 H4 Hop Hb. unfold soapBody. rewrite getNextStartElement_skip by exact H3.
  cbn [mbind outcome_bind]. rewrite Hop, Hb. cbn [mbind outcome_bind].
  now rewrite getNextElement_skip by exact H4.
Qed.

(** Whatever a section was translated to on its own tokens, it is
    translated to in front of any other tokens, with any fuel that covers
    it. *)
Lemma soapHeader_alone fuel hc hn hdr h :
  soapHeader fuel (hc ++ [TEndElement hn]) hdr = Ok (h, []) ->
  forall fuel' x, (length hc + 1 < fuel')%nat ->
    soapHeader fuel' (hc ++ TEndElement hn :: x) hdr = Ok (h, x).
Proof.
  intros H fuel' x Hlt.
  destruct (soapHeader_local _ _ _ _ _ H) as (p & Hp & _ & Hrun).
  rewrite app_nil_r in Hp. subst p.
  specialize (Hrun fuel' x). rewrite <- app_assoc in Hrun. apply Hrun.
  rewrite length_app. cbn. lia.
Qed.

Lemma processSoapElement_alone fuel oc on opEl typ jsonType b :
  processSoapElement fuel (oc ++ [TEndElement on]) opEl typ jsonType = Ok (b, []) ->
  forall fuel' x, (length oc + 1 < fuel')%nat ->
    processSoapElement fuel' (oc ++ TEndElement on :: x) opEl typ jsonType = Ok (b, x).
Proof.
  intros H fuel' x Hlt.
  destruct (processSoapElement_local _ _ _ _ _ _ _ H) as (p & Hp & _ & Hrun).
  rewrite app_nil_r in Hp. subst p.
  specialize (Hrun fuel' x). rewrite <- app_assoc in Hrun. apply Hrun.
  rewrite length_app. cbn. lia.
Qed.

(** X18: how [SOAP2JSON] puts a request together.  When the [Header]
    element on its own translates to the header [h], and the child of
    [Body], an operation of the catalog, translates on its own to [b],
    then the envelope with these two sections translates to the message
    with the request type of the operation, [h] and [b], and to the
    operation; the two sections may come in either order, and comments,
    white space and the like may stand between the elements. *)
Theorem SOAP2JSON_of_its_sections
    (F1 F2 : nat) (env hdr body opEl : StartElement) (hn on bn en : XmlName)
    (m0 m1 m2 m3 m4 m5 hc oc rest : list Token)
    (h : list Member) (b : option (list Member)) (op : OpDescriptor) :
  Forall isMisc m0 -> Forall isMisc m1 -> Forall isMisc m2 ->
  Forall isMisc m3 -> Forall isMisc m4 -> Forall isMisc m5 ->
  Local (SName env) = "Envelope" -> Local (SName hdr) = "Header" ->
  Local (SName body) = "Body" ->
  EwsOperations !! Local (SName opEl) = Some op ->
  soapHeader F1 (hc ++ [TEndElement hn]) hdr = Ok (h, []) ->
  processSoapElement F2 (oc ++ [TEndElement on]) opEl (deref (Request op)) (BodyType op)
  = Ok (b, []) ->
  let msg := [("__type", VString (RequestType op)); ("Header", VObject h);
              ("Body", objectValue b)] in
  SOAP2JSON (m0 ++ TStartElement env
               :: m1 ++ TStartElement hdr :: hc ++ TEndElement hn
               :: m2 ++ TStartElement body
               :: m3 ++ TStartElement opEl :: oc ++ TEndElement on
               :: m4 ++ TEndElement bn
               :: m5 ++ TEndElement en :: rest)
  = Ok (msg, Some op)
  /\ SOAP2JSON (m0 ++ TStartElement env
                  :: m1 ++ TStartElement body
                  :: m3 ++ TStartElement opEl :: oc ++ TEndElement on
                  :: m4 ++ TEndElement bn
                  :: m2 ++ TStartElement hdr :: hc ++ TEndElement hn
                  :: m5 ++ TEndElement en :: rest)
     = Ok (msg, Some op).
Proof.
  intros H0 H1 H2 H3 H4 H5 He Hh Hb Hop Hhdr Hbody msg.
  pose proof (soapHeader_alone _ _ _ _ _ Hhdr) as Hrunh.
  pose proof (processSoapElement_alone _ _ _ _ _ _ _ Hbody) as Hrunb.
  split.
  - unfold SOAP2JSON. rewrite getNextStartElement_skip by exact H0.
    cbn [mbind outcome_bind]. rewrite He. cbn [String.eqb Ascii.eqb Bool.eqb negb].
    rewrite (soapLoop_header_turn _ _ m1 hdr _ _ h
               (m2 ++ TStartElement body :: m3 ++ TStartElement opEl
                   :: oc ++ TEndElement on :: m4 ++ TEndElement bn
                   :: m5 ++ TEndElement en :: rest));
      [|lia | exact H1 | exact Hh | reflexivity
       | apply Hrunh; repeat (rewrite ?length_app; cbn [length]); lia].
    cbn [pred soapState0 st_body st_msgType st_op gotBody].
    rewrite (soapLoop_body_turn _ _ m2 body _ _ op b (m5 ++ TEndElement en :: rest));
      [| repeat (rewrite ?length_app; cbn [length]); lia | exact H2 | exact Hb | reflexivity
       | apply (soapBody_turn _ _ _ _ _ _ m4 bn); [exact H3 | exact H4 | exact Hop|];
         apply Hrunb; repeat (rewrite ?length_app; cbn [length]); lia].
    cbn [st_header gotHeader].
    rewrite soapLoop_both by reflexivity. cbn [mbind outcome_bind].
    rewrite getNextElement_skip by exact H5. reflexivity.
  - unfold SOAP2JSON. rewrite getNextStartElement_skip by exact H0.
    cbn [mbind outcome_bind]. rewrite He. cbn [String.eqb Ascii.eqb Bool.eqb negb].
    rewrite (soapLoop_body_turn _ _ m1 body _ _ op b
               (m2 ++ TStartElement hdr :: hc ++ TEndElement hn
                   :: m5 ++ TEndElement en :: rest));
      [|lia | exact H1 | exact Hb | reflexivity
       | apply (soapBody_turn _ _ _ _ _ _ m4 bn); [exact H3 | exact H4 | exact Hop|];
         apply Hrunb; repeat (rewrite ?length_app; cbn [length]); lia].
    cbn [pred soapState0 st_header gotHeader].
    rewrite (soapLoop_header_turn _ _ m2 hdr _ _ h (m5 ++ TEndElement en :: rest));
      [| repeat (rewrite ?length_app; cbn [length]); lia | exact H2 | exact Hh | reflexivity
       | apply Hrunh; repeat (rewrite ?length_app; cbn [length]); lia].
    cbn [st_body st_msgType st_op gotBody].
    rewrite soapLoop_both by reflexivity. cbn [mbind outcome_bind].
    rewrite getNextElement_skip by exact H5. reflexivity.
Qed.
End Translators.

(* ================================================================== *)
(** * The properties on the small registry *)
(* ================================================================== *)

Definition emptyEncoder : Encoder := mkEnc [] [].

Lemma sample_noHintClash : noHintClash Sample.getFolderType.
Proof.
  split; [discriminate | split; [discriminate|]].
  intros x j H. unfold Sample.getFolderType, Sample.complexType in H.
  cbn [AttrsNames] in H. rewrite lookup_empty in H. discriminate.
Defined.

(** C1 on the [GetFolder] request type. *)
Lemma type_hint_is_first_key_witness :
  JsonType Sample.getFolderType <> ""
  /\ noHintClash Sample.getFolderType
  /\ exists ms,
      processElement Sample.ewsTypes 8
        (Sample.countContent ++ [Sample.stop NSMSG "GetFolder"])
        Sample.getFolderStart (Some Sample.getFolderType) = Ok (VObject ms, [])
      /\ ms !! 0%nat = Some ("__type", VString "GetFolderRequest:#Exchange").
Proof.
  assert (Hne : JsonType Sample.getFolderType <> "") by discriminate.
  split; [exact Hne | split; [exact sample_noHintClash|]].
  eexists. split.
  - vm_compute. reflexivity.
  - eapply (proj1 (type_hint_is_first_key Sample.ewsTypes Sample.EwsOperations
                     Sample.requestHeader Sample.getFolderType Hne sample_noHintClash)
              8%nat (Sample.countContent ++ [Sample.stop NSMSG "GetFolder"])
              Sample.getFolderStart _ []).
    vm_compute. reflexivity.
Defined.

(** C9 on the enum of the registry. *)
Lemma enum_chardata_witness :
  SimpleType Sample.enumType = T_ENUM
  /\ convertSimpleToJson Sample.enumType "B" = VInt 2
  /\ convertSimpleToJson Sample.enumType "Unlisted" = VString "Unlisted".
Proof.
  split; [reflexivity | split].
  - apply (proj1 (enum_chardata_first_index_or_raw Sample.enumType "B" eq_refl) 2%nat).
    + reflexivity.
    + intros [|[|m]] Hm; [discriminate | discriminate | lia].
  - apply (proj2 (proj2 (enum_chardata_first_index_or_raw Sample.enumType "Unlisted" eq_refl))).
    intros H. repeat (apply elem_of_cons in H as [H | H]; [discriminate H|]).
    inversion H.
Defined.

(** C8 on the number type of the registry. *)
Lemma number_lexical_form_witness :
  SimpleType Sample.numberType = T_NUM
  /\ toString (convertSimpleToJson Sample.numberType "12.50") = Ok "12.50"
  /\ processJson Sample.ewsTypes 1 emptyEncoder (VNumber "12.50") (Some Sample.countElement)
     = Ok (wrote emptyEncoder (mkName "" "t:Count") "12.50")
  /\ processElement Sample.ewsTypes 3
       [TCharData " 12.50 "; Sample.stop NSTYPE "Count"]
       (mkStart (mkName NSTYPE "Count") []) (Some Sample.numberType)
     = Ok (VNumber "12.50", []).
Proof.
  pose proof (number_lexical_form_preserved Sample.ewsTypes Sample.numberType) as H.
  split; [reflexivity | split; [|split]].
  - apply (H "12.50" eq_refl).
  - apply (proj1 (proj2 (proj2 (proj2 (proj2 (H "12.50" eq_refl)))))
             0%nat emptyEncoder Sample.countElement
             (mkJsonType "Number" (mkName "" "t:Count") ""));
      try reflexivity. discriminate.
  - apply (proj2 (proj2 (proj2 (proj2 (proj2 (H " 12.50 " eq_refl)))))
             0%nat (mkStart (mkName NSTYPE "Count") []) (mkName NSTYPE "Count") []);
      try reflexivity. vm_compute. discriminate.
Defined.

(** C3: the value 6 over the labels [None A B C]. *)
Lemma enum_list_bits_witness :
  processChild Sample.ewsTypes (processJson Sample.ewsTypes 0) Sample.flagsElement
    (emptyEncoder, {[ "Flags" := VNumber "6" ]})
  = Ok (wrote emptyEncoder (mkName "" "t:Flags")
             (Join (selectedLabels Sample.labels 6) " "),
        delete "Flags" {[ "Flags" := VNumber "6" ]})
  /\ Join (selectedLabels Sample.labels 6) " " = "A B".
Proof.
  apply (enum_list_bits_to_labels Sample.ewsTypes (processJson Sample.ewsTypes 0)
           emptyEncoder {[ "Flags" := VNumber "6" ]} Sample.flagsElement
           (mkJsonType "EnumList" (mkName "" "t:Flags") "")
           Sample.enumListType Sample.enumType (VNumber "6") "6" 6);
    try reflexivity.
  - vm_compute. lia.
  - discriminate.
Defined.

(** C4: index 2 is the label [B]; index 7 is outside the four labels. *)
Lemma enum_index_witness :
  processJson Sample.ewsTypes 1 emptyEncoder (VNumber "2") (Some Sample.kindElement)
  = Ok (wrote emptyEncoder (mkName "" "t:Kind") "B")
  /\ processJson Sample.ewsTypes 1 emptyEncoder (VNumber "7") (Some Sample.kindElement)
     = Panic.
Proof.
  assert (Htag : Local (jtXmlTag (mkJsonType "Enum" (mkName "" "t:Kind") "")) <> "")
    by discriminate.
  split.
  - apply (proj1 (enum_index_in_range_label_else_panic Sample.ewsTypes 0 emptyEncoder
                    Sample.kindElement (mkJsonType "Enum" (mkName "" "t:Kind") "")
                    Sample.enumType "2" eq_refl eq_refl eq_refl eq_refl eq_refl eq_refl Htag)
             2 "B"); [reflexivity | lia | reflexivity].
  - apply (proj1 (proj2 (enum_index_in_range_label_else_panic Sample.ewsTypes 0
                           emptyEncoder Sample.kindElement
                           (mkJsonType "Enum" (mkName "" "t:Kind") "")
                           Sample.enumType "7" eq_refl eq_refl eq_refl eq_refl eq_refl
                           eq_refl Htag))
             7); [reflexivity | right; vm_compute; discriminate].
Defined.

(** C5: the key [Bogus] on an item is left over. *)
Lemma leftover_keys_witness :
  processJsonObject Sample.ewsTypes (processJson Sample.ewsTypes 1) emptyEncoder
    {[ "Subject" := VString "s"; "Bogus" := VBool true ]} Sample.extraElement
  = Err (Errorf "extra elements in %s: %#v"
           [AStr "ItemType"; AVal (VMap {[ "Bogus" := VBool true ]})])
  /\ processJsonObject Sample.ewsTypes (processJson Sample.ewsTypes 1) emptyEncoder
       {[ "Subject" := VString "s" ]} Sample.extraElement
     = Ok (mkEnc [] [Sample.start "" "t:Extra" []; Sample.start "" "t:Subject" [];
                     TCharData "s"; Sample.stop "" "t:Subject"; Sample.stop "" "t:Extra"]).
Proof.
  pose (jt := mkJsonType "ItemType" (mkName "" "t:Extra") "").
  pose (enc' := mkEnc [mkName "" "t:Extra"]
                  [Sample.start "" "t:Extra" []; Sample.start "" "t:Subject" [];
                   TCharData "s"; Sample.stop "" "t:Subject"]).
  assert (H1 : consumeObject Sample.ewsTypes (processJson Sample.ewsTypes 1) emptyEncoder
                 {[ "Subject" := VString "s"; "Bogus" := VBool true ]} Sample.extraElement
               = Ok (jt, Sample.itemType, enc', {[ "Bogus" := VBool true ]}))
    by (vm_compute; reflexivity).
  assert (H2 : consumeObject Sample.ewsTypes (processJson Sample.ewsTypes 1) emptyEncoder
                 {[ "Subject" := VString "s" ]} Sample.extraElement
               = Ok (jt, Sample.itemType, enc', ∅))
    by (vm_compute; reflexivity).
  split.
  - apply (proj1 (proj2 (proj2 (proj1 (leftover_keys_fail_the_translation Sample.ewsTypes
                                  1 emptyEncoder _ Sample.extraElement) _ _ _ _ H1)))).
    intros H. apply (f_equal (fun m => m !! "Bogus")) in H. vm_compute in H. discriminate.
  - rewrite (proj2 (proj2 (proj2 (proj1 (leftover_keys_fail_the_translation Sample.ewsTypes
                                    1 emptyEncoder _ Sample.extraElement) _ _ _ _ H2)))
               eq_refl).
    vm_compute. reflexivity.
Defined.

Definition sampleNames : list string := ["Count"; "Extra"; "Flags"; "Kind"].

Lemma sampleNames_NoDup : NoDup sampleNames.
Proof.
  unfold sampleNames.
  repeat (apply NoDup_cons_2;
          [intros H; repeat (apply elem_of_cons in H as [H | H]; [discriminate H|]);
           inversion H|]).
  apply NoDup_nil_2.
Defined.

(** C2 as amended: a child object without [Items] fails the loop, one
    with an [Items] array of objects has its items stamped. *)
Lemma response_items_witness :
  NoDup sampleNames
  /\ returnsError (stampBody Sample.getFolder sampleNames Sample.extraBody)
  /\ exists body' items',
      stampBody Sample.getFolder sampleNames Sample.itemsBody = Ok body'
      /\ body' !! "Extra"
         = Some (VMap (<["Items" := VList items']>
                         {[ "Items" := VList [VMap {[ "Subject" := VString "s" ]}; VMap ∅] ]}))
      /\ stampedItems "GetFolderResponseMessage"
           [VMap {[ "Subject" := VString "s" ]}; VMap ∅] items'.
Proof.
  split; [exact sampleNames_NoDup | split].
  - apply (proj1 (proj2 (response_items_stamped Sample.getFolder sampleNames
                           Sample.extraBody sampleNames_NoDup))
             "Extra" {[ "Subject" := VString "s" ]}).
    + unfold sampleNames. apply elem_of_cons. right. left.
    + reflexivity.
    + reflexivity.
  - destruct (stampBody Sample.getFolder sampleNames Sample.itemsBody)
      as [body'| | |] eqn:E; try (vm_compute in E; discriminate E).
    destruct (proj1 (proj1 (response_items_stamped Sample.getFolder sampleNames
                              Sample.itemsBody sampleNames_NoDup) body' E)
                "Extra"
                {[ "Items" := VList [VMap {[ "Subject" := VString "s" ]}; VMap ∅] ]})
      as (items & items' & Hitems & Hbody & Hst).
    + unfold sampleNames. apply elem_of_cons. right. left.
    + reflexivity.
    + exists body', items'. split; [reflexivity | split; [exact Hbody|]].
      vm_compute in Hitems. injection Hitems as <-. exact Hst.
Defined.

(** C2 as stated fails here: the child [Extra] is an object without
    [Items], its type [ItemType] declares no [Items], and [JSON2SOAP]
    still fails on the missing key. *)
Lemma missing_items_fails_without_declaration :
  TypeByElementName Sample.responseType !! "Extra"
  = Some (mkXmlElement "Extra" "ItemType" false)
  /\ Sample.ewsTypes !! "ItemType" = Some Sample.itemType
  /\ ~ declaresItems Sample.itemType
  /\ Sample.extraBody !! "Extra" = Some (VMap {[ "Subject" := VString "s" ]})
  /\ JSON2SOAP Sample.ewsTypes Sample.responseHeader
       (mkMsg "GetFolderResponse" None (Some Sample.extraBody)) Sample.getFolder
     = Err (ENew "Internal error: Cannot find 'Items' element in 'Extra'").
Proof.
  split; [reflexivity | split; [reflexivity | split; [|split]]].
  - intros [H | H]; [discriminate|].
    cbn in H. repeat (apply elem_of_cons in H as [H | H]; [discriminate H|]).
    inversion H.
  - reflexivity.
  - vm_compute. reflexivity.
Qed.

(** C6 as stated fails here: the request has no [Header] element and
    [SOAP2JSON] ends with an error where the loop looks for one. *)
Lemma no_header_request_is_an_error :
  (forall el, TStartElement el ∈ Sample.noHeaderRequest -> Local (SName el) <> "Header")
  /\ SOAP2JSON Sample.ewsTypes Sample.EwsOperations Sample.requestHeader
       Sample.noHeaderRequest
     = Err (Errorf "unexpected element (wanted start), got %#v"
              [ATok (Sample.stop NSSOAP "Envelope")]).
Proof.
  split.
  - intros el H. unfold Sample.noHeaderRequest in H.
    repeat (apply elem_of_cons in H as [H | H];
            [first [discriminate H | injection H as ->; discriminate]|]).
    inversion H.
  - vm_compute. reflexivity.
Qed.

(** C6 as amended, on a request with an empty [Header] element. *)
Lemma empty_header_witness :
  exists msg op,
    SOAP2JSON Sample.ewsTypes Sample.EwsOperations Sample.requestHeader
      Sample.emptyHeaderRequest = Ok (msg, op)
    /\ msg !! 1%nat = Some ("Header", VObject synthesizedHeader)
    /\ msg !! 2%nat
       = Some ("Body", VObject [("__type", VString "GetFolderRequest:#Exchange");
                                ("Count", VNumber "12.50")]).
Proof.
  destruct (SOAP2JSON Sample.ewsTypes Sample.EwsOperations Sample.requestHeader
              Sample.emptyHeaderRequest) as [[msg op]| | |] eqn:E;
    try (vm_compute in E; discriminate E).
  exists msg, op. split; [reflexivity | split].
  - apply (proj2 (proj2 (header_element_required_empty_one_synthesized
                           Sample.ewsTypes Sample.EwsOperations Sample.requestHeader))
             Sample.envelope Sample.headerStart (mkName NSSOAP "Header")
             Sample.emptyHeaderRest msg op eq_refl eq_refl E).
  - vm_compute in E. injection E as <- _. reflexivity.
Defined.

(** C7 on the header of a request that asks for [Exchange2010_SP2], and
    on one that asks for [Exchange2016]. *)
Lemma request_server_version_witness :
  fixupHeader [("__type", VString "JsonRequestHeaders:#Exchange");
               ("RequestServerVersion", VObject [("Version", VString "Exchange2010_SP2")])]
    !! 1%nat = Some ("RequestServerVersion", VString "Exchange2013")
  /\ fixupHeader [("__type", VString "JsonRequestHeaders:#Exchange");
                  ("RequestServerVersion", VObject [("Version", VString "Exchange2016")])]
       !! 1%nat = Some ("RequestServerVersion", VString "Exchange2016")
  /\ exists msg op,
      SOAP2JSON Sample.ewsTypes Sample.EwsOperations Sample.requestHeader
        Sample.versionedRequest = Ok (msg, op)
      /\ msg !! 1%nat
         = Some ("Header", VObject [("__type", VString "JsonRequestHeaders:#Exchange");
                                    ("RequestServerVersion", VString "Exchange2013")]).
Proof.
  pose proof (proj1 (request_server_version_upgraded Sample.ewsTypes Sample.EwsOperations
                       Sample.requestHeader)) as Hfix.
  assert (Huniq : forall ver j' w,
             [("Version", VString ver)] !! j' = Some ("Version", w) -> j' = 0%nat).
  { intros ver [|j'] w H; [reflexivity | destruct j'; discriminate]. }
  split; [|split].
  - apply (proj1 (proj2 (Hfix [("__type", VString "JsonRequestHeaders:#Exchange");
                               ("RequestServerVersion",
                                VObject [("Version", VString "Exchange2010_SP2")])]
                           1%nat [("Version", VString "Exchange2010_SP2")] 0%nat
                           "Exchange2010_SP2" eq_refl eq_refl (Huniq _)))).
    right. reflexivity.
  - apply (proj2 (proj2 (Hfix [("__type", VString "JsonRequestHeaders:#Exchange");
                               ("RequestServerVersion",
                                VObject [("Version", VString "Exchange2016")])]
                           1%nat [("Version", VString "Exchange2016")] 0%nat
                           "Exchange2016" eq_refl eq_refl (Huniq _)))); reflexivity.
  - do 2 eexists. split; [vm_compute; reflexivity | reflexivity].
Defined.

Lemma sample_typeOk typ :
  typ ∈ [Sample.stringType; Sample.numberType; Sample.enumType; Sample.enumListType;
         Sample.versionType; Sample.headerType; Sample.getFolderType; Sample.itemType;
         Sample.responseType] ->
  typeOk Sample.ewsTypes typ.
Proof.
  intros H.
  repeat (apply elem_of_cons in H as [-> | H];
          [split; [|split];
           [ intros x a Ha; cbn in Ha;
             first [ rewrite lookup_empty in Ha; discriminate
                   | apply lookup_singleton_Some in Ha as [_ <-]; now eexists ]
           | intros Hs Ht; first [discriminate Hs | split; [reflexivity | right; reflexivity]]
           | intros Ht; now destruct Ht ]
          |]).
  inversion H.
Defined.

Lemma sample_registryOk : registryOk Sample.ewsTypes Sample.requestHeader.
Proof.
  split; [|now eexists].
  intros name typ H. apply sample_typeOk. unfold Sample.ewsTypes in H.
  repeat (apply lookup_insert_Some in H as [[_ <-] | [_ H]];
          [repeat first [left | right; left; fail | right]|]).
  apply lookup_singleton_Some in H as [_ <-]. repeat first [left | right].
Defined.

Lemma emptyHeader_children cs ns :
  children ns cs -> children ("Header" :: ns) (Sample.emptyHeader ++ cs).
Proof.
  intros H.
  exact (children_elem Sample.headerStart (mkName NSSOAP "Header") [] [] _ _ children_nil H).
Defined.

Lemma plainBody_children cs ns :
  children ns cs -> children ("Body" :: ns) (Sample.plainBody ++ cs).
Proof.
  intros H.
  apply (children_elem Sample.bodyStart (mkName NSSOAP "Body")
           ["GetFolder"] [TStartElement Sample.getFolderStart; Sample.stop NSMSG "GetFolder"]
           _ _); [|exact H].
  apply (children_elem Sample.getFolderStart (mkName NSMSG "GetFolder") [] [] [] []);
    apply children_nil.
Defined.

Lemma twoHeaders_children :
  children ["Header"; "Header"; "Body"] Sample.twoHeadersChildren.
Proof.
  apply (emptyHeader_children _ _
           (emptyHeader_children _ _ (plainBody_children _ _ children_nil))).
Defined.

Lemma headerBodyHeader_children :
  children ["Header"; "Body"; "Header"] Sample.headerBodyHeaderChildren.
Proof.
  apply (emptyHeader_children _ _
           (plainBody_children _ _ (emptyHeader_children _ _ children_nil))).
Defined.

Lemma headerBodyBody_children :
  children ["Header"; "Body"; "Body"] Sample.headerBodyBodyChildren.
Proof.
  apply (emptyHeader_children _ _
           (plainBody_children _ _ (plainBody_children _ _ children_nil))).
Defined.

Lemma prolog_isMisc : Forall isMisc Sample.prolog.
Proof. repeat constructor. Defined.

Lemma sectionNames ns :
  forallb (fun x => String.eqb x "Header" || String.eqb x "Body") ns = true ->
  Forall (fun x => x = "Header" \/ x = "Body") ns.
Proof.
  induction ns as [|n ns IH]; cbn; intros H; constructor.
  - apply andb_prop in H as [H _]. apply orb_prop in H as [H | H];
      apply String.eqb_eq in H; auto.
  - apply IH. now apply andb_prop in H as [_ H].
Defined.

(** An element at the head of a token stream is its first child. *)
Lemma firstChild_head el inner c x d :
  children inner c -> firstChild (TStartElement el :: c ++ TEndElement x :: d) el c x d.
Proof. intros H. exists [], inner. now repeat split. Defined.

(** C10 as amended, on documents that start with an XML declaration:
    [Header] twice before [Body] is answered with
    [multiple SOAP headers found], and [Header], [Body], [Header] with
    the error of the check for the end tag. *)
Lemma repeated_section_witness :
  Forall isMisc Sample.prolog
  /\ registryOk Sample.ewsTypes Sample.requestHeader
  /\ children ["Header"; "Header"; "Body"] Sample.twoHeadersChildren
  /\ returnsError
       (SOAP2JSON Sample.ewsTypes Sample.EwsOperations Sample.requestHeader
          (Sample.document Sample.twoHeadersChildren))
  /\ SOAP2JSON Sample.ewsTypes Sample.EwsOperations Sample.requestHeader
       (Sample.document Sample.twoHeadersChildren)
     = Err (ENew "multiple SOAP headers found")
  /\ children ["Header"; "Body"; "Header"] Sample.headerBodyHeaderChildren
  /\ SOAP2JSON Sample.ewsTypes Sample.EwsOperations Sample.requestHeader
       (Sample.document Sample.headerBodyHeaderChildren)
     = Err (Errorf "unexpected element (wanted end), got %#v"
              [ATok (TStartElement Sample.headerStart)]).
Proof.
  pose proof (repeated_section_is_rejected Sample.ewsTypes Sample.EwsOperations
                Sample.requestHeader) as (Hno & Hwhich & _ & _).
  split; [exact prolog_isMisc | split; [exact sample_registryOk|]].
  split; [exact twoHeaders_children | split; [|split]].
  - apply (Hno Sample.prolog ["Header"; "Header"; "Body"] Sample.twoHeadersChildren
             Sample.envelope (mkName NSSOAP "Envelope") []
             prolog_isMisc twoHeaders_children);
      [now apply sectionNames | left; vm_compute; lia | exact sample_registryOk].
  - destruct (Hwhich Sample.prolog ["Header"; "Header"; "Body"] Sample.twoHeadersChildren
                Sample.envelope (mkName NSSOAP "Envelope") []
                prolog_isMisc twoHeaders_children)
      as (s1 & c1 & x1 & d1 & s2 & c2 & x2 & d2 & H1 & H2 & Hcase);
      [now apply sectionNames | left; vm_compute; lia | reflexivity|].
    destruct (firstChild_unique _ _ _ _ _ _ _ _ _ H1
                (firstChild_head Sample.headerStart [] [] (mkName NSSOAP "Header") _
                   children_nil)) as (-> & -> & -> & ->).
    destruct (firstChild_unique _ _ _ _ _ _ _ _ _ H2
                (firstChild_head Sample.headerStart [] [] (mkName NSSOAP "Header") _
                   children_nil)) as (-> & -> & -> & ->).
    destruct Hcase
      as [(_ & _ & E) | [(E & _) | (s3 & c3 & x3 & d3 & _ & [(_ & E & _) | (E & _)])]];
      try discriminate E.
    etransitivity; [exact E|]. vm_compute. reflexivity.
  - split; [exact headerBodyHeader_children|].
    destruct (Hwhich Sample.prolog ["Header"; "Body"; "Header"]
                Sample.headerBodyHeaderChildren
                Sample.envelope (mkName NSSOAP "Envelope") []
                prolog_isMisc headerBodyHeader_children)
      as (s1 & c1 & x1 & d1 & s2 & c2 & x2 & d2 & H1 & H2 & Hcase);
      [now apply sectionNames | left; vm_compute; lia | reflexivity|].
    destruct (firstChild_unique _ _ _ _ _ _ _ _ _ H1
                (firstChild_head Sample.headerStart [] [] (mkName NSSOAP "Header") _
                   children_nil)) as (-> & -> & -> & ->).
    destruct (firstChild_unique _ _ _ _ _ _ _ _ _ H2
                (firstChild_head Sample.bodyStart ["GetFolder"]
                   [TStartElement Sample.getFolderStart; Sample.stop NSMSG "GetFolder"]
                   (mkName NSSOAP "Body") _
                   (children_elem Sample.getFolderStart (mkName NSMSG "GetFolder")
                      [] [] [] [] children_nil children_nil)))
      as (-> & -> & -> & ->).
    destruct Hcase
      as [(_ & E & _) | [(E & _) | (s3 & c3 & x3 & d3 & H3 & [(_ & _ & E) | (E & _)])]];
      try discriminate E.
    destruct (firstChild_unique _ _ _ _ _ _ _ _ _ H3
                (firstChild_head Sample.headerStart [] [] (mkName NSSOAP "Header") _
                   children_nil)) as (-> & -> & -> & ->).
    etransitivity; [exact E|]. vm_compute. reflexivity.
Defined.

(** C10 as stated fails here.  [Header] occurs twice directly under
    [Envelope], yet the loop is done once it has read the first [Header]
    and the [Body] inside [Wrapper], and [SOAP2JSON] returns a message.
    And where the children are [Header], [Body], [Header], or [Header],
    [Body], [Body], the error is not one of the two quoted ones: the loop
    is done behind the first [Body], and the repeated section is met by
    the check for the end tag of [Envelope]. *)
Lemma repeated_section_accepted_or_reported_otherwise :
  (children ["Header"; "Wrapper"; "Header"] Sample.wrappedBodyChildren
   /\ countName "Header" ["Header"; "Wrapper"; "Header"] = 2%nat
   /\ SOAP2JSON Sample.ewsTypes Sample.EwsOperations Sample.requestHeader
        Sample.wrappedBodyRequest
      = Ok ([("__type", VString "GetFolderJsonRequest:#Exchange");
             ("Header", VObject synthesizedHeader);
             ("Body", VObject [("__type", VString "GetFolderRequest:#Exchange");
                               ("Count", VNumber "12.50")])], Some Sample.getFolder))
  /\ (children ["Header"; "Body"; "Header"] Sample.headerBodyHeaderChildren
      /\ countName "Header" ["Header"; "Body"; "Header"] = 2%nat
      /\ SOAP2JSON Sample.ewsTypes Sample.EwsOperations Sample.requestHeader
           (TStartElement Sample.envelope
            :: Sample.headerBodyHeaderChildren ++ [Sample.stop NSSOAP "Envelope"])
         = Err (Errorf "unexpected element (wanted end), got %#v"
                  [ATok (TStartElement Sample.headerStart)])
      /\ Errorf "unexpected element (wanted end), got %#v"
           [ATok (TStartElement Sample.headerStart)]
         <> ENew "multiple SOAP headers found")
  /\ (children ["Header"; "Body"; "Body"] Sample.headerBodyBodyChildren
      /\ countName "Body" ["Header"; "Body"; "Body"] = 2%nat
      /\ SOAP2JSON Sample.ewsTypes Sample.EwsOperations Sample.requestHeader
           (TStartElement Sample.envelope
            :: Sample.headerBodyBodyChildren ++ [Sample.stop NSSOAP "Envelope"])
         = Err (Errorf "unexpected element (wanted end), got %#v"
                  [ATok (TStartElement Sample.bodyStart)])
      /\ Errorf "unexpected element (wanted end), got %#v"
           [ATok (TStartElement Sample.bodyStart)]
         <> ENew "multiple SOAP bodies found").
Proof.
  split; [|split].
  - split; [|split; [reflexivity | vm_compute; reflexivity]].
    apply (children_elem Sample.headerStart (mkName NSSOAP "Header") [] [] _ _ children_nil).
    apply (children_elem (mkStart (mkName "" "Wrapper") []) (mkName "" "Wrapper")
             ["Body"] Sample.wrappedBody
             ["Header"] [TStartElement Sample.headerStart; Sample.stop NSSOAP "Header"]).
    + apply (children_elem (mkStart (mkName NSSOAP "Body") []) (mkName NSSOAP "Body")
               ["GetFolder"]
               (TStartElement Sample.getFolderStart
                :: Sample.countContent ++ [Sample.stop NSMSG "GetFolder"]) [] []).
      * apply (children_elem Sample.getFolderStart (mkName NSMSG "GetFolder")
                 ["Count"] Sample.countContent [] []); [|apply children_nil].
        apply (children_elem (mkStart (mkName NSTYPE "Count") []) (mkName NSTYPE "Count")
                 [] [TCharData " 12.50 "] [] []); [|apply children_nil].
        apply children_misc; [exact I | apply children_nil].
      * apply children_nil.
    + apply (children_elem Sample.headerStart (mkName NSSOAP "Header") [] [] _ _ children_nil).
      apply children_nil.
  - split; [exact headerBodyHeader_children|].
    split; [reflexivity | split; [vm_compute; reflexivity | discriminate]].
  - split; [exact headerBodyBody_children|].
    split; [reflexivity | split; [vm_compute; reflexivity | discriminate]].
Qed.

(* ================================================================== *)
(** * The further properties on the small registry *)
(* ================================================================== *)

(** X1 on the empty object. *)
Lemma Set_then_Get_witness :
  keysExact NewOrderedObject
  /\ exists o' added,
      Set_ NewOrderedObject "Subject" (VString "s") = Ok (o', added)
      /\ Get o' "Subject" = Ok (VString "s", true)
      /\ (added = true <-> Get NewOrderedObject "Subject" = Ok (VNil, false)).
Proof.
  split; [exact keysExact_new|].
  destruct (Set_then_Get NewOrderedObject "Subject" (VString "s") keysExact_new)
    as (o' & added & H1 & _ & H2 & _ & H3 & _).
  exists o', added. split; [exact H1 | split; [exact H2 | exact H3]].
Defined.

Definition getFolderObject : list Member :=
  [("__type", VString "GetFolderRequest:#Exchange"); ("Count", VNumber "12.50")].

Lemma getFolder_translated :
  processElement Sample.ewsTypes 8
    (Sample.countContent ++ [Sample.stop NSMSG "GetFolder"; Sample.stop NSSOAP "Body"])
    Sample.getFolderStart (Some Sample.getFolderType)
  = Ok (VObject getFolderObject, [Sample.stop NSSOAP "Body"]).
Proof. vm_compute. reflexivity. Defined.

(** X2 on the [GetFolder] request. *)
Lemma translated_object_witness :
  processElement Sample.ewsTypes 8
    (Sample.countContent ++ [Sample.stop NSMSG "GetFolder"; Sample.stop NSSOAP "Body"])
    Sample.getFolderStart (Some Sample.getFolderType)
  = Ok (VObject getFolderObject, [Sample.stop NSSOAP "Body"])
  /\ NoDup (fst <$> getFolderObject).
Proof.
  split; [exact getFolder_translated|].
  exact (translated_object_has_distinct_keys Sample.ewsTypes _ _ _ _ _ _ getFolder_translated).
Defined.

(** X3: a default for [Traversal] on the empty object. *)
Lemma defaults_witness :
  keysExact NewOrderedObject
  /\ exists o',
      insertDefaults [mkJsonDefault "Traversal" (VString "Shallow")] NewOrderedObject = Ok o'
      /\ Get o' "Traversal" = Ok (VString "Shallow", true).
Proof.
  split; [exact keysExact_new|].
  destruct (defaults_only_fill_gaps [mkJsonDefault "Traversal" (VString "Shallow")]
              NewOrderedObject keysExact_new) as (o' & H1 & _ & _ & _ & H2 & _).
  exists o'. split; [exact H1|].
  destruct (H2 (mkJsonDefault "Traversal" (VString "Shallow"))) as [[v Hv] | (e0 & He0 & _ & H)].
  - apply list_elem_of_singleton. reflexivity.
  - discriminate Hv.
  - apply list_elem_of_singleton in He0. subst e0. exact H.
Defined.

Lemma countContent_children : children ["Count"] Sample.countContent.
Proof.
  apply (children_elem (mkStart (mkName NSTYPE "Count") []) (mkName NSTYPE "Count")
           [] [TCharData " 12.50 "] [] []); [|apply children_nil].
  apply children_misc; [exact I | apply children_nil].
Defined.

(** X4 on the [GetFolder] request. *)
Lemma element_end_tag_witness :
  children ["Count"] Sample.countContent
  /\ processElement Sample.ewsTypes 8
       (Sample.countContent ++ Sample.stop NSMSG "GetFolder" :: [Sample.stop NSSOAP "Body"])
       Sample.getFolderStart (Some Sample.getFolderType)
     = Ok (VObject getFolderObject, [Sample.stop NSSOAP "Body"])
  /\ [Sample.stop NSSOAP "Body"] = [Sample.stop NSSOAP "Body"].
Proof.
  split; [exact countContent_children | split; [exact getFolder_translated|]].
  exact (element_is_read_to_its_end_tag Sample.ewsTypes _ _ _ _ _ _ _ _ _
           countContent_children getFolder_translated).
Defined.

(** X6 on the request without a header. *)
Lemma SOAP2JSON_returns_witness :
  registryOk Sample.ewsTypes Sample.requestHeader
  /\ ((exists msg op,
         SOAP2JSON Sample.ewsTypes Sample.EwsOperations Sample.requestHeader
           Sample.noHeaderRequest = Ok (msg, op))
      \/ returnsError
           (SOAP2JSON Sample.ewsTypes Sample.EwsOperations Sample.requestHeader
              Sample.noHeaderRequest)).
Proof.
  split; [exact sample_registryOk|].
  exact (SOAP2JSON_returns Sample.ewsTypes Sample.EwsOperations Sample.requestHeader
           Sample.noHeaderRequest sample_registryOk).
Defined.

(** X8 on a [Count] element. *)
Lemma simple_element_witness :
  IsSimple Sample.numberType = true /\ TextAttr Sample.numberType = ""
  /\ processElement Sample.ewsTypes 3
       [TCharData " 12.50 "; Sample.stop NSTYPE "Count"]
       (mkStart (mkName NSTYPE "Count") []) (Some Sample.numberType)
     = Ok (VNumber "12.50", [])
  /\ processElement Sample.ewsTypes 3
       [TCharData "  "; Sample.stop NSTYPE "Count"]
       (mkStart (mkName NSTYPE "Count") []) (Some Sample.numberType)
     = Ok (VNil, []).
Proof.
  split; [reflexivity | split; [reflexivity | split]].
  - apply (proj1 (simple_element_is_its_text Sample.ewsTypes 0
                    (mkStart (mkName NSTYPE "Count") []) Sample.numberType " 12.50 "
                    (mkName NSTYPE "Count") [] eq_refl eq_refl)).
    vm_compute. discriminate.
  - apply (proj1 (proj2 (simple_element_is_its_text Sample.ewsTypes 0
                           (mkStart (mkName NSTYPE "Count") []) Sample.numberType "  "
                           (mkName NSTYPE "Count") [] eq_refl eq_refl))).
    vm_compute. reflexivity.
Defined.

(** X9 on the request with an empty header. *)
Lemma ignores_what_follows_witness :
  exists res p rest n,
    SOAP2JSON Sample.ewsTypes Sample.EwsOperations Sample.requestHeader
      Sample.emptyHeaderRequest = Ok res
    /\ Sample.emptyHeaderRequest = p ++ rest
    /\ last p = Some (TEndElement n)
    /\ forall x,
        SOAP2JSON Sample.ewsTypes Sample.EwsOperations Sample.requestHeader (p ++ x) = Ok res.
Proof.
  destruct (SOAP2JSON Sample.ewsTypes Sample.EwsOperations Sample.requestHeader
              Sample.emptyHeaderRequest) as [res| | |] eqn:E;
    try (vm_compute in E; discriminate E).
  destruct (SOAP2JSON_ignores_what_follows Sample.ewsTypes Sample.EwsOperations
              Sample.requestHeader Sample.emptyHeaderRequest res E)
    as (p & rest & n & H1 & H2 & H3).
  exists res, p, rest, n. split; [reflexivity | split; [exact H1 | split; [exact H2 | exact H3]]].
Defined.

(** X13 on the [Version] attribute of [RequestServerVersion]. *)
Lemma attributes_witness :
  NoDup (JN <$> Attributes Sample.versionType)
  /\ exists attrs' element',
      collectAttrs (Attributes Sample.versionType)
        {[ "Version" := VString "Exchange2013" ]} [] = Ok (attrs', element')
      /\ Forall2 (attributeOf {[ "Version" := VString "Exchange2013" ]})
           (List.filter (declaredIn {[ "Version" := VString "Exchange2013" ]})
              (Attributes Sample.versionType)) attrs'
      /\ element' !! "Version" = None.
Proof.
  assert (Hnd : NoDup (JN <$> Attributes Sample.versionType)) by apply NoDup_singleton.
  split; [exact Hnd|].
  destruct (collectAttrs (Attributes Sample.versionType)
              {[ "Version" := VString "Exchange2013" ]} []) as [[attrs' element']| | |] eqn:E;
    try (vm_compute in E; discriminate E).
  destruct (attributes_follow_the_declaration _ _ _ _ Hnd E) as [H1 H2].
  exists attrs', element'. split; [reflexivity | split; [exact H1|]].
  rewrite H2. reflexivity.
Defined.

(** X14 on a [Subject] element. *)
Lemma string_round_trip_witness :
  processElement Sample.ewsTypes 3
    [TCharData " hello "; Sample.stop NSTYPE "Subject"]
    (mkStart (mkName NSTYPE "Subject") []) (Some Sample.stringType)
  = Ok (VString (Trim " hello " trimCutset), [])
  /\ processJson Sample.ewsTypes 1 emptyEncoder (VString (Trim " hello " trimCutset))
       (Some (Sample.single "Subject" "t:Subject" "String"))
     = Ok (mkEnc []
             [TStartElement (mkStart (mkName "" "t:Subject") []);
              TCharData (Trim " hello " trimCutset);
              TEndElement (mkName "" "t:Subject")]).
Proof.
  apply (string_text_round_trip Sample.ewsTypes 0 0 (mkStart (mkName NSTYPE "Subject") [])
           Sample.stringType " hello " (mkName NSTYPE "Subject") [] emptyEncoder
           (Sample.single "Subject" "t:Subject" "String")
           (mkJsonType "String" (mkName "" "t:Subject") ""));
    try reflexivity; vm_compute; discriminate.
Defined.

Definition itemChoice : EwsJsonType := mkJsonType "ItemType" (mkName "" "t:Item") "Item:#Exchange".
Definition folderChoice : EwsJsonType :=
  mkJsonType "GetFolderType" (mkName "" "t:Folder") "Folder:#Exchange".

(** X15: a description with the two types [Item] and [Folder]. *)
Lemma second_type_witness :
  exists e2,
    (e1 ← add Sample.ewsTypes (NewEwsJsonElement "ItemsType" "Items" true) itemChoice;
     add Sample.ewsTypes e1 folderChoice) = Ok e2
    /\ jeSingleType e2 = None
    /\ resolveChoice {[ "__type" := VString "Folder:#Exchange" ]} e2 = Ok folderChoice
    /\ resolveChoice {[ "__type" := VString "Item:#Exchange" ]} e2 = Ok itemChoice
    /\ resolveChoice {[ "__type" := VString "Message:#Exchange" ]} e2
       = Err (Errorf "hint %s was not found in element %s"
                [AStr "Message:#Exchange"; AStr "Items"]).
Proof.
  destruct (e1 ← add Sample.ewsTypes (NewEwsJsonElement "ItemsType" "Items" true) itemChoice;
            add Sample.ewsTypes e1 folderChoice) as [e2| | |] eqn:E;
    try (vm_compute in E; discriminate E).
  destruct (second_type_makes_a_choice Sample.ewsTypes "ItemsType" "Items" true
              itemChoice folderChoice e2 eq_refl E)
    as (_ & hs1 & hs2 & m & Hh1 & Hh2 & Hs & _ & _ & Hpick & _).
  injection Hh1 as <-. injection Hh2 as <-.
  exists e2. split; [reflexivity | split; [exact Hs | split; [|split]]].
  - rewrite (Hpick _ "Folder:#Exchange") by reflexivity. reflexivity.
  - rewrite (Hpick _ "Item:#Exchange") by reflexivity. reflexivity.
  - rewrite (Hpick _ "Message:#Exchange") by reflexivity. reflexivity.
Defined.

Definition noRange : gmap string EwsJsonType -> list EwsJsonType := fun _ => [].

(** A type as it is before [Initialize]: the attribute [Version] has no
    JSON name yet, and the tables are empty. *)
Definition rawVersionType : EwsType :=
  Sample.complexType "RequestServerVersion" ""
    [mkElement "Version" "" "String" "" false VNil] ∅ [] ∅ ∅.

(** X16 on [RequestServerVersion]. *)
Lemma Initialize_attributes_witness :
  exists v',
    Initialize Sample.ewsTypes noRange [] rawVersionType = Ok v'
    /\ Attributes v' = [mkElement "Version" "Version" "String" "" false VNil]
    /\ Attrs v' !! "Version" = Some "String"
    /\ AttrsNames v' !! "Version" = Some "Version".
Proof.
  destruct (Initialize Sample.ewsTypes noRange [] rawVersionType) as [v'| | |] eqn:E;
    try (vm_compute in E; discriminate E).
  destruct (Initialize_attribute_tables Sample.ewsTypes noRange [] rawVersionType v' E)
    as (Ha & _ & _ & _ & Hmaps).
  exists v'. split; [reflexivity | split; [exact Ha|]].
  apply (Hmaps (NoDup_singleton _) (mkElement "Version" "Version" "String" "" false VNil)).
  rewrite Ha. apply list_elem_of_singleton. reflexivity.
Defined.

(** A type as it is before [Initialize], with the child elements
    [t:Subject] and [t:Body]. *)
Definition rawItemType : EwsType :=
  Sample.complexType "ItemType" "Item:#Exchange" [] ∅ [] ∅ ∅.

Definition rawItemElements : list element :=
  [mkElement "t:Subject" "" "String" "" false VNil;
   mkElement "t:Body" "Text" "String" "" false VNil].

(** X17 on [ItemType]. *)
Lemma Initialize_children_witness :
  exists v',
    Initialize Sample.ewsTypes noRange rawItemElements rawItemType = Ok v'
    /\ is_Some (TypeByElementName v' !! "Body")
    /\ (exists je, je ∈ JsonElementList v' /\ jeJsonName je = "Text"
                   /\ is_Some (jeElements je !! "t:Body"))
    /\ NoDup (jeJsonName <$> JsonElementList v').
Proof.
  destruct (Initialize Sample.ewsTypes noRange rawItemElements rawItemType)
    as [v'| | |] eqn:E; try (vm_compute in E; discriminate E).
  destruct (Initialize_child_tables Sample.ewsTypes noRange rawItemElements rawItemType v' E)
    as (Hdecl & _ & Hnd).
  exists v'. split; [reflexivity|].
  destruct (Hdecl (mkElement "t:Body" "Text" "String" "" false VNil))
    as (ename & je & Hsplit & Hby & Hje & Hname & Hel).
  { right. left. }
  injection Hsplit as <-.
  split; [exact Hby | split; [|exact (Hnd eq_refl)]].
  exists je. split; [exact Hje | split; [exact Hname | apply Hel; discriminate]].
Defined.

Definition getFolderMessage : list Member :=
  [("__type", VString "GetFolderJsonRequest:#Exchange");
   ("Header", VObject synthesizedHeader);
   ("Body", VObject getFolderObject)].

(** X18 on the [GetFolder] request with an empty header: the two sections
    in either order, behind an XML declaration and with a comment before
    the end tag of the envelope. *)
Lemma sections_witness :
  SOAP2JSON Sample.ewsTypes Sample.EwsOperations Sample.requestHeader
    (Sample.prolog ++ TStartElement Sample.envelope
       :: TStartElement Sample.headerStart :: Sample.stop NSSOAP "Header"
       :: TStartElement Sample.bodyStart
       :: TStartElement Sample.getFolderStart
       :: Sample.countContent ++ Sample.stop NSMSG "GetFolder"
       :: Sample.stop NSSOAP "Body"
       :: [TComment "end"] ++ [Sample.stop NSSOAP "Envelope"])
  = Ok (getFolderMessage, Some Sample.getFolder)
  /\ SOAP2JSON Sample.ewsTypes Sample.EwsOperations Sample.requestHeader
       (Sample.prolog ++ TStartElement Sample.envelope
          :: TStartElement Sample.bodyStart
          :: TStartElement Sample.getFolderStart
          :: Sample.countContent ++ Sample.stop NSMSG "GetFolder"
          :: Sample.stop NSSOAP "Body"
          :: TStartElement Sample.headerStart :: Sample.stop NSSOAP "Header"
          :: [TComment "end"] ++ [Sample.stop NSSOAP "Envelope"])
     = Ok (getFolderMessage, Some Sample.getFolder).
Proof.
  apply (SOAP2JSON_of_its_sections Sample.ewsTypes Sample.EwsOperations Sample.requestHeader
           8 8 Sample.envelope Sample.headerStart Sample.bodyStart Sample.getFolderStart
           (mkName NSSOAP "Header") (mkName NSMSG "GetFolder") (mkName NSSOAP "Body")
           (mkName NSSOAP "Envelope")
           Sample.prolog [] [] [] [] [TComment "end"] [] Sample.countContent []
           synthesizedHeader (Some getFolderObject) Sample.getFolder);
    try (repeat constructor; fail); try reflexivity; vm_compute; reflexivity.
Defined.
